(** * Count-Min Sketch with a Top-N side index (statistics/cmsketch.go)

    A shallow embedding of the two revisions of [statistics/cmsketch.go]
    and the properties of the sketch that are checked against them.

    - [Sketch] embeds the revision built around [topNHelper]
      ([newTopNHelper], [buildCMSWithTopN], [calculateDefaultVal],
      [updateTopNWithDelta]).
    - [TopNCodec] embeds the revision whose protobuf codec carries the
      Top-N entries ([queryAddTopN], [CMSketchToProto],
      [CMSketchFromProto], [encodeCMSketch], [decodeCMSketch], [Equal]).

    Machine integers are modelled as [Z] with the wrap-around written out,
    Go byte strings as [string], nil-able byte slices as [option string],
    Go maps as [gmap], run-time panics as the [Crash] outcome of [exec]. *)

From Stdlib Require Import ZArith Znumtheory Lia String Ascii.
From stdpp Require Import base option list sorting strings gmap fin_maps.

Local Open Scope Z_scope.

(** ** Machine integers *)

Definition u32 (x : Z) : Z := x mod 2 ^ 32.
Definition u64 (x : Z) : Z := x mod 2 ^ 64.

Definition MaxUint32 : Z := 2 ^ 32 - 1.

Definition is_u32 (x : Z) : Prop := 0 <= x < 2 ^ 32.
Definition is_u64 (x : Z) : Prop := 0 <= x < 2 ^ 64.

(** ** Go run-time outcomes *)

Inductive panic : Set :=
| DivideByZero
| IndexOutOfRange
| LenOutOfRange
| NilDereference.

Inductive exec (A : Type) : Type :=
| Done (a : A)
| Crash (p : panic).
Arguments Done {A} a.
Arguments Crash {A} p.

#[global] Instance exec_ret : MRet exec := fun A a => Done a.
#[global] Instance exec_bind : MBind exec := fun A B k m =>
  match m with
  | Done a => k a
  | Crash p => Crash p
  end.

(** [s[i]] on a slice, panicking out of range. *)
Definition index {A} (l : list A) (i : Z) : exec A :=
  if (i <? 0) || (Z.of_nat (length l) <=? i) then Crash IndexOutOfRange
  else match l !! Z.to_nat i with
       | Some a => Done a
       | None => Crash IndexOutOfRange
       end.

(** [s[i] = x] on a slice, panicking out of range. *)
Definition store {A} (l : list A) (i : Z) (x : A) : exec (list A) :=
  if (i <? 0) || (Z.of_nat (length l) <=? i) then Crash IndexOutOfRange
  else Done (<[Z.to_nat i := x]> l).

(** [make([]T, n)] with zero value [z]. *)
Definition make {A} (z : A) (n : Z) : exec (list A) :=
  if n <? 0 then Crash LenOutOfRange else Done (replicate (Z.to_nat n) z).

(** Unsigned 64-bit division and remainder. *)
Definition udiv (a b : Z) : exec Z :=
  if b =? 0 then Crash DivideByZero else Done (a / b).
Definition umod (a b : Z) : exec Z :=
  if b =? 0 then Crash DivideByZero else Done (a mod b).

(** Errors built with [errors.New] in cmsketch.go. *)
Inductive error : Set :=
| ErrDimensions
| ErrTopNMerge
| ErrBrokenData
| ErrCodec (msg : string).

Definition error_message (e : error) : string :=
  match e with
  | ErrDimensions => "Dimensions of Count-Min Sketch should be the same"
  | ErrTopNMerge => "CMSketch with Top-N does not supports merge"
  | ErrBrokenData => "Broken data"
  | ErrCodec msg => msg
  end.

(** [*p] on a pointer that may be nil. *)
Definition deref {A} (p : option A) : exec A :=
  match p with
  | Some a => Done a
  | None => Crash NilDereference
  end.

(** The conversion [int32(n)] of a length. *)
Definition i32 (x : Z) : Z := (x + 2 ^ 31) mod 2 ^ 32 - 2 ^ 31.

(** A nil-able [[]byte]: [None] is the nil slice. *)
Definition contents (d : option string) : string := default EmptyString d.

(** [bytes.Equal]: nil and empty slices are equal. *)
Definition bytes_Equal (a b : option string) : bool :=
  bool_decide (contents a = contents b).

(** [sort.Sort(sortutil.Uint32Slice(vals))]: ascending. *)
Definition sort_asc (l : list Z) : list Z := merge_sort Z.le l.

(** [sort.Slice(sorted, func(i, j) bool { return sorted[i] > sorted[j] })]. *)
Definition sort_desc (l : list Z) : list Z := merge_sort Z.ge l.

(** Column of row [i] for the hash pair [(h1, h2)]:
    [(h1 + h2*uint64(i)) % uint64(c.width)]. *)
Definition column (width h1 h2 : Z) (i : nat) : exec Z :=
  umod (u64 (h1 + u64 (h2 * Z.of_nat i))) (u64 width).

(** The longest prefix whose elements satisfy [p]. *)
Fixpoint takeWhile {A} (p : A -> bool) (l : list A) : list A :=
  match l with
  | [] => []
  | x :: l' => if p x then x :: takeWhile p l' else []
  end.

(** The sum of a list of integers. *)
Definition sumZ (l : list Z) : Z := foldr Z.add 0 l.


(** * The protobuf messages of tipb *)

Module tipb.

Record CMSketchRow : Type := mkRow
  { Counters : list Z }.

Record CMSketchTopN : Type := mkTopN
  { Data : option string;
    Count : Z }.

(** [Rows] and [TopN] are slices of pointers; [TopN] itself may be nil. *)
Record CMSketch : Type := mkCMSketch
  { Rows : list (option CMSketchRow);
    TopN : option (list (option CMSketchTopN)) }.

(** [len(p.TopN)]. *)
Definition lenTopN (p : CMSketch) : nat :=
  match TopN p with
  | None => 0%nat
  | Some l => length l
  end.

End tipb.



(** ** Loops over the table, the same in the two revisions *)

(** The loop [for i := range tbl { tbl[i] = make([]uint32, w) }]. *)
Fixpoint makeRows (w : Z) (tbl : list (list Z)) : exec (list (list Z)) :=
  match tbl with
  | [] => Done []
  | _ :: tbl' => r ← make 0 w; rs ← makeRows w tbl'; Done (r :: rs)
  end.

(** The loop [for i := range c.table { j := ...; c.table[i][j] += delta }]
    from row [i] on. *)
Fixpoint addRows (w h1 h2 delta : Z) (i : nat) (rows : list (list Z))
  : exec (list (list Z)) :=
  match rows with
  | [] => Done []
  | row :: rest =>
      j ← column w h1 h2 i;
      cell ← index row j;
      row' ← store row j (u32 (cell + delta));
      rest' ← addRows w h1 h2 delta (S i) rest;
      Done (row' :: rest')
  end.

(** One iteration of the row loop of [queryHashValue], for a sketch of
    the given [width] and [count]: the state is the running minimum and
    the slice [vals]. *)
Definition queryRow (width count : Z) (h1 h2 : Z) (i : nat) (row : list Z)
    (st : Z * list Z) : exec (Z * list Z) :=
  let '(min, vals) := st in
  j ← column width h1 h2 i;
  cell ← index row j;
  let min := if min >? cell then cell else min in
  noise ← udiv (u64 (count - cell)) (u64 (u64 width - 1));
  vals ← store vals (Z.of_nat i)
           (if cell <? noise then 0 else u32 (cell - u32 noise));
  Done (min, vals).

Fixpoint queryRows (width count : Z) (h1 h2 : Z) (i : nat)
    (rows : list (list Z)) (st : Z * list Z) : exec (Z * list Z) :=
  match rows with
  | [] => Done st
  | row :: rest =>
      st ← queryRow width count h1 h2 i row st;
      queryRows width count h1 h2 (S i) rest st
  end.

(** [MergeCMSketch]: the inner loop [for j := range c.table[i]] with its
    body [c.table[i][j] += rc.table[i][j]]; [acc] is the row
    [c.table[i]]. *)
Fixpoint mergeRow (row : list Z) (rtable : list (list Z)) (i j : nat)
    (acc : list Z) : exec (list Z) :=
  match row with
  | [] => Done acc
  | _ :: row' =>
      a ← index acc (Z.of_nat j);
      rrow ← index rtable (Z.of_nat i);
      b ← index rrow (Z.of_nat j);
      acc ← store acc (Z.of_nat j) (u32 (a + b));
      mergeRow row' rtable i (S j) acc
  end.

(** The outer loop [for i := range c.table] from row [i] on. *)
Fixpoint mergeRows (rows : list (list Z)) (rtable : list (list Z)) (i : nat)
  : exec (list (list Z)) :=
  match rows with
  | [] => Done []
  | row :: rest =>
      row' ← mergeRow row rtable i 0 row;
      rest' ← mergeRows rest rtable (S i);
      Done (row' :: rest')
  end.

(** The cell [table[i][j]], if there is one. *)
Definition cellAt (t : list (list Z)) (i j : nat) : option Z :=
  t !! i ≫= fun row : list Z => row !! j.

(** A table whose rows all have [w] cells. *)
Definition shaped (w : Z) (rows : list (list Z)) : Prop :=
  Forall (fun row : list Z => Z.of_nat (length row) = w) rows.

(** A table whose cells are all uint32. *)
Definition cells32 (t : list (list Z)) : Prop :=
  forall (i j : nat) (v : Z), cellAt t i j = Some v -> is_u32 v.

(** ** Reading the rows of a message, the same in the two revisions *)

(** The inner loop [for j, counter := range row.Counters] of
    [CMSketchFromProto] for row [i]: the state is the table and
    [c.count]. *)
Fixpoint fromCounters (counters : list Z) (i j : nat)
    (st : list (list Z) * Z) : exec (list (list Z) * Z) :=
  match counters with
  | [] => Done st
  | counter :: counters' =>
      let '(tbl, cnt) := st in
      trow ← index tbl (Z.of_nat i);
      trow ← store trow (Z.of_nat j) counter;
      tbl ← store tbl (Z.of_nat i) trow;
      fromCounters counters' i (S j) (tbl, u64 (cnt + counter))
  end.

(** The loop [for i, row := range protoSketch.Rows], which starts every
    row with [c.count = 0]; the state is the table and [c.count]. *)
Fixpoint fromRows (rows : list (option tipb.CMSketchRow)) (i : nat)
    (st : list (list Z) * Z) : exec (list (list Z) * Z) :=
  match rows with
  | [] => Done st
  | row :: rows' =>
      let '(tbl, _) := st in
      let count := 0 in
      row ← deref row;
      st ← fromCounters (tipb.Counters row) i 0 (tbl, count);
      fromRows rows' (S i) st
  end.

(** [c.count] after the loop over the rows of a message: every row
    starts from 0, so the value left is the sum of the last row. *)
Definition rowsCount (rows : list (option tipb.CMSketchRow)) (count0 : Z)
  : Z :=
  foldl (fun (_ : Z) (r : option tipb.CMSketchRow) =>
           u64 (sumZ (tipb.Counters (default (tipb.mkRow []) r))))
        count0 rows.

(** A row of the message zero-extended to [w] cells. *)
Definition padded (w : nat) (row : option tipb.CMSketchRow) : list Z :=
  let counters := tipb.Counters (default (tipb.mkRow []) row) in
  counters ++ replicate (w - length counters) 0.

(** The width [CMSketchFromProto] reads from row 0. *)
Definition protoWidth (p : tipb.CMSketch) : nat :=
  length (tipb.Counters (default (tipb.mkRow [])
                           (default None (tipb.Rows p !! 0%nat)))).

(** * The revision built around [topNHelper] *)

Module Sketch.

Module dataCount.
Record t : Type := mk
  { h1 : Z;
    h2 : Z;
    data : option string;
    count : Z }.
End dataCount.

Record CMSketch : Type := mkCMSketch
  { depth : Z;
    width : Z;
    count : Z;
    defaultValue : Z;
    table : list (list Z);
    topN : option (gmap Z (list dataCount.t)) }.

Definition set_count (c : CMSketch) (n : Z) : CMSketch :=
  mkCMSketch (depth c) (width c) n (defaultValue c) (table c) (topN c).
Definition set_table (c : CMSketch) (t : list (list Z)) : CMSketch :=
  mkCMSketch (depth c) (width c) (count c) (defaultValue c) t (topN c).
Definition set_defaultValue (c : CMSketch) (v : Z) : CMSketch :=
  mkCMSketch (depth c) (width c) (count c) v (table c) (topN c).
Definition set_topN (c : CMSketch) (m : option (gmap Z (list dataCount.t)))
  : CMSketch :=
  mkCMSketch (depth c) (width c) (count c) (defaultValue c) (table c) m.

(** [NewCMSketch(d, w)]: a [d] by [w] table of zeros. *)
Definition NewCMSketch (d w : Z) : exec CMSketch :=
  tbl ← make ([] : list Z) d;
  tbl ← makeRows w tbl;
  Done (mkCMSketch d w 0 0 tbl None).

(** The slice [c.topN[h1]]; a missing key reads as the nil slice. *)
Definition bucket (m : gmap Z (list dataCount.t)) (h1 : Z) : list dataCount.t :=
  default [] (m !! h1).

Definition matches (h2 : Z) (d : option string) (cnt : dataCount.t) : bool :=
  (dataCount.h2 cnt =? h2) && bytes_Equal d (dataCount.data cnt).

(** The loop [for _, cnt := range c.topN[h1]] of [updateTopNWithDelta].
    [cnt] is a copy of the slice element (the slice holds [dataCount]
    values, not pointers), so [cnt.count += delta] updates that copy and
    the slice is left as it was; the loop only reports whether an entry
    matched. *)
Fixpoint updateTopNLoop (h2 delta : Z) (d : option string)
    (l : list dataCount.t) : bool :=
  match l with
  | [] => false
  | cnt :: l' =>
      if matches h2 d cnt then
        let cnt := dataCount.mk (dataCount.h1 cnt) (dataCount.h2 cnt)
                     (dataCount.data cnt)
                     (u64 (dataCount.count cnt + delta)) in
        true
      else updateTopNLoop h2 delta d l'
  end.

(** [updateTopNWithDelta]: the sketch after the call and the result. *)
Definition updateTopNWithDelta (c : CMSketch) (h1 h2 delta : Z)
    (d : option string) : CMSketch * bool :=
  match topN c with
  | None => (c, false)
  | Some m => (c, updateTopNLoop h2 delta d (bucket m h1))
  end.

(** The loop [for _, cnt := range c.topN[h1]] of [queryTopN]. *)
Fixpoint queryTopNLoop (h2 : Z) (d : option string) (l : list dataCount.t)
  : Z * bool :=
  match l with
  | [] => (0, false)
  | cnt :: l' =>
      if matches h2 d cnt then (dataCount.count cnt, true)
      else queryTopNLoop h2 d l'
  end.

(** [queryTopN]. *)
Definition queryTopN (c : CMSketch) (h1 h2 : Z) (d : option string)
  : Z * bool :=
  match topN c with
  | None => (0, false)
  | Some m => queryTopNLoop h2 d (bucket m h1)
  end.

(** [considerDefVal]. *)
Definition considerDefVal (c : CMSketch) (cnt : Z) : exec bool :=
  q ← udiv (count c) (u64 (width c));
  Done ((cnt <? u64 (2 * q)) && (0 <? defaultValue c)).

(** [queryHashValue].  [(c.depth-1)/2] and [c.depth/2] are int32
    divisions, truncating toward zero. *)
Definition queryHashValue (c : CMSketch) (h1 h2 : Z) : exec Z :=
  vals ← make 0 (depth c);
  '(min, vals) ← queryRows (width c) (count c) h1 h2 0 (table c) (MaxUint32, vals);
  let vals := sort_asc vals in
  lo ← index vals (Z.quot (depth c - 1) 2);
  hi ← index vals (Z.quot (depth c) 2);
  lo' ← index vals (Z.quot (depth c - 1) 2);
  let res := u32 (lo + u32 (hi - lo') / 2) in
  let res := if res >? min then min else res in
  b ← considerDefVal c res;
  Done (if b : bool then defaultValue c else res).

(** [MergeCMSketch]: the receiver after the call and the returned error. *)
Definition MergeCMSketch (c rc : CMSketch) : exec (CMSketch * option error) :=
  if negb (depth c =? depth rc) || negb (width c =? width rc) then
    Done (c, Some ErrDimensions)
  else if bool_decide (topN c ≠ None) || bool_decide (topN rc ≠ None) then
    Done (c, Some ErrTopNMerge)
  else
    let c1 := set_count c (u64 (count c + count rc)) in
    tbl ← mergeRows (table c1) (table rc) 0;
    Done (set_table c1 tbl, None).

(** [CMSketchFromProto]. *)
Definition CMSketchFromProto (protoSketch : option tipb.CMSketch)
  : exec (option CMSketch) :=
  match protoSketch with
  | None => Done None
  | Some p =>
      row0 ← index (tipb.Rows p) 0;
      row0 ← deref row0;
      c ← NewCMSketch (i32 (Z.of_nat (length (tipb.Rows p))))
            (i32 (Z.of_nat (length (tipb.Counters row0))));
      '(tbl, cnt) ← fromRows (tipb.Rows p) 0 (table c, count c);
      Done (Some (set_count (set_table c tbl) cnt))
  end.

(** *** Well-formed sketches

    What the Go types and [NewCMSketch] guarantee: the table has [depth]
    rows of [width] cells, the cells are uint32, the counters uint64 and
    the dimensions int32. *)
Record wf (c : CMSketch) : Prop := mk_wf
  { wf_depth : Z.of_nat (length (table c)) = depth c;
    wf_rows : Forall (fun row : list Z => Z.of_nat (length row) = width c)
                (table c);
    wf_cells : Forall (Forall is_u32) (table c);
    wf_count : is_u64 (count c);
    wf_defaultValue : is_u64 (defaultValue c);
    wf_depth32 : depth c < 2 ^ 31;
    wf_width32 : width c < 2 ^ 31 }.

(** *** The query as the specification words it

    Row [i] reads the cell [c_i] at column [(h1 + i*h2) mod w], the
    additions and multiplications being those of uint64. *)
Definition spec_cells (c : CMSketch) (h1 h2 : Z) : list Z :=
  imap (fun (i : nat) (row : list Z) =>
          row !!! Z.to_nat (u64 (h1 + Z.of_nat i * h2) mod width c))
       (table c).

(** [min] over the rows of [c_i]. *)
Definition spec_min (cells : list Z) : Z :=
  match cells with
  | [] => MaxUint32
  | x :: l => foldr Z.min x l
  end.

(** [v_i = max(0, c_i - noise_i)], [noise_i = (count - c_i) / (w - 1)]
    with integer division; the subtraction [count - c_i] is that of the
    uint64 field [count]. *)
Definition spec_estimate (c : CMSketch) (cell : Z) : Z :=
  Z.max 0 (cell - u64 (count c - cell) / (width c - 1)).

(** [res = v_{(d-1)/2} + (v_{d/2} - v_{(d-1)/2})/2] over the ascending
    [v], capped by [min], with the default-value fallback. *)
Definition spec_queryHashValue (c : CMSketch) (h1 h2 : Z) : Z :=
  let cells := spec_cells c h1 h2 in
  let v := sort_asc (spec_estimate c <$> cells) in
  let lo := v !!! Z.to_nat ((depth c - 1) / 2) in
  let hi := v !!! Z.to_nat (depth c / 2) in
  let res := lo + (hi - lo) / 2 in
  let res := Z.min res (spec_min cells) in
  if (res <? 2 * (count c / width c)) && (0 <? defaultValue c)
  then defaultValue c else res.

(** *** Building a sketch from a sample *)

(** [topNThreshold]: 10 means 1 / 10 = 10%. *)
Definition topNThreshold : Z := 10.

Record topNHelper : Type := mkTopNHelper
  { sampleSize : Z;
    numTop : Z;
    counter : gmap string Z;
    sorted : list Z;
    onlyOnceItems : Z;
    sumTopN : Z;
    lastVal : Z }.

(** [for k := range data { counter[hack.String(data[k])]++ }]: the key of
    a sample is its bytes, a nil sample counting as the empty key. *)
Definition countSamples (data : list (option string)) : gmap string Z :=
  foldl (fun (m : gmap string Z) (d : option string) =>
           <[contents d := u64 (default 0 (m !! contents d) + 1)]> m)
        ∅ data.

(** [for _, cnt := range counter { sorted = append(sorted, cnt);
    if cnt == 1 { onlyOnceItems++ } }] over the counts in the order the
    map is visited. *)
Definition collectCounts (cnts : list Z) : list Z * Z :=
  foldl (fun (st : list Z * Z) (cnt : Z) =>
           (st.1 ++ [cnt], if cnt =? 1 then u64 (st.2 + 1) else st.2))
        ([], 0) cnts.

(** The loop of [newTopNHelper] that finds how many elements are added
    to the Top-N index, from position [i] on, with the running [last]
    and [sumTopN]; [numTop] is already capped by [sampleNDV].  The loop
    runs at most [sampleNDV] times, which bounds [fuel]. *)
Fixpoint topNLoop (sorted : list Z) (sampleNDV numTop : Z) (fuel : nat)
    (i last sumTopN : Z) : exec (Z * Z) :=
  match fuel with
  | O => Done (last, sumTopN)
  | S fuel =>
      if (i <? sampleNDV) && (i <? u32 (numTop * 2)) then
        si ← index sorted i;
        stop ← (if i >=? numTop then
                   sn ← index sorted (u32 (numTop - 1));
                   Done ((u64 (si * 3) <? u64 (sn * 2)) && negb (last =? si))
                 else Done false);
        if stop : bool then Done (last, sumTopN)
        else topNLoop sorted sampleNDV numTop fuel
               (u32 (i + 1)) si (u64 (sumTopN + si))
      else Done (last, sumTopN)
  end.

(** [newTopNHelper].  The sorted counts and the number of keys seen once
    do not depend on the order in which the map is visited. *)
Definition newTopNHelper (data : list (option string)) (numTop : Z)
  : exec topNHelper :=
  let counter := countSamples data in
  let '(sorted, onlyOnceItems) := collectCounts (map_to_list counter).*2 in
  let sorted := sort_desc sorted in
  let sampleNDV := u32 (Z.of_nat (length sorted)) in
  let numTop := Z.min sampleNDV numTop in
  '(last, sumTopN) ← topNLoop sorted sampleNDV numTop (length sorted) 0 0 0;
  Done (mkTopNHelper (u64 (Z.of_nat (length data))) numTop counter sorted
          onlyOnceItems sumTopN last).

(** [calculateDefaultVal]. *)
Definition calculateDefaultVal (c : CMSketch) (helper : topNHelper)
    (estimateNDV ratio rowCount : Z) : exec CMSketch :=
  let sampleNDV := u64 (Z.of_nat (length (sorted helper))) in
  if rowCount <=? sumTopN helper then Done (set_defaultValue c 1)
  else if estimateNDV <=? numTop helper then Done (set_defaultValue c 1)
  else if u64 (estimateNDV + onlyOnceItems helper) <=? sampleNDV then
    Done (set_defaultValue c 1)
  else
    let estimateRemainingCount :=
      u64 (rowCount
           - u64 (u64 (sampleSize helper - onlyOnceItems helper) * ratio)) in
    v ← udiv estimateRemainingCount
          (u64 (u64 (estimateNDV - sampleNDV) + onlyOnceItems helper));
    Done (set_defaultValue c v).

(** The default value as the specification tabulates it, the arithmetic
    being that of uint64. *)
Definition spec_defaultValue
    (rowCount scaledTopN estimateNDV numTop onlyOnce sampleNDV S ratio : Z)
  : Z :=
  if rowCount <=? scaledTopN then 1
  else if estimateNDV <=? numTop then 1
  else if u64 (estimateNDV + onlyOnce) <=? sampleNDV then 1
  else u64 (rowCount - (S - onlyOnce) * ratio)
       / u64 (estimateNDV - sampleNDV + onlyOnce).

(** The heavy-hitter cutoff as the specification words it: with
    [k = min(numTop, sampleNDV)] the first [k] positions are taken, and
    the positions [i] of [[k, 2k)] are added while [extends i] holds. *)
Definition spec_positions (extends : nat -> bool) (sorted : list Z)
    (numTop : Z) : list nat :=
  let ndv := length sorted in
  let k := Z.to_nat (Z.min (Z.of_nat ndv) numTop) in
  seq 0 k ++ takeWhile extends (seq k (Nat.min ndv (2 * k) - k)).

(** The guard as the specification states it: [sorted[i]*3 >=
    sorted[k-1]*2] and [sorted[i] <> sorted[i-1]]. *)
Definition spec_extends (sorted : list Z) (numTop : Z) (i : nat) : bool :=
  let k := Z.to_nat (Z.min (Z.of_nat (length sorted)) numTop) in
  (u64 (sorted !!! (k - 1)%nat * 2) <=? u64 (sorted !!! i * 3))
  && negb (sorted !!! i =? sorted !!! (i - 1)%nat).

(** The guard of the loop: a position is added when
    [sorted[i]*3 >= sorted[k-1]*2] or when [sorted[i] = sorted[i-1]]. *)
Definition loop_extends (sorted : list Z) (numTop : Z) (i : nat) : bool :=
  let k := Z.to_nat (Z.min (Z.of_nat (length sorted)) numTop) in
  (u64 (sorted !!! (k - 1)%nat * 2) <=? u64 (sorted !!! i * 3))
  || (sorted !!! i =? sorted !!! (i - 1)%nat).

(** [lastVal] and [sumTopN] of a set of positions taken in order. *)
Definition spec_cutoff (positions : list nat) (sorted : list Z) : Z * Z :=
  let vals := (fun i : nat => sorted !!! i) <$> positions in
  (List.last vals 0, u64 (sumZ vals)).

Section WithHash.

(** [murmur3.Sum128]: the 128-bit hash of a key as two 64-bit halves. *)
Variable Sum128 : string -> Z * Z.

(** [updateBytesWithDelta]. *)
Definition updateBytesWithDelta (c : CMSketch) (bytes : option string)
    (n : Z) : exec CMSketch :=
  let '(h1, h2) := Sum128 (contents bytes) in
  let '(c, found) := updateTopNWithDelta c h1 h2 n bytes in
  if found then Done c
  else
    let c := set_count c (u64 (count c + n)) in
    tbl ← addRows (width c) h1 h2 (u32 n) 0 (table c);
    Done (set_table c tbl).

(** [InsertBytes]. *)
Definition InsertBytes (c : CMSketch) (bytes : option string) : exec CMSketch :=
  updateBytesWithDelta c bytes 1.

(** [QueryBytes]. *)
Definition QueryBytes (c : CMSketch) (d : option string) : exec Z :=
  let '(h1, h2) := Sum128 (contents d) in
  let '(count, ok) := queryTopN c h1 h2 d in
  if ok then Done count else queryHashValue c h1 h2.

(** [hack.Slice]: the bytes of a string as a byte slice.  Whether the
    slice of a given string is nil is left to this parameter. *)
Variable hack_Slice : string -> option string.

(** [calculateEstimateNDV]: the estimated number of distinct values of
    the population and the scale ratio. *)
Variable calculateEstimateNDV : topNHelper -> Z -> Z * Z.

(** The first loop of [buildCMSWithTopN],
    [for counterKey, cnt := range helper.counter], over the entries in
    the order [order] in which the map is visited; the state is the
    sketch, the slice [topN] and [helper.sumTopN]. *)
Fixpoint partitionCounters (enableTopN : bool) (lastVal ratio : Z)
    (order : list (string * Z)) (st : CMSketch * list dataCount.t * Z)
  : exec (CMSketch * list dataCount.t * Z) :=
  match order with
  | [] => Done st
  | (counterKey, cnt) :: rest =>
      let '(c, topN, sumTopN) := st in
      if enableTopN && (cnt >=? lastVal) then
        partitionCounters enableTopN lastVal ratio rest
          (c,
           topN ++ [dataCount.mk 0 0 (hack_Slice counterKey)
                      (u64 (cnt * ratio))],
           u64 (sumTopN + u64 (cnt * ratio)))
      else
        c ← updateBytesWithDelta c (hack_Slice counterKey) (u64 (cnt * ratio));
        partitionCounters enableTopN lastVal ratio rest (c, topN, sumTopN)
  end.

(** The second loop of [buildCMSWithTopN], [for i := range topN], filling
    the map [c.topN]. *)
Fixpoint fillTopN (topN : list dataCount.t) (m : gmap Z (list dataCount.t))
  : gmap Z (list dataCount.t) :=
  match topN with
  | [] => m
  | e :: rest =>
      match dataCount.data e with
      | None => fillTopN rest m
      | Some d =>
          let '(h1, h2) := Sum128 d in
          let vals := bucket m h1 in
          let vals := vals ++ [dataCount.mk h1 h2 (dataCount.data e)
                                 (dataCount.count e)] in
          fillTopN rest (<[h1 := vals]> m)
      end
  end.

(** [buildCMSWithTopN]: the sketch and the helper after the call. *)
Definition buildCMSWithTopN (order : list (string * Z)) (helper : topNHelper)
    (d w ratio : Z) : exec (CMSketch * topNHelper) :=
  c ← NewCMSketch d w;
  let enableTopN := sampleSize helper / topNThreshold <=? sumTopN helper in
  '(c, topN, sum) ← partitionCounters enableTopN (lastVal helper) ratio order
                       (c, [], 0);
  let helper := mkTopNHelper (sampleSize helper) (numTop helper)
                  (counter helper) (sorted helper) (onlyOnceItems helper)
                  sum (lastVal helper) in
  if negb enableTopN then Done (c, helper)
  else
    let helper := mkTopNHelper (sampleSize helper)
                    (u32 (Z.of_nat (length topN)))
                    (counter helper) (sorted helper) (onlyOnceItems helper)
                    (sumTopN helper) (lastVal helper) in
    Done (set_topN c (Some (fillTopN topN ∅)), helper).

(** [NewCMSketchWithTopN]; [order] is the order in which
    [buildCMSWithTopN] visits [helper.counter]. *)
Definition NewCMSketchWithTopN (order : list (string * Z)) (d w : Z)
    (data : list (option string)) (numTop rowCount : Z) : exec CMSketch :=
  helper ← newTopNHelper data numTop;
  let '(estimateNDV, ratio) := calculateEstimateNDV helper rowCount in
  '(c, helper) ← buildCMSWithTopN order helper d w ratio;
  calculateDefaultVal c helper estimateNDV ratio rowCount.

(** *** What the builder is specified to produce *)

(** Column of row [i] for a key: [(h1 + i*h2) mod w]. *)
Definition spec_column (w : Z) (key : string) (i : nat) : Z :=
  u64 ((Sum128 key).1 + Z.of_nat i * (Sum128 key).2) mod w.

(** [enableTopN := (S / topNThreshold) <= sumTopN]. *)
Definition spec_enableTopN (helper : topNHelper) : bool :=
  sampleSize helper / 10 <=? sumTopN helper.

(** A key of sample frequency [cnt] is a heavy hitter when
    [enableTopN] holds and [cnt >= lastVal]. *)
Definition spec_heavy (helper : topNHelper) (cnt : Z) : bool :=
  spec_enableTopN helper && (lastVal helper <=? cnt).

(** The mass [sum of cnt * ratio] of the entries selected by [sel]. *)
Definition massOf (entries : list (string * Z)) (ratio : Z)
    (sel : string -> Z -> bool) : Z :=
  sumZ ((fun kc : string * Z => kc.2 * ratio)
          <$> filter (fun kc : string * Z => sel kc.1 kc.2 = true) entries).

(** The mass of the sampled keys selected by [sel]. *)
Definition spec_mass (helper : topNHelper) (ratio : Z)
    (sel : string -> Z -> bool) : Z :=
  massOf (map_to_list (counter helper)) ratio sel.

(** The number of heavy hitters among the sampled keys. *)
Definition spec_topNSize (helper : topNHelper) : Z :=
  Z.of_nat (length (filter (fun kc : string * Z =>
                              spec_heavy helper kc.2 = true)
                      (map_to_list (counter helper)))).

(** A key is a member of the Top-N index when the bucket of its first
    hash holds an entry with its second hash and its bytes. *)
Definition topNMember (c : CMSketch) (d : option string) : Prop :=
  exists m e,
    topN c = Some m /\ e ∈ bucket m (Sum128 (contents d)).1 /\
    dataCount.h2 e = (Sum128 (contents d)).2 /\
    contents (dataCount.data e) = contents d.

(** The entries the first loop appends to [topN]. *)
Definition heavyEntries (en : bool) (lastVal ratio : Z)
    (order : list (string * Z)) : list dataCount.t :=
  (fun kc : string * Z =>
     dataCount.mk 0 0 (hack_Slice kc.1) (u64 (kc.2 * ratio)))
    <$> filter (fun kc : string * Z => en && (lastVal <=? kc.2) = true) order.

(** The entry [fillTopN] stores for an entry of the slice [topN]. *)
Definition rehashed (e : dataCount.t) : dataCount.t :=
  dataCount.mk (Sum128 (contents (dataCount.data e))).1
    (Sum128 (contents (dataCount.data e))).2
    (dataCount.data e) (dataCount.count e).

End WithHash.

End Sketch.
(** * The revision whose codec carries the Top-N entries *)

Module TopNCodec.

Module cmscount.
Record t : Type := mk
  { h1 : Z;
    h2 : Z;
    data : option string;
    count : Z }.
End cmscount.

Record CMSketch : Type := mkCMSketch
  { depth : Z;
    width : Z;
    count : Z;
    defaultValue : Z;
    table : list (list Z);
    topnindex : option (gmap Z (list cmscount.t)) }.

Definition set_count (c : CMSketch) (n : Z) : CMSketch :=
  mkCMSketch (depth c) (width c) n (defaultValue c) (table c) (topnindex c).
Definition set_table (c : CMSketch) (t : list (list Z)) : CMSketch :=
  mkCMSketch (depth c) (width c) (count c) (defaultValue c) t (topnindex c).
Definition set_defaultValue (c : CMSketch) (v : Z) : CMSketch :=
  mkCMSketch (depth c) (width c) (count c) v (table c) (topnindex c).
Definition set_topnindex (c : CMSketch)
    (m : option (gmap Z (list cmscount.t))) : CMSketch :=
  mkCMSketch (depth c) (width c) (count c) (defaultValue c) (table c) m.

Definition error_message (e : error) : string :=
  match e with
  | ErrTopNMerge => "CMSketch with top n does not supports merge"
  | _ => error_message e
  end.

(** [NewCMSketch(d, w)]. *)
Definition NewCMSketch (d w : Z) : exec CMSketch :=
  tbl ← make ([] : list Z) d;
  tbl ← makeRows w tbl;
  Done (mkCMSketch d w 0 0 tbl None).

Definition matches (h2 : Z) (d : option string) (cnt : cmscount.t) : bool :=
  (cmscount.h2 cnt =? h2) && bytes_Equal d (cmscount.data cnt).

(** The loop [for k := range cnt] of [queryAddTopN]: [cnt] shares its
    array with the slice stored in the map, so [cnt[k].count += count]
    updates the stored entry.  The result is the updated slice and the
    new count, or [None] when no entry matches. *)
Fixpoint queryAddLoop (h2 count : Z) (d : option string)
    (cnt : list cmscount.t) : option (list cmscount.t * Z) :=
  match cnt with
  | [] => None
  | e :: rest =>
      if matches h2 d e then
        let e' := cmscount.mk (cmscount.h1 e) (cmscount.h2 e)
                    (cmscount.data e) (u64 (cmscount.count e + count)) in
        Some (e' :: rest, cmscount.count e')
      else
        match queryAddLoop h2 count d rest with
        | Some (rest', v) => Some (e :: rest', v)
        | None => None
        end
  end.

(** [queryAddTopN]: the sketch after the call, the count and [ok]. *)
Definition queryAddTopN (c : CMSketch) (h1 h2 count : Z) (d : option string)
  : CMSketch * Z * bool :=
  match topnindex c with
  | None => (c, 0, false)
  | Some m =>
      match m !! h1 with
      | None => (c, 0, false)
      | Some cnt =>
          match queryAddLoop h2 count d cnt with
          | Some (cnt', v) =>
              (set_topnindex c (Some (<[h1 := cnt']> m)), v, true)
          | None => (c, 0, false)
          end
      end
  end.

(** [queryTopN]. *)
Definition queryTopN (c : CMSketch) (h1 h2 : Z) (d : option string)
  : CMSketch * Z * bool :=
  queryAddTopN c h1 h2 0 d.

(** [queryHashValue]. *)
Definition queryHashValue (c : CMSketch) (h1 h2 : Z) : exec Z :=
  vals ← make 0 (depth c);
  '(min, vals) ← queryRows (width c) (count c) h1 h2 0 (table c)
                   (MaxUint32, vals);
  let vals := sort_asc vals in
  lo ← index vals (Z.quot (depth c - 1) 2);
  hi ← index vals (Z.quot (depth c) 2);
  lo' ← index vals (Z.quot (depth c - 1) 2);
  let res := u32 (lo + u32 (hi - lo') / 2) in
  let res := if res >? min then min else res in
  q ← udiv (count c) (u64 (width c));
  Done (if (res <? u32 (2 * u32 q)) && (0 <? defaultValue c)
        then defaultValue c else res).

(** [MergeCMSketch]. *)
Definition MergeCMSketch (c rc : CMSketch) : exec (CMSketch * option error) :=
  if negb (depth c =? depth rc) || negb (width c =? width rc) then
    Done (c, Some ErrDimensions)
  else if bool_decide (topnindex c ≠ None)
          || bool_decide (topnindex rc ≠ None) then
    Done (c, Some ErrTopNMerge)
  else
    let c1 := set_count c (u64 (count c + count rc)) in
    tbl ← mergeRows (table c1) (table rc) 0;
    Done (set_table c1 tbl, None).

(** The loop [for j := range c.table[i] { Counters[j] = c.table[i][j] }]. *)
Fixpoint copyCells (row : list Z) (j : nat) (counters : list Z)
  : exec (list Z) :=
  match row with
  | [] => Done counters
  | x :: row' =>
      counters ← store counters (Z.of_nat j) x;
      copyCells row' (S j) counters
  end.

(** The loop [for i := range c.table] of [CMSketchToProto]. *)
Fixpoint protoRows (w : Z) (tbl : list (list Z)) (i : nat)
    (rows : list (option tipb.CMSketchRow))
  : exec (list (option tipb.CMSketchRow)) :=
  match tbl with
  | [] => Done rows
  | row :: tbl' =>
      counters ← make 0 w;
      rows ← store rows (Z.of_nat i) (Some (tipb.mkRow counters));
      counters ← copyCells row 0 counters;
      rows ← store rows (Z.of_nat i) (Some (tipb.mkRow counters));
      protoRows w tbl' (S i) rows
  end.

(** The loops [for _, v1 := range c.topnindex { for _, v := range v1 }]
    of [CMSketchToProto] over the entries in the order they are visited. *)
Fixpoint protoTopN (entries : list cmscount.t) (seq : Z)
    (topn : list (option tipb.CMSketchTopN))
  : exec (list (option tipb.CMSketchTopN)) :=
  match entries with
  | [] => Done topn
  | v :: entries' =>
      topn ← store topn seq
               (Some (tipb.mkTopN (cmscount.data v) (cmscount.count v)));
      protoTopN entries' (u32 (seq + 1)) topn
  end.

(** [CMSketchToProto]; [order] is the order in which the map
    [c.topnindex] is visited. *)
Definition CMSketchToProto (order : list (Z * list cmscount.t))
    (c : CMSketch) : exec tipb.CMSketch :=
  rows ← make (None : option tipb.CMSketchRow) (depth c);
  rows ← protoRows (width c) (table c) 0 rows;
  match topnindex c with
  | None => Done (tipb.mkCMSketch rows None)
  | Some m =>
      let topn := replicate (size m) None in
      topn ← protoTopN (concat order.*2) 0 topn;
      Done (tipb.mkCMSketch rows (Some topn))
  end.

(** The loop that checks that every [Data] field is filled: [true] when
    one is nil. *)
Fixpoint brokenTopN (topn : list (option tipb.CMSketchTopN)) : exec bool :=
  match topn with
  | [] => Done false
  | e :: topn' =>
      e ← deref e;
      match tipb.Data e with
      | None => Done true
      | Some _ => brokenTopN topn'
      end
  end.

(** *** Well-formed messages and sketches *)

(** A message as [Unmarshal] produces them, that [CMSketchFromProto]
    reads without a panic: no nil row, no nil Top-N entry, no row longer
    than row 0, dimensions that fit int32. *)
Record wfProto (p : tipb.CMSketch) : Prop := mk_wfProto
  { wfp_rows : Forall (fun r : option tipb.CMSketchRow =>
                         exists row, r = Some row /\
                           (length (tipb.Counters row) <= protoWidth p)%nat)
                 (tipb.Rows p);
    wfp_topn : Forall (fun e : option tipb.CMSketchTopN => is_Some e)
                 (default [] (tipb.TopN p));
    wfp_depth32 : Z.of_nat (length (tipb.Rows p)) < 2 ^ 31;
    wfp_width32 : Z.of_nat (protoWidth p) < 2 ^ 31 }.

(** The Top-N entries after [decodeCMSketch] has tried to re-attach the
    payloads: element-wise when the lengths match, not at all otherwise. *)
Definition attached (entries : list (option tipb.CMSketchTopN))
    (topn : list (option string)) : list (option tipb.CMSketchTopN) :=
  if (length topn =? length entries)%nat then
    zip_with (fun (d : option string) (e : option tipb.CMSketchTopN) =>
                Some (tipb.mkTopN d
                        (tipb.Count (default (tipb.mkTopN None 0) e))))
             topn entries
  else entries.

(** A message after [Marshal] and [Unmarshal]: an empty repeated field
    reads back as nil. *)
Definition unmarshalled (p : tipb.CMSketch) : tipb.CMSketch :=
  tipb.mkCMSketch (tipb.Rows p)
    (match tipb.TopN p with
     | Some [] => None
     | t => t
     end).

(** The message entry [CMSketchToProto] writes for an entry of the index. *)
Definition toProto (v : cmscount.t) : option tipb.CMSketchTopN :=
  Some (tipb.mkTopN (cmscount.data v) (cmscount.count v)).

(** Some entry of the list has no [Data]. *)
Definition missingData (topn : list (option tipb.CMSketchTopN)) : bool :=
  existsb (fun e : option tipb.CMSketchTopN =>
             match e with
             | Some e => bool_decide (tipb.Data e = None)
             | None => false
             end) topn.

(** What the Go types and the constructors guarantee of a sketch. *)
Record wf (c : CMSketch) : Prop := mk_wf
  { wf_depth : Z.of_nat (length (table c)) = depth c;
    wf_rows : shaped (width c) (table c);
    wf_cells : Forall (Forall is_u32) (table c);
    wf_count : is_u64 (count c);
    wf_defaultValue : is_u64 (defaultValue c);
    wf_depth32 : depth c < 2 ^ 31;
    wf_width32 : width c < 2 ^ 31 }.

Section WithHash.

(** [murmur3.Sum128]. *)
Variable Sum128 : string -> Z * Z.

(** The loop of [buildTopNMap]. *)
Fixpoint fillTopNMap (topn : list cmscount.t) (m : gmap Z (list cmscount.t))
  : gmap Z (list cmscount.t) :=
  match topn with
  | [] => m
  | e :: rest =>
      match cmscount.data e with
      | None => fillTopNMap rest m
      | Some d =>
          let '(h1, h2) := Sum128 d in
          let sl := default [] (m !! h1) in
          let sl := sl ++ [cmscount.mk h1 h2 (cmscount.data e)
                             (cmscount.count e)] in
          fillTopNMap rest (<[h1 := sl]> m)
      end
  end.

(** [buildTopNMap]. *)
Definition buildTopNMap (c : CMSketch) (topn : list cmscount.t) : CMSketch :=
  set_topnindex c (Some (fillTopNMap topn ∅)).

(** [InsertBytesN]. *)
Definition InsertBytesN (c : CMSketch) (bytes : option string) (n : Z)
  : exec CMSketch :=
  let '(h1, h2) := Sum128 (contents bytes) in
  let '(c, _, ok) := queryAddTopN c h1 h2 n bytes in
  if ok then Done c
  else
    let c := set_count c (u64 (count c + n)) in
    tbl ← addRows (width c) h1 h2 (u32 n) 0 (table c);
    Done (set_table c tbl).

(** [InsertBytes]. *)
Definition InsertBytes (c : CMSketch) (bytes : option string) : exec CMSketch :=
  InsertBytesN c bytes 1.

(** *** Building from a sample *)

(** [topNThreshold]. *)
Definition topNThreshold : Z := 10.

(** The loop [for i := range sl] of [BuildTopN] that looks for the sample
    [d] in its bucket: every entry that matches is counted once more.
    [sl] shares its array with the slice stored in the map. *)
Fixpoint countInBucket (h2 : Z) (d : option string) (sl : list cmscount.t)
  : list cmscount.t * bool :=
  match sl with
  | [] => ([], false)
  | e :: rest =>
      let '(rest', found) := countInBucket h2 d rest in
      if (cmscount.h2 e =? h2) && bytes_Equal (cmscount.data e) d then
        (cmscount.mk (cmscount.h1 e) (cmscount.h2 e) (cmscount.data e)
           (u64 (cmscount.count e + 1)) :: rest', true)
      else (e :: rest', found)
  end.

(** The body of the loop [for k := range data] of [BuildTopN]; the
    state is the map [counter] and [ndv]. *)
Definition countSample (st : gmap Z (list cmscount.t) * Z)
    (d : option string) : gmap Z (list cmscount.t) * Z :=
  let '(counter, ndv) := st in
  let '(h1, h2) := Sum128 (contents d) in
  let sl := default [] (counter !! h1) in
  let '(sl, found) := countInBucket h2 d sl in
  if found then (<[h1 := sl]> counter, ndv)
  else (<[h1 := sl ++ [cmscount.mk h1 h2 d 1]]> counter, u32 (ndv + 1)).

(** The loops [for _, sl := range counter { for i := range sl {
    sorted[seq] = sl[i].count; seq++ } }] over the entries in the order
    they are visited. *)
Fixpoint collectSorted (entries : list cmscount.t) (seq : Z)
    (sorted : list Z) : exec (list Z) :=
  match entries with
  | [] => Done sorted
  | e :: rest =>
      sorted ← store sorted seq (cmscount.count e);
      collectSorted rest (seq + 1) sorted
  end.

(** The loop [for i := n; i < ndv && i < n*2; i++] of [BuildTopN] from
    position [i] on, with the running [newTopN] and [realTopN].  It runs
    at most [ndv] times, which bounds [fuel]. *)
Fixpoint extendLoop (sorted : list Z) (ndv n topnCountThreshold : Z)
    (fuel : nat) (i newTopN realTopN : Z) : exec (Z * Z) :=
  match fuel with
  | O => Done (newTopN, realTopN)
  | S fuel =>
      if (i <? ndv) && (i <? u32 (n * 2)) then
        si ← index sorted i;
        if u64 (si * 2) <? topnCountThreshold then Done (newTopN, realTopN)
        else extendLoop sorted ndv n topnCountThreshold fuel
               (u32 (i + 1)) si i
      else Done (newTopN, realTopN)
  end.

(** The loops [for _, sl := range counter { for i := range sl }] of
    [BuildTopN] that move the entries to the slice [topn] or to the
    table; the state is the sketch, [topn], [topncount] and [seq]. *)
Fixpoint partitionTopN (realTopN topnCountThreshold ratio : Z)
    (entries : list cmscount.t) (st : CMSketch * list cmscount.t * Z * Z)
  : exec (CMSketch * list cmscount.t * Z * Z) :=
  match entries with
  | [] => Done st
  | e :: rest =>
      let '(c, topn, topncount, seq) := st in
      if (u32 seq <? realTopN)
         && (cmscount.count e >=? topnCountThreshold) then
        topn ← store topn seq e;
        topn ← store topn seq
                 (cmscount.mk (cmscount.h1 e) (cmscount.h2 e)
                    (cmscount.data e) (u64 (cmscount.count e * ratio)));
        partitionTopN realTopN topnCountThreshold ratio rest
          (c, topn, u64 (topncount + cmscount.count e), seq + 1)
      else
        c ← InsertBytesN c (cmscount.data e) (u64 (cmscount.count e * ratio));
        partitionTopN realTopN topnCountThreshold ratio rest
          (c, topn, topncount, seq)
  end.

(** The loop [for i := range topn { c.InsertBytesN(topn[i].data,
    topn[i].count*ratio) }]. *)
Fixpoint insertTopN (ratio : Z) (topn : list cmscount.t) (c : CMSketch)
  : exec CMSketch :=
  match topn with
  | [] => Done c
  | e :: rest =>
      c ← InsertBytesN c (cmscount.data e) (u64 (cmscount.count e * ratio));
      insertTopN ratio rest c
  end.

(** [BuildTopN]; [order1] and [order2] are the orders in which the two
    loops over the map [counter] visit it. *)
Definition BuildTopN (order1 order2 : list (Z * list cmscount.t))
    (c : CMSketch) (data : list (option string)) (n topnThreshold total : Z)
  : exec CMSketch :=
  let sampleSize := u64 (Z.of_nat (length data)) in
  ratio ← udiv total (u64 sampleSize);
  let ratio := if total <? sampleSize then 1 else ratio in
  let '(counter, ndv) := foldl countSample (∅, 0) data in
  sorted ← make 0 ndv;
  sorted ← collectSorted (concat order1.*2) 0 sorted;
  let sorted := sort_desc sorted in
  let n := if n >? ndv then ndv else n in
  topnCountThreshold ← index sorted (u32 (n - 1));
  '(newTopN, realTopN) ← extendLoop sorted ndv n topnCountThreshold
                            (length sorted) n topnCountThreshold n;
  let topnCountThreshold := newTopN in
  topn ← make (cmscount.mk 0 0 None 0) realTopN;
  '(c, topn, topncount, _) ← partitionTopN realTopN topnCountThreshold ratio
                               (concat order2.*2) (c, topn, 0, 0);
  q ← udiv sampleSize (u64 topnThreshold);
  c ← (if q >? topncount then insertTopN ratio topn c
       else Done (buildTopNMap c topn));
  let countWithoutTopN := u64 (total - u64 (topncount * ratio)) in
  if total <? u64 (topncount * ratio) then Done (set_defaultValue c 1)
  else
    let ndvWithoutTopN := u32 (ndv - realTopN) in
    let sampleSizeWithoutTopN := u64 (sampleSize - topncount) in
    if sampleSizeWithoutTopN =? 0 then Done (set_defaultValue c 1)
    else
      estimateNDV ← udiv (u64 (u64 ndvWithoutTopN * countWithoutTopN))
                      sampleSizeWithoutTopN;
      if estimateNDV =? 0 then Done (set_defaultValue c 1)
      else
        v ← udiv countWithoutTopN estimateNDV;
        Done (set_defaultValue c v).

(** The map [counter] that [BuildTopN] builds from the sample. *)
Definition sampleCounter (data : list (option string))
  : gmap Z (list cmscount.t) :=
  (foldl countSample (∅, 0) data).1.

(** [NewCMSketchWithTopN]. *)
Definition NewCMSketchWithTopN (order1 order2 : list (Z * list cmscount.t))
    (d w : Z) (data : list (option string)) (n total : Z) : exec CMSketch :=
  tbl ← make ([] : list Z) d;
  tbl ← makeRows w tbl;
  let c := mkCMSketch d w 0 0 tbl None in
  BuildTopN order1 order2 c data n topNThreshold total.

(** [QueryBytes].  The lookup goes through [queryAddTopN] with a delta
    of 0, which stores back the count it read. *)
Definition QueryBytes (c : CMSketch) (d : option string) : exec Z :=
  let '(h1, h2) := Sum128 (contents d) in
  let '(_, count, ok) := queryTopN c h1 h2 d in
  if ok then Done count else queryHashValue c h1 h2.

(** The loop [for p, v := range protoSketch.TopN] that hashes the entries. *)
Fixpoint hashTopN (topn : list (option tipb.CMSketchTopN))
  : exec (list cmscount.t) :=
  match topn with
  | [] => Done []
  | v :: topn' =>
      v ← deref v;
      let '(h1, h2) := Sum128 (contents (tipb.Data v)) in
      rest ← hashTopN topn';
      Done (cmscount.mk h1 h2 (tipb.Data v) (tipb.Count v) :: rest)
  end.

(** [CMSketchFromProto]. *)
Definition CMSketchFromProto (protoSketch : option tipb.CMSketch)
  : exec (option CMSketch * option error) :=
  match protoSketch with
  | None => Done (None, None)
  | Some p =>
      row0 ← index (tipb.Rows p) 0;
      row0 ← deref row0;
      c ← NewCMSketch (i32 (Z.of_nat (length (tipb.Rows p))))
            (i32 (Z.of_nat (length (tipb.Counters row0))));
      '(tbl, cnt) ← fromRows (tipb.Rows p) 0 (table c, count c);
      let c := set_count (set_table c tbl) cnt in
      match tipb.TopN p with
      | None => Done (Some c, None)
      | Some topn =>
          broken ← brokenTopN topn;
          if broken : bool then Done (None, Some ErrBrokenData)
          else
            let c := set_topnindex c (Some ∅) in
            topn ← hashTopN topn;
            Done (Some (buildTopNMap c topn), None)
      end
  end.

(** The loop of [encodeCMSketch] that moves the [Data] fields out of the
    message. *)
Fixpoint stripTopN (topn : list (option tipb.CMSketchTopN))
  : exec (list (option tipb.CMSketchTopN) * list (option string)) :=
  match topn with
  | [] => Done ([], [])
  | e :: topn' =>
      e ← deref e;
      '(es, ds) ← stripTopN topn';
      Done (Some (tipb.mkTopN None (tipb.Count e)) :: es, tipb.Data e :: ds)
  end.

(** The loop [for i := range topn { p.TopN[i].Data = topn[i] }] of
    [decodeCMSketch]. *)
Fixpoint attachTopN (topn : list (option string)) (i : nat)
    (entries : list (option tipb.CMSketchTopN))
  : exec (list (option tipb.CMSketchTopN)) :=
  match topn with
  | [] => Done entries
  | d :: topn' =>
      e ← index entries (Z.of_nat i);
      e ← deref e;
      entries ← store entries (Z.of_nat i)
                  (Some (tipb.mkTopN d (tipb.Count e)));
      attachTopN topn' (S i) entries
  end.

Section WithWire.

(** The bytes of a marshalled message. *)
Variable blob : Type.

(** [p.Marshal()]: the bytes, nil or not, and the error. *)
Variable Marshal : tipb.CMSketch -> option blob * option error.

(** [p.Unmarshal(data)]: the message read and the error. *)
Variable Unmarshal : blob -> tipb.CMSketch * option error.

(** [encodeCMSketch]: the bytes, the Top-N payloads and the error. *)
Definition encodeCMSketch (order : list (Z * list cmscount.t))
    (c : option CMSketch)
  : exec (option blob * list (option string) * option error) :=
  match c with
  | None => Done (None, [], None)
  | Some c =>
      if count c =? 0 then Done (None, [], None)
      else
        p ← CMSketchToProto order c;
        '(p, topn) ←
          match tipb.TopN p with
          | None => Done (p, [])
          | Some entries =>
              '(entries, topn) ← stripTopN entries;
              Done (tipb.mkCMSketch (tipb.Rows p) (Some entries), topn)
          end;
        let '(r, err) := Marshal p in
        Done (r, topn, err)
  end.

(** [decodeCMSketch]. *)
Definition decodeCMSketch (data : option blob) (topn : list (option string))
  : exec (option CMSketch * option error) :=
  match data with
  | None => Done (None, None)
  | Some data =>
      let '(p, err) := Unmarshal data in
      match err with
      | Some e => Done (None, Some e)
      | None =>
          if (length (tipb.Rows p) =? 0)%nat then Done (None, None)
          else
            p ← (if (length topn =? tipb.lenTopN p)%nat then
                    entries ← attachTopN topn 0
                                (default [] (tipb.TopN p));
                    Done (tipb.mkCMSketch (tipb.Rows p)
                            (match tipb.TopN p with
                             | None => None
                             | Some _ => Some entries
                             end))
                  else Done p);
            CMSketchFromProto (Some p)
      end
  end.

End WithWire.

(** The entry [CMSketchFromProto] builds from an entry of the message. *)
Definition hashEntry (e : option tipb.CMSketchTopN) : cmscount.t :=
  let v := default (tipb.mkTopN None 0) e in
  cmscount.mk (Sum128 (contents (tipb.Data v))).1
    (Sum128 (contents (tipb.Data v))).2 (tipb.Data v) (tipb.Count v).

(** A key is a member of the Top-N index when the bucket of its first
    hash holds an entry with its second hash and its bytes. *)
Definition topNMember (c : CMSketch) (d : option string) : Prop :=
  exists m e,
    topnindex c = Some m /\
    e ∈ default [] (m !! (Sum128 (contents d)).1) /\
    cmscount.h2 e = (Sum128 (contents d)).2 /\
    contents (cmscount.data e) = contents d.

(** A bucket with one entry, stored under its first hash, with the hash
    of its bytes, which are not nil. *)
Definition plainBucket (kv : Z * list cmscount.t) : Prop :=
  exists d cnt,
    kv.2 = [cmscount.mk (Sum128 d).1 (Sum128 d).2 (Some d) cnt] /\
    kv.1 = (Sum128 d).1.

(** A Top-N index as [buildTopNMap] leaves it when no two keys share
    their first hash: every bucket holds one entry, stored under its
    first hash, with the hash of its bytes, which are not nil. *)
Definition plainIndex (m : gmap Z (list cmscount.t)) : Prop :=
  forall (k : Z) (v : list cmscount.t), m !! k = Some v -> plainBucket (k, v).

End WithHash.

(** The loop [for j := range c.table[i]] of [Equal]: [false] at the
    first cell that differs from [rc.table[i][j]]. *)
Fixpoint equalCells (row : list Z) (rtable : list (list Z)) (i j : nat)
  : exec bool :=
  match row with
  | [] => Done true
  | x :: row' =>
      rrow ← index rtable (Z.of_nat i);
      y ← index rrow (Z.of_nat j);
      if negb (x =? y) then Done false else equalCells row' rtable i (S j)
  end.

(** The loop [for i := range c.table] of [Equal]. *)
Fixpoint equalRows (tbl rtable : list (list Z)) (i : nat) : exec bool :=
  match tbl with
  | [] => Done true
  | row :: tbl' =>
      b ← equalCells row rtable i 0;
      if b : bool then equalRows tbl' rtable (S i) else Done false
  end.

(** [hasMatch] for the entry [e] in the slice [v2]. *)
Definition hasMatch (e : cmscount.t) (v2 : list cmscount.t) : bool :=
  existsb (fun e2 : cmscount.t =>
             (cmscount.h2 e =? cmscount.h2 e2)
             && bytes_Equal (cmscount.data e) (cmscount.data e2)
             && (cmscount.count e =? cmscount.count e2))
          v2.

(** [len(m)] of a map that may be nil. *)
Definition lenIndex (m : option (gmap Z (list cmscount.t))) : nat :=
  match m with
  | None => 0%nat
  | Some m => size m
  end.

(** The loop [for k, v := range c.topnindex] of [Equal].  It returns
    [false] at the first bucket that fails and has no other effect, so
    its result does not depend on the order of the visit. *)
Definition equalIndex (m : gmap Z (list cmscount.t))
    (rm : option (gmap Z (list cmscount.t))) : bool :=
  forallb (fun kv : Z * list cmscount.t =>
             match default ∅ rm !! kv.1 with
             | None => false
             | Some v2 =>
                 (length kv.2 =? length v2)%nat
                 && forallb (fun e => hasMatch e v2) kv.2
             end)
          (map_to_list m).

(** [Equal]. *)
Definition Equal (c rc : option CMSketch) : exec bool :=
  match c, rc with
  | None, None => Done true
  | None, Some _ | Some _, None => Done false
  | Some c, Some rc =>
      if negb (width c =? width rc) || negb (depth c =? depth rc)
         || negb (count c =? count rc)
         || negb (defaultValue c =? defaultValue rc)
      then Done false
      else
        b ← equalRows (table c) (table rc) 0;
        if negb b then Done false
        else if (0 <? lenIndex (topnindex rc))%nat
                || (0 <? lenIndex (topnindex c))%nat then
          if negb (lenIndex (topnindex rc) =? lenIndex (topnindex c))%nat
          then Done false
          else Done (equalIndex (default ∅ (topnindex c)) (topnindex rc))
        else Done true
  end.

End TopNCodec.

(** * The codec, [Equal] and [Copy] of the revision built around
    [topNHelper]

    The message of this revision carries the rows only.  The loops over
    the table are those of the codec revision, line for line. *)

Module SketchCodec.
Import Sketch.

(** [CMSketchToProto]. *)
Definition CMSketchToProto (c : CMSketch) : exec tipb.CMSketch :=
  rows ← make (None : option tipb.CMSketchRow) (depth c);
  rows ← TopNCodec.protoRows (width c) (table c) 0 rows;
  Done (tipb.mkCMSketch rows None).

(** [TotalCount]. *)
Definition TotalCount (c : CMSketch) : Z := count c.

(** [Equal]: the dimensions, the count and the cells; the default value
    and the Top-N index are not looked at. *)
Definition Equal (c rc : option CMSketch) : exec bool :=
  match c, rc with
  | None, None => Done true
  | None, Some _ | Some _, None => Done false
  | Some c, Some rc =>
      if negb (width c =? width rc) || negb (depth c =? depth rc)
         || negb (count c =? count rc)
      then Done false
      else TopNCodec.equalRows (table c) (table rc) 0
  end.

(** The built-in [copy(dst, src)] on slices: the first
    [min(len(dst), len(src))] elements of [src] are written to [dst]. *)
Definition copy (dst src : list Z) : list Z :=
  take (length dst) src ++ drop (length src) dst.

(** The loop [for i := range tbl { tbl[i] = make([]uint32, c.width);
    copy(tbl[i], c.table[i]) }] of [Copy] from row [i] on. *)
Fixpoint copyRows (w : Z) (table : list (list Z)) (i : nat)
    (tbl : list (list Z)) : exec (list (list Z)) :=
  match tbl with
  | [] => Done []
  | _ :: tbl' =>
      row ← make 0 w;
      src ← index table (Z.of_nat i);
      rows ← copyRows w table (S i) tbl';
      Done (copy row src :: rows)
  end.

(** [Copy]: the new sketch has no Top-N index and no default value. *)
Definition Copy (c : option CMSketch) : exec (option CMSketch) :=
  match c with
  | None => Done None
  | Some c =>
      tbl ← make ([] : list Z) (depth c);
      tbl ← copyRows (width c) (table c) 0 tbl;
      Done (Some (mkCMSketch (depth c) (width c) (count c) 0 tbl None))
  end.

Section WithWire.

(** The bytes of a marshalled message. *)
Variable blob : Type.

(** [p.Marshal()]: the bytes, nil or not, and the error. *)
Variable Marshal : tipb.CMSketch -> option blob * option error.

(** [p.Unmarshal(data)]: the message read and the error. *)
Variable Unmarshal : blob -> tipb.CMSketch * option error.

(** [EncodeCMSketch]. *)
Definition EncodeCMSketch (c : option CMSketch)
  : exec (option blob * option error) :=
  match c with
  | None => Done (None, None)
  | Some c =>
      if count c =? 0 then Done (None, None)
      else p ← CMSketchToProto c; Done (Marshal p)
  end.

(** [DecodeCMSketch]. *)
Definition DecodeCMSketch (data : option blob)
  : exec (option CMSketch * option error) :=
  match data with
  | None => Done (None, None)
  | Some data =>
      let '(p, err) := Unmarshal data in
      match err with
      | Some e => Done (None, Some e)
      | None =>
          if (length (tipb.Rows p) =? 0)%nat then Done (None, None)
          else c ← CMSketchFromProto (Some p); Done (c, None)
      end
  end.

End WithWire.

End SketchCodec.

(** * [Copy] of the revision whose codec carries the Top-N entries *)

Module TopNCodecCopy.
Import TopNCodec.

(** The entry [Copy] makes of an entry:
    [cmscount{v[i].h1, v[i].h2, make([]byte, len(v[i].data)), v[i].count}]
    with the bytes copied; the new slice is never nil. *)
Definition copyEntry (e : cmscount.t) : cmscount.t :=
  cmscount.mk (cmscount.h1 e) (cmscount.h2 e)
    (Some (contents (cmscount.data e))) (cmscount.count e).

(** The loop [for i := range v] that fills [newSlice]. *)
Definition copyBucket (v : list cmscount.t) : list cmscount.t :=
  copyEntry <$> v.

(** The loop [for k, v := range c.topnindex { ...; ntopn[k] = newSlice }]
    over the buckets in the order they are visited. *)
Definition copyIndex (order : list (Z * list cmscount.t))
  : gmap Z (list cmscount.t) :=
  foldl (fun (ntopn : gmap Z (list cmscount.t)) (kv : Z * list cmscount.t) =>
           <[kv.1 := copyBucket kv.2]> ntopn)
        ∅ order.

(** [Copy]; [order] is the order in which the map [c.topnindex] is
    visited.  The default value is not copied. *)
Definition Copy (order : list (Z * list cmscount.t)) (c : option CMSketch)
  : exec (option CMSketch) :=
  match c with
  | None => Done None
  | Some c =>
      tbl ← make ([] : list Z) (depth c);
      tbl ← SketchCodec.copyRows (width c) (table c) 0 tbl;
      let ntopn := match topnindex c with
                   | None => None
                   | Some _ => Some (copyIndex order)
                   end in
      Done (Some (mkCMSketch (depth c) (width c) (count c) 0 tbl ntopn))
  end.

(** The stored counts of a Top-N index are uint64. *)
Definition counts64 (m : gmap Z (list cmscount.t)) : Prop :=
  forall (k : Z) (v : list cmscount.t) (e : cmscount.t),
    m !! k = Some v -> e ∈ v -> is_u64 (cmscount.count e).

Section WithHash.

(** [murmur3.Sum128]. *)
Variable Sum128 : string -> Z * Z.

(** The entry [buildTopNMap] stores for an entry of the slice [topn]:
    [cmscount{h1, h2, topn[i].data, topn[i].count}] with the hash of its
    bytes. *)
Definition rehashed (e : cmscount.t) : cmscount.t :=
  cmscount.mk (Sum128 (contents (cmscount.data e))).1
    (Sum128 (contents (cmscount.data e))).2
    (cmscount.data e) (cmscount.count e).

End WithHash.

End TopNCodecCopy.

(** * The analyze executor (executor/analyze.go)

    The parts of the executor that build, read and merge sketches.
    [statistics.Histogram], [statistics.AnalyzeJob], the histogram
    message and the functions on them are declared in files that are not
    part of this development: they are parameters, and whatever they do
    besides returning (a panic, a log line) is outside this model.  The
    sketches are those of the revision built around [topNHelper], whose
    [CMSketchFromProto] returns one result as the executor expects. *)

Module Analyze.
Import Sketch.

Definition defaultCMSketchDepth : Z := 5.
Definition defaultCMSketchWidth : Z := 2048.

(** The conversion to int64 of a sum of int64 values. *)
Definition i64 (x : Z) : Z := (x + 2 ^ 63) mod 2 ^ 64 - 2 ^ 63.

Section WithStatistics.

Variable Histogram : Type.
Variable protoHistogram : Type.
Variable AnalyzeJob : Type.
Variable ColumnInfo : Type.
Variable IndexInfo : Type.

(** The bytes of a response. *)
Variable blob : Type.

(** [&statistics.Histogram{}]. *)
Variable emptyHistogram : Histogram.

(** [statistics.HistogramFromProto(resp.Hist)]. *)
Variable HistogramFromProto : option protoHistogram -> option Histogram.

(** [int64(respHist.TotalRowCount())]. *)
Variable TotalRowCount : option Histogram -> Z.

(** [statistics.MergeHistograms(sc, lh, rh, bucketSize)]. *)
Variable MergeHistograms :
  option Histogram -> option Histogram -> Z -> option Histogram * option error.

(** [job.Update(rowCount)]. *)
Variable Update : AnalyzeJob -> Z -> AnalyzeJob.

(** [hist.NullCount], [hist.Len()] and [hist.Buckets[i].Count]. *)
Variable NullCount : Histogram -> Z.
Variable Len : Histogram -> Z.
Variable BucketCount : Histogram -> Z -> exec Z.

(** [tipb.AnalyzeIndexResp]. *)
Record AnalyzeIndexResp : Type := mkAnalyzeIndexResp
  { Hist : option protoHistogram;
    Cms : option tipb.CMSketch }.

(** [resp.Unmarshal(data)]: the response read and the error. *)
Variable Unmarshal : blob -> AnalyzeIndexResp * option error.

(** [cms.MergeCMSketch(statistics.CMSketchFromProto(resp.Cms))]: the
    argument is evaluated, then the method reads its receiver and its
    argument.  The result is the receiver after the call and the
    error. *)
Definition mergeResponse (cms : option CMSketch) (p : tipb.CMSketch)
  : exec (option CMSketch * option error) :=
  rc ← CMSketchFromProto (Some p);
  c ← deref cms;
  rc ← deref rc;
  '(c, err) ← MergeCMSketch c rc;
  Done (Some c, err).

(** The loop of [buildStatsFromResult].  [result] holds what the
    successive calls of [result.NextRaw] return, the data and the error;
    past its end [NextRaw] returns no data.  The state is [hist], [cms]
    and the job. *)
Fixpoint buildStatsLoop (needCMS : bool) (maxNumBuckets : Z)
    (result : list (option blob * option error))
    (hist : option Histogram) (cms : option CMSketch) (job : AnalyzeJob)
  : exec (option Histogram * option CMSketch * option error * AnalyzeJob) :=
  match result with
  | [] => Done (hist, cms, None, job)
  | (data, err) :: result' =>
      match err, data with
      | Some e, _ => Done (None, None, Some e, job)
      | None, None => Done (hist, cms, None, job)
      | None, Some data =>
          let '(resp, err) := Unmarshal data in
          match err with
          | Some e => Done (None, None, Some e, job)
          | None =>
              let respHist := HistogramFromProto (Hist resp) in
              let job := Update job (TotalRowCount respHist) in
              let '(hist, err) :=
                MergeHistograms hist respHist maxNumBuckets in
              match err with
              | Some e => Done (None, None, Some e, job)
              | None =>
                  if needCMS then
                    match Cms resp with
                    | None =>
                        buildStatsLoop needCMS maxNumBuckets result'
                          hist cms job
                    | Some p =>
                        '(cms, err) ← mergeResponse cms p;
                        match err with
                        | Some e => Done (None, None, Some e, job)
                        | None =>
                            buildStatsLoop needCMS maxNumBuckets result'
                              hist cms job
                        end
                    end
                  else
                    buildStatsLoop needCMS maxNumBuckets result' hist cms job
              end
          end
      end
  end.

(** [buildStatsFromResult]: the histogram, the sketch, the error and the
    job after the call. *)
Definition buildStatsFromResult (maxNumBuckets : Z) (job : AnalyzeJob)
    (result : list (option blob * option error)) (needCMS : bool)
  : exec (option Histogram * option CMSketch * option error * AnalyzeJob) :=
  let hist := Some emptyHistogram in
  cms ← (if needCMS then
            c ← NewCMSketch defaultCMSketchDepth defaultCMSketchWidth;
            Done (Some c)
          else Done None);
  buildStatsLoop needCMS maxNumBuckets result hist cms job.

(** [AnalyzeFastExec], the fields that [analyzeFastExec] reads. *)
Record AnalyzeFastExec : Type := mkAnalyzeFastExec
  { PhysicalTableID : Z;
    pkInfo : option ColumnInfo;
    colsInfo : list ColumnInfo;
    idxsInfo : list IndexInfo }.

(** [analyzeResult]. *)
Record analyzeResult : Type := mkAnalyzeResult
  { resPhysicalTableID : Z;
    resHist : list (option Histogram);
    resCms : list (option CMSketch);
    resCount : Z;
    resIsIndex : Z;
    resErr : option error;
    resJob : option AnalyzeJob }.

(** [(e *AnalyzeFastExec) buildStats]: "TODO: do fast analyze". *)
Definition buildStats (e : AnalyzeFastExec)
  : list (option Histogram) * list (option CMSketch) * option error :=
  ([], [], None).

(** [count := hist.NullCount; if hist.Len() > 0 { count +=
    hist.Buckets[hist.Len()-1].Count }]. *)
Definition totalCount (hist : Histogram) : exec Z :=
  let count := NullCount hist in
  if Len hist >? 0 then
    b ← BucketCount hist (Len hist - 1); Done (i64 (count + b))
  else Done count.

(** The loop [for i := hasPKInfo + len(exec.colsInfo); i < len(hists);
    i++] of [analyzeFastExec]; it runs at most [len(hists)] times, which
    bounds [fuel]. *)
Fixpoint indexResults (tid : Z) (hists : list (option Histogram))
    (cms : list (option CMSketch)) (fuel : nat) (i : Z)
    (results : list analyzeResult) : exec (list analyzeResult) :=
  match fuel with
  | O => Done results
  | S fuel =>
      if i <? Z.of_nat (length hists) then
        h ← index hists i;
        c ← index cms i;
        hist ← deref h;
        count ← totalCount hist;
        indexResults tid hists cms fuel (i + 1)
          (results ++ [mkAnalyzeResult tid [h] [c] count 1 None None])
      else Done results
  end.

(** [s[:n]] on a slice, panicking out of range; the capacity of the
    slice is taken to be its length. *)
Definition slice_to {A} (l : list A) (n : Z) : exec (list A) :=
  if (n <? 0) || (Z.of_nat (length l) <? n) then Crash IndexOutOfRange
  else Done (take (Z.to_nat n) l).

(** [analyzeFastExec]. *)
Definition analyzeFastExec (e : AnalyzeFastExec) : exec (list analyzeResult) :=
  let '(hists, cms, err) := buildStats e in
  match err with
  | Some err => Done [mkAnalyzeResult 0 [] [] 0 0 (Some err) None]
  | None =>
      let hasIdxInfo := Z.of_nat (length (idxsInfo e)) in
      let hasPKInfo := match pkInfo e with Some _ => 1 | None => 0 end in
      let first := hasPKInfo + Z.of_nat (length (colsInfo e)) in
      results ← (if hasIdxInfo >? 0 then
                    indexResults (PhysicalTableID e) hists cms
                      (length hists) first []
                  else Done []);
      h ← index hists 0;
      colHists ← slice_to hists first;
      colCms ← slice_to cms first;
      hist ← deref h;
      count ← totalCount hist;
      Done (results
            ++ [mkAnalyzeResult (PhysicalTableID e) colHists colCms count 0
                  None None])
  end.

(** A sketch message as the responses carry them when the store built
    the sketch with the dimensions of the executor: 5 rows, none nil,
    of at most 2048 uint32 counters, the first of 2048. *)
Record fullMessage (p : tipb.CMSketch) : Prop := mk_fullMessage
  { fm_rows : Forall (fun r : option tipb.CMSketchRow =>
                        exists row, r = Some row /\
                          (length (tipb.Counters row) <= protoWidth p)%nat /\
                          Forall is_u32 (tipb.Counters row))
                (tipb.Rows p);
    fm_depth : Z.of_nat (length (tipb.Rows p)) = defaultCMSketchDepth;
    fm_width : Z.of_nat (protoWidth p) = defaultCMSketchWidth }.

(** The count and the cells that [CMSketchFromProto] reads in a
    message. *)
Definition messageCount (p : tipb.CMSketch) : Z := rowsCount (tipb.Rows p) 0.
Definition messageCell (p : tipb.CMSketch) (i j : nat) : Z :=
  default 0 (cellAt (padded (protoWidth p) <$> tipb.Rows p) i j).

End WithStatistics.

End Analyze.

(** * Concrete inputs *)

Module Examples.

(** A concrete hash standing in for [murmur3.Sum128] where an input has
    to be evaluated; the theorems hold for every hash. *)
Definition Sum128 (s : string) : Z * Z :=
  (sumZ ((fun a : ascii => Z.of_nat (nat_of_ascii a)) <$> list_ascii_of_string s),
   2 * Z.of_nat (String.length s) + 1).

(** [hack.Slice] returning a slice that is never nil. *)
Definition hack_Slice (s : string) : option string := Some s.

(** [hack.Slice] as it shares the bytes of the string: the slice of the
    empty string is nil. *)
Definition hack_Slice_nil (s : string) : option string :=
  match s with
  | EmptyString => None
  | _ => Some s
  end.

(** A scale ratio [max(1, rowCount / S)] and an estimated number of
    distinct values of twice the sampled one. *)
Definition calculateEstimateNDV (helper : Sketch.topNHelper) (rowCount : Z)
  : Z * Z :=
  (2 * Z.of_nat (length (Sketch.sorted helper)),
   Z.max 1 (rowCount / Sketch.sampleSize helper)).

(** A wire that keeps the message as it is unmarshalled. *)
Definition Marshal (p : tipb.CMSketch) : option tipb.CMSketch * option error :=
  (Some (TopNCodec.unmarshalled p), None).
Definition Unmarshal (b : tipb.CMSketch) : tipb.CMSketch * option error :=
  (b, None).

(** A sample: "a" six times, "b" three times, "c", "d" and "ee" once. *)
Definition sample : list (option string) :=
  replicate 6 (Some "a"%string) ++ replicate 3 (Some "b"%string)
  ++ [Some "c"%string; Some "d"%string; Some "ee"%string].

(** The same sample with the empty key in the place of "a". *)
Definition emptyHeavy : list (option string) :=
  replicate 6 (Some EmptyString) ++ replicate 3 (Some "b"%string)
  ++ [Some "c"%string; Some "d"%string; Some "ee"%string].

(** Two keys sampled three times each. *)
Definition ties : list (option string) :=
  replicate 3 (Some "a"%string) ++ replicate 3 (Some "b"%string).

(** A plain sketch of the first revision: 2 rows of 4 cells. *)
Definition plain : Sketch.CMSketch :=
  Sketch.mkCMSketch 2 4 7 0 [[1; 5; 1; 0]; [5; 1; 0; 1]] None.

(** Another one, with a cell at the largest uint32. *)
Definition plain' : Sketch.CMSketch :=
  Sketch.mkCMSketch 2 4 7 0 [[7; 0; 0; 0]; [0; 4294967295; 8; 0]] None.

(** The same two sketches in the codec revision. *)
Definition plainC : TopNCodec.CMSketch :=
  TopNCodec.mkCMSketch 2 4 7 0 [[1; 5; 1; 0]; [5; 1; 0; 1]] None.
Definition plainC' : TopNCodec.CMSketch :=
  TopNCodec.mkCMSketch 2 4 7 0 [[7; 0; 0; 0]; [0; 4294967295; 8; 0]] None.

(** What [newTopNHelper] returns on [sample] with [numTop = 1]. *)
Definition helper : Sketch.topNHelper :=
  Sketch.mkTopNHelper 12 1 (Sketch.countSamples sample) [6; 3; 1; 1; 1] 3 6 6.

(** A sketch of the codec revision with two Top-N entries. *)
Definition indexed : TopNCodec.CMSketch :=
  TopNCodec.mkCMSketch 2 3 5 0 [[1; 4; 0]; [2; 0; 3]]
    (Some (TopNCodec.fillTopNMap Sum128
             [TopNCodec.cmscount.mk 0 0 (Some "a"%string) 12;
              TopNCodec.cmscount.mk 0 0 (Some "bb"%string) 7] ∅)).

(** The same table with a default value, as a build from a sample
    leaves it. *)
Definition defaulted : TopNCodec.CMSketch :=
  TopNCodec.mkCMSketch 2 3 5 1 [[1; 4; 0]; [2; 0; 3]] None.

(** A message of two rows whose sums differ. *)
Definition unevenRows : tipb.CMSketch :=
  tipb.mkCMSketch [Some (tipb.mkRow [1; 0]); Some (tipb.mkRow [0; 2])] None.

(** A message without rows that declares a Top-N entry without data. *)
Definition noRows : tipb.CMSketch :=
  tipb.mkCMSketch [] (Some [Some (tipb.mkTopN None 1)]).

(** A message with rows that declares a Top-N entry without data. *)
Definition stripped : tipb.CMSketch :=
  tipb.mkCMSketch [Some (tipb.mkRow [1; 0]); Some (tipb.mkRow [0; 1])]
    (Some [Some (tipb.mkTopN None 9)]).

(** Twenty keys sampled once each. *)
Definition singles : list (option string) :=
  (fun s : string => Some s)
    <$> ["a"; "b"; "c"; "d"; "e"; "f"; "g"; "h"; "i"; "j";
         "k"; "l"; "m"; "n"; "o"; "p"; "q"; "r"; "s"; "t"]%string.

(** "a" four times, "b" twice, "c" once. *)
Definition skewed : list (option string) :=
  replicate 4 (Some "a"%string) ++ replicate 2 (Some "b"%string)
  ++ [Some "c"%string].

(** The order in which [map_to_list] lists the map [counter] that
    [BuildTopN] builds from a sample. *)
Definition visit (data : list (option string))
  : list (Z * list TopNCodec.cmscount.t) :=
  map_to_list (TopNCodec.sampleCounter Sum128 data).

(** A sketch message of the executor's dimensions, every counter 1. *)
Definition ones : tipb.CMSketch :=
  tipb.mkCMSketch (replicate 5 (Some (tipb.mkRow (replicate 2048 1)))) None.

(** Responses that are their sketch message, without histogram. *)
Definition respUnmarshal (data : tipb.CMSketch)
  : Analyze.AnalyzeIndexResp unit * option error :=
  (Analyze.mkAnalyzeIndexResp unit None (Some data), None).

End Examples.

(** * Properties *)

(** ** Machine integers and slices *)

Lemma u32_id (x : Z) : is_u32 x -> u32 x = x.
Proof. intros H. apply Z.mod_small, H. Qed.

Lemma u64_id (x : Z) : is_u64 x -> u64 x = x.
Proof. intros H. apply Z.mod_small, H. Qed.

Lemma u32_range (x : Z) : is_u32 (u32 x).
Proof. apply Z.mod_pos_bound. lia. Qed.

Lemma u64_range (x : Z) : is_u64 (u64 x).
Proof. apply Z.mod_pos_bound. lia. Qed.

Lemma u64_add_idemp_r (a b : Z) : u64 (a + u64 b) = u64 (a + b).
Proof. unfold u64. apply Zplus_mod_idemp_r. Qed.

Lemma u32_add_idemp_r (a b : Z) : u32 (a + u32 b) = u32 (a + b).
Proof. unfold u32. apply Zplus_mod_idemp_r. Qed.

Lemma u32_add_idemp_l (a b : Z) : u32 (u32 a + b) = u32 (a + b).
Proof. unfold u32. apply Zplus_mod_idemp_l. Qed.

Lemma u32_u64 (x : Z) : u32 (u64 x) = u32 x.
Proof.
  unfold u32, u64. apply Z.mod_mod_divide. exists (2 ^ 32). reflexivity.
Qed.

Lemma u32_add_u64_r (a x : Z) : u32 (a + u64 x) = u32 (a + x).
Proof. now rewrite <- u32_add_idemp_r, u32_u64, u32_add_idemp_r. Qed.

Lemma u64_add_assoc3 (a b c : Z) : u64 (u64 (a + u64 b) + c) = u64 (a + (b + c)).
Proof.
  unfold u64. rewrite Zplus_mod_idemp_l.
  replace (a + b mod 2 ^ 64 + c) with ((a + c) + b mod 2 ^ 64) by ring.
  rewrite Zplus_mod_idemp_r. f_equal. ring.
Qed.

Lemma u64_add3 (a b c : Z) :
  u64 (u64 (a + b) + c) = u64 (a + (b + c)).
Proof. unfold u64. rewrite Zplus_mod_idemp_l. f_equal. ring. Qed.

Lemma index_Done {A} (l : list A) (n : nat) (a : A) :
  l !! n = Some a -> index l (Z.of_nat n) = Done a.
Proof.
  intros H. unfold index. pose proof (lookup_lt_Some _ _ _ H).
  destruct (Z.ltb_spec (Z.of_nat n) 0) as [?|_]; [lia|].
  destruct (Z.leb_spec (Z.of_nat (length l)) (Z.of_nat n)) as [?|_]; [lia|].
  cbn [orb]. now rewrite Nat2Z.id, H.
Qed.

Lemma index_Z_Done {A} (l : list A) (i : Z) (a : A) :
  0 <= i -> l !! Z.to_nat i = Some a -> index l i = Done a.
Proof.
  intros Hi H. rewrite <- (Z2Nat.id i Hi). now apply index_Done.
Qed.

Lemma index_total `{Inhabited A} (l : list A) (i : Z) :
  0 <= i < Z.of_nat (length l) -> index l i = Done (l !!! Z.to_nat i).
Proof.
  intros Hi. apply index_Z_Done; [lia|].
  apply list_lookup_lookup_total_lt. lia.
Qed.

Lemma index_out {A} (l : list A) (i : Z) :
  Z.of_nat (length l) <= i -> index l i = Crash IndexOutOfRange.
Proof.
  intros Hi. unfold index.
  destruct (Z.ltb_spec i 0) as [?|_]; [reflexivity|].
  destruct (Z.leb_spec (Z.of_nat (length l)) i) as [_|?]; [reflexivity|lia].
Qed.

Lemma store_Done {A} (l : list A) (n : nat) (x : A) :
  (n < length l)%nat -> store l (Z.of_nat n) x = Done (<[n := x]> l).
Proof.
  intros H. unfold store.
  destruct (Z.ltb_spec (Z.of_nat n) 0) as [?|_]; [lia|].
  destruct (Z.leb_spec (Z.of_nat (length l)) (Z.of_nat n)) as [?|_]; [lia|].
  cbn [orb]. now rewrite Nat2Z.id.
Qed.

Lemma store_Z_Done {A} (l : list A) (i : Z) (x : A) :
  0 <= i < Z.of_nat (length l) ->
  store l i x = Done (<[Z.to_nat i := x]> l).
Proof.
  intros Hi. rewrite <- (Z2Nat.id i) at 1 by lia.
  apply store_Done. lia.
Qed.

Lemma make_Done {A} (z : A) (n : Z) :
  0 <= n -> make z n = Done (replicate (Z.to_nat n) z).
Proof.
  intros H. unfold make. destruct (Z.ltb_spec n 0); [lia|reflexivity].
Qed.

Lemma udiv_Done (a b : Z) : b <> 0 -> udiv a b = Done (a / b).
Proof. intros H. unfold udiv. now destruct (Z.eqb_spec b 0). Qed.

Lemma umod_Done (a b : Z) : b <> 0 -> umod a b = Done (a mod b).
Proof. intros H. unfold umod. now destruct (Z.eqb_spec b 0). Qed.

Lemma column_Done (w h1 h2 : Z) (i : nat) :
  0 < w < 2 ^ 64 ->
  column w h1 h2 i = Done (u64 (h1 + Z.of_nat i * h2) mod w).
Proof.
  intros Hw. unfold column.
  rewrite (u64_id w) by (unfold is_u64; lia).
  rewrite umod_Done by lia.
  now rewrite u64_add_idemp_r, (Z.mul_comm h2).
Qed.

Lemma foldl_min_foldr (l : list Z) (x : Z) :
  foldl Z.min x l = foldr Z.min x l.
Proof.
  revert x. induction l as [|y l IH]; intros x; simpl; [reflexivity|].
  rewrite IH. clear IH. revert x y.
  induction l as [|z l IH]; intros x y; simpl; [apply Z.min_comm|].
  rewrite IH. lia.
Qed.

Lemma foldr_min_le (l : list Z) (x : Z) : foldr Z.min x l <= x.
Proof. induction l as [|y l IH]; simpl; lia. Qed.

(** In an ascending slice a later index holds a value at least as large. *)
Lemma Sorted_le_lookup (l : list Z) (i j : nat) (a b : Z) :
  Sorted Z.le l -> (i <= j)%nat ->
  l !! i = Some a -> l !! j = Some b -> a <= b.
Proof.
  intros Hs. apply Sorted_StronglySorted in Hs; [|intros x y z; lia].
  revert i j. induction Hs as [|x l Hs IH Hx]; intros i j Hij Hi Hj.
  - now rewrite lookup_nil in Hi.
  - destruct i as [|i], j as [|j]; simpl in *.
    + injection Hi as <-. injection Hj as <-. lia.
    + injection Hi as <-. rewrite Forall_forall in Hx.
      apply Hx. eapply list_elem_of_lookup_2, Hj.
    + inversion Hij.
    + apply (IH i j); [apply le_S_n, Hij|assumption|assumption].
Qed.

(** ** Loops over the table *)

Lemma estimate_eq (w cnt cell : Z) :
  2 <= w < 2 ^ 31 -> is_u32 cell ->
  let noise := u64 (cnt - cell) / (w - 1) in
  (if cell <? noise then 0 else u32 (cell - u32 noise))
  = Z.max 0 (cell - u64 (cnt - cell) / (w - 1)).
Proof.
  intros Hw Hc noise. fold noise.
  assert (0 <= noise).
  { apply Z.div_pos; [apply u64_range|lia]. }
  unfold is_u32 in Hc.
  destruct (Z.ltb_spec cell noise); [lia|].
  rewrite (u32_id noise) by (unfold is_u32; lia).
  rewrite u32_id by (unfold is_u32; lia). lia.
Qed.

Lemma estimate_range (w cnt cell : Z) :
  2 <= w -> is_u32 cell ->
  is_u32 (Z.max 0 (cell - u64 (cnt - cell) / (w - 1))).
Proof.
  intros Hw Hc. unfold is_u32 in *.
  assert (0 <= u64 (cnt - cell) / (w - 1)).
  { apply Z.div_pos; [apply u64_range|lia]. }
  lia.
Qed.

Lemma queryRow_spec (w cnt h1 h2 : Z) (i : nat) (row : list Z)
    (min : Z) (vals : list Z) :
  2 <= w < 2 ^ 31 ->
  Z.of_nat (length row) = w ->
  Forall is_u32 row ->
  (i < length vals)%nat ->
  let cell := row !!! Z.to_nat (u64 (h1 + Z.of_nat i * h2) mod w) in
  queryRow w cnt h1 h2 i row (min, vals)
  = Done (Z.min min cell,
          <[i := Z.max 0 (cell - u64 (cnt - cell) / (w - 1))]> vals).
Proof.
  intros Hw Hlen Hrow Hi cell. unfold queryRow.
  rewrite column_Done by lia. simpl.
  pose proof (Z.mod_pos_bound (u64 (h1 + Z.of_nat i * h2)) w) as Hj.
  rewrite index_total by lia. simpl. fold cell.
  assert (Hcell : is_u32 cell).
  { rewrite Forall_forall in Hrow. apply Hrow.
    apply list_elem_of_lookup_total_2. lia. }
  rewrite (u64_id w) by (unfold is_u64; lia).
  rewrite (u64_id (w - 1)) by (unfold is_u64; lia).
  rewrite udiv_Done by lia. simpl.
  rewrite store_Done by assumption. simpl.
  rewrite estimate_eq by (assumption || lia).
  f_equal. f_equal.
  destruct (Z.gtb_spec min cell); lia.
Qed.

Lemma queryRows_spec (w cnt h1 h2 : Z) :
  2 <= w < 2 ^ 31 ->
  forall (rows : list (list Z)) (i : nat) (min : Z) (pre suf : list Z),
    Forall (fun row : list Z => Z.of_nat (length row) = w) rows ->
    Forall (Forall is_u32) rows ->
    length pre = i -> length suf = length rows ->
    let cells :=
      imap (fun (k : nat) (row : list Z) =>
              row !!! Z.to_nat (u64 (h1 + Z.of_nat (i + k) * h2) mod w))
           rows in
    queryRows w cnt h1 h2 i rows (min, pre ++ suf)
    = Done (foldl Z.min min cells,
            pre ++ ((fun cell => Z.max 0 (cell - u64 (cnt - cell) / (w - 1)))
                      <$> cells)).
Proof.
  intros Hw rows. induction rows as [|row rest IH];
    intros i min pre suf Hlen Hcells Hpre Hsuf.
  - destruct suf; [|discriminate]. reflexivity.
  - destruct suf as [|s suf]; [discriminate|].
    apply Forall_cons in Hlen as [Hrow Hrest].
    apply Forall_cons in Hcells as [Hcrow Hcrest].
    cbn [queryRows].
    rewrite queryRow_spec; try assumption.
    2:{ rewrite length_app. simpl. lia. }
    cbn [mbind exec_bind].
    replace (<[i:=_]> (pre ++ s :: suf)) with
      ((pre ++ [(fun cell => Z.max 0 (cell - u64 (cnt - cell) / (w - 1)))
                  (row !!! Z.to_nat (u64 (h1 + Z.of_nat i * h2) mod w))])
         ++ suf).
    2:{ rewrite <- Hpre, insert_app_r_alt, Nat.sub_diag by lia.
        simpl. now rewrite <- app_assoc. }
    rewrite (IH (S i)); try assumption.
    2:{ rewrite length_app. simpl. lia. }
    2:{ simpl in Hsuf. lia. }
    rewrite imap_cons. cbn [foldl fmap list_fmap].
    rewrite Nat.add_0_r, <- app_assoc. simpl.
    f_equal. f_equal.
    + f_equal. apply imap_ext. intros k x _. simpl.
      now replace (S (i + k))%nat with (i + S k)%nat by lia.
    + f_equal. f_equal. f_equal. apply imap_ext. intros k x _. simpl.
      now replace (S (i + k))%nat with (i + S k)%nat by lia.
Qed.

Lemma queryRow_width_one (cnt h1 h2 : Z) (i : nat) (st : Z * list Z) :
  queryRow 1 cnt h1 h2 i [0] st = Crash DivideByZero.
Proof.
  unfold queryRow. destruct st as [min vals].
  rewrite column_Done by lia.
  rewrite Z.mod_1_r. reflexivity.
Qed.

Lemma cellAt_cons_0 (row : list Z) (rows : list (list Z)) (j : nat) :
  cellAt (row :: rows) 0 j = row !! j.
Proof. reflexivity. Qed.

Lemma cellAt_cons_S (row : list Z) (rows : list (list Z)) (i j : nat) :
  cellAt (row :: rows) (S i) j = cellAt rows i j.
Proof. reflexivity. Qed.

Lemma addRows_cells (w h1 h2 delta : Z) :
  1 <= w < 2 ^ 31 ->
  forall (rows : list (list Z)) (i0 : nat),
    shaped w rows ->
    exists rows',
      addRows w h1 h2 delta i0 rows = Done rows' /\
      shaped w rows' /\ length rows' = length rows /\
      forall (i j : nat) (v : Z),
        cellAt rows i j = Some v ->
        cellAt rows' i j
        = Some (if decide (Z.of_nat j
                           = u64 (h1 + Z.of_nat (i0 + i) * h2) mod w)
                then u32 (v + delta) else v).
Proof.
  intros Hw rows. induction rows as [|row rows IH]; intros i0 Hs.
  - exists []. repeat split; [constructor|]. intros i j v H. discriminate.
  - apply Forall_cons in Hs as [Hrow Hrows].
    destruct (IH (S i0) Hrows) as (rows' & Hrun & Hs' & Hlen & Hcells).
    cbn [addRows]. rewrite column_Done by lia. cbn [mbind exec_bind].
    set (col := u64 (h1 + Z.of_nat i0 * h2) mod w).
    assert (Hcol : 0 <= col < w) by (apply Z.mod_pos_bound; lia).
    rewrite index_total by lia. cbn [mbind exec_bind].
    rewrite store_Z_Done by lia. cbn [mbind exec_bind].
    rewrite Hrun. cbn [mbind exec_bind].
    eexists. split; [reflexivity|]. split; [|split].
    + constructor; [|assumption]. now rewrite length_insert.
    + simpl. now rewrite Hlen.
    + intros [|i] j v H.
      * rewrite cellAt_cons_0 in H |- *. rewrite Nat.add_0_r. fold col.
        destruct (decide (Z.of_nat j = col)) as [E|E].
        -- replace (Z.to_nat col) with j by lia.
           rewrite list_lookup_insert_eq by (eapply lookup_lt_Some, H).
           now rewrite (list_lookup_total_correct _ _ _ H).
        -- rewrite list_lookup_insert_ne by lia. exact H.
      * rewrite cellAt_cons_S in H |- *.
        rewrite (Hcells _ _ _ H).
        now replace (i0 + S i)%nat with (S i0 + i)%nat by lia.
Qed.

Lemma cellAt_shaped_ex (w : Z) (t t' : list (list Z)) (i j : nat) (v' : Z) :
  shaped w t -> shaped w t' -> length t' = length t ->
  cellAt t' i j = Some v' -> exists v, cellAt t i j = Some v.
Proof.
  intros Hs Hs' Hlen H. unfold cellAt in *.
  destruct (t' !! i) as [row'|] eqn:Er'; [|discriminate]. simpl in H.
  destruct (lookup_lt_is_Some_2 t i) as [row Er].
  { rewrite <- Hlen. eapply lookup_lt_Some, Er'. }
  rewrite Er. simpl. apply lookup_lt_is_Some_2.
  unfold shaped in *. rewrite Forall_lookup in Hs, Hs'.
  specialize (Hs _ _ Er). specialize (Hs' _ _ Er'). simpl in *.
  apply lookup_lt_Some in H. lia.
Qed.

Lemma mergeRow_spec (rtable : list (list Z)) (i : nat) (rrow row' : list Z) :
  rtable !! i = Some rrow ->
  forall (done rdone rrow' : list Z),
    rrow = rdone ++ rrow' -> length rdone = length done ->
    length rrow' = length row' ->
    mergeRow row' rtable i (length done) (done ++ row')
    = Done (done ++ zip_with (fun a b => u32 (a + b)) row' rrow').
Proof.
  intros Hi.
  induction row' as [|a row' IH]; intros done rdone rrow' Hr Hd Hl.
  - destruct rrow'; [|discriminate]. reflexivity.
  - destruct rrow' as [|b rrow']; [discriminate|].
    cbn [mergeRow].
    rewrite (index_Done (done ++ a :: row') _ a).
    2:{ rewrite lookup_app_r, Nat.sub_diag by lia. reflexivity. }
    cbn [mbind exec_bind].
    rewrite (index_Done rtable i rrow Hi). cbn [mbind exec_bind].
    rewrite (index_Done rrow _ b).
    2:{ rewrite Hr, <- Hd, lookup_app_r, Nat.sub_diag by lia. reflexivity. }
    cbn [mbind exec_bind].
    rewrite store_Done by (rewrite length_app; simpl; lia).
    cbn [mbind exec_bind].
    rewrite insert_app_r_alt, Nat.sub_diag by lia. cbn [insert list_insert].
    replace (S (length done)) with (length (done ++ [u32 (a + b)]))
      by (rewrite length_app; simpl; lia).
    replace (done ++ u32 (a + b) :: row')
      with ((done ++ [u32 (a + b)]) ++ row')
      by (now rewrite <- app_assoc).
    rewrite (IH _ (rdone ++ [b]) rrow').
    + now rewrite <- app_assoc.
    + now rewrite <- app_assoc.
    + rewrite !length_app. simpl. lia.
    + simpl in Hl. lia.
Qed.

Lemma mergeRows_spec (rtable : list (list Z)) (rows : list (list Z)) :
  forall (rdone rrows : list (list Z)),
    rtable = rdone ++ rrows ->
    Forall2 (fun row rrow : list Z => length row = length rrow) rows rrows ->
    mergeRows rows rtable (length rdone)
    = Done (zip_with (zip_with (fun a b => u32 (a + b))) rows rrows).
Proof.
  induction rows as [|row rows IH]; intros rdone rrows Hr H2.
  - reflexivity.
  - inversion H2 as [|? rrow ? rrows' Hlen H2' E1 E2]; subst.
    cbn [mergeRows].
    assert (Hi : (rdone ++ rrow :: rrows') !! length rdone = Some rrow).
    { rewrite lookup_app_r, Nat.sub_diag by lia. reflexivity. }
    pose proof (mergeRow_spec _ _ rrow row Hi [] [] rrow eq_refl eq_refl
                  (eq_sym Hlen)) as Hrow.
    cbn [app length] in Hrow. rewrite Hrow.
    cbn [mbind exec_bind].
    replace (S (length rdone)) with (length (rdone ++ [rrow]))
      by (rewrite length_app; simpl; lia).
    rewrite (IH _ rrows'); [reflexivity| |assumption].
    now rewrite <- app_assoc.
Qed.


Lemma makeRows_replicate (w : Z) (n : nat) :
  0 <= w ->
  makeRows w (replicate n []) = Done (replicate n (replicate (Z.to_nat w) 0)).
Proof.
  intros Hw. induction n as [|n IH]; [reflexivity|].
  simpl. rewrite make_Done by assumption. cbn [mbind exec_bind].
  now rewrite IH.
Qed.

Lemma i32_id (x : Z) : 0 <= x < 2 ^ 31 -> i32 x = x.
Proof. intros H. unfold i32. rewrite Z.mod_small; lia. Qed.

(** ** Reading the rows of a message *)

Lemma sumZ_app (l l' : list Z) :
  sumZ (l ++ l') = sumZ l + sumZ l'.
Proof.
  unfold sumZ. induction l as [|x l IH]; simpl; [reflexivity|].
  rewrite IH. ring.
Qed.

Lemma fromCounters_spec (counters : list Z) (i : nat) :
  forall (j : nat) (tbl : list (list Z)) (cnt : Z) (trow : list Z),
    tbl !! i = Some trow -> (j + length counters <= length trow)%nat ->
    is_u64 cnt ->
    fromCounters counters i j (tbl, cnt)
    = Done (<[i := take j trow ++ counters
                   ++ drop (j + length counters) trow]> tbl,
            u64 (cnt + sumZ counters)).
Proof.
  induction counters as [|x counters IH]; intros j tbl cnt trow Hi Hj Hcnt.
  - simpl. rewrite Nat.add_0_r, take_drop, Z.add_0_r, u64_id by assumption.
    now rewrite list_insert_id.
  - cbn [fromCounters length] in *.
    rewrite (index_Done tbl i trow Hi). cbn [mbind exec_bind].
    rewrite store_Done by lia. cbn [mbind exec_bind].
    rewrite store_Done by (eapply lookup_lt_Some, Hi).
    cbn [mbind exec_bind].
    rewrite (IH (S j) _ _ (<[j := x]> trow)).
    + rewrite list_insert_insert_eq. f_equal. f_equal.
      * f_equal.
        rewrite (take_S_r _ _ x)
          by (apply list_lookup_insert_eq; lia).
        rewrite take_insert_ge by lia.
        rewrite <- app_assoc. cbn [app]. f_equal. f_equal. f_equal.
        rewrite drop_insert_lt by lia. f_equal. lia.
      * cbn [sumZ foldr]. apply u64_add3.
    + apply list_lookup_insert_eq. eapply lookup_lt_Some, Hi.
    + rewrite length_insert. lia.
    + apply u64_range.
Qed.

Lemma fromRows_spec (w : nat) (rows : list (option tipb.CMSketchRow)) :
  forall (i : nat) (pre : list (list Z)) (count0 : Z),
    length pre = i ->
    Forall (fun r : option tipb.CMSketchRow =>
              exists row, r = Some row /\
                (length (tipb.Counters row) <= w)%nat) rows ->
    fromRows rows i (pre ++ replicate (length rows) (replicate w 0), count0)
    = Done (pre ++ (padded w <$> rows), rowsCount rows count0).
Proof.
  induction rows as [|r rows IH]; intros i pre count0 Hi Hrows.
  - reflexivity.
  - apply Forall_cons in Hrows as [(row & -> & Hlen) Hrows].
    cbn [fromRows]. cbn [deref mbind exec_bind].
    rewrite (fromCounters_spec (tipb.Counters row) i 0 _ 0 (replicate w 0)).
    2:{ rewrite lookup_app_r, Hi, Nat.sub_diag by lia. reflexivity. }
    2:{ rewrite length_replicate. lia. }
    2:{ unfold is_u64. lia. }
    cbn [mbind exec_bind take app]. rewrite Z.add_0_l.
    rewrite drop_replicate. cbn [Nat.add length replicate].
    rewrite <- Hi, insert_app_r_alt, Nat.sub_diag by lia.
    cbn [insert list_insert].
    pose proof (IH (S (length pre))
                  (pre ++ [tipb.Counters row
                           ++ replicate (w - length (tipb.Counters row)) 0])
                  (u64 (sumZ (tipb.Counters row)))) as IH'.
    rewrite <- app_assoc in IH'. cbn [app] in IH'.
    rewrite take_0. cbn [app].
    rewrite IH'; [|rewrite length_app; simpl; lia|assumption].
    rewrite fmap_cons, <- app_assoc. reflexivity.
Qed.

Lemma rowsCount_last (rows : list (option tipb.CMSketchRow))
    (row : tipb.CMSketchRow) (count0 : Z) :
  rowsCount (rows ++ [Some row]) count0
  = u64 (sumZ (tipb.Counters row)).
Proof. unfold rowsCount. now rewrite foldl_app. Qed.


(** ** The revision built around [topNHelper] *)

Module SketchProps.
Import Sketch.

(** *** The table query *)

Lemma spec_cells_length (c : CMSketch) (h1 h2 : Z) :
  length (spec_cells c h1 h2) = length (table c).
Proof. unfold spec_cells. apply length_imap. Qed.

Lemma spec_cells_range (c : CMSketch) (h1 h2 : Z) :
  wf c -> 1 <= width c -> Forall is_u32 (spec_cells c h1 h2).
Proof.
  intros Hwf Hw. unfold spec_cells.
  apply Forall_lookup. intros i x Hx.
  apply list_lookup_imap_Some in Hx as (row & Hrow & ->).
  pose proof (wf_rows c Hwf) as Hlen. pose proof (wf_cells c Hwf) as Hc.
  rewrite Forall_lookup in Hlen, Hc.
  specialize (Hlen _ _ Hrow). specialize (Hc _ _ Hrow). simpl in Hlen.
  rewrite Forall_forall in Hc. apply Hc.
  apply list_elem_of_lookup_total_2.
  pose proof (Z.mod_pos_bound (u64 (h1 + Z.of_nat i * h2)) (width c)).
  lia.
Qed.

Lemma foldl_min_spec_min (cells : list Z) :
  Forall is_u32 cells -> foldl Z.min MaxUint32 cells = spec_min cells.
Proof.
  intros H. destruct cells as [|x l]; [reflexivity|].
  apply Forall_cons in H as [Hx _]. unfold is_u32, MaxUint32 in *. simpl.
  rewrite Z.min_r by lia. apply foldl_min_foldr.
Qed.

(** [queryHashValue] computes what the specification words: on every
    well-formed sketch of depth at least 1 and width at least 2 it
    returns [spec_queryHashValue]. *)
Lemma queryHashValue_spec (c : CMSketch) (h1 h2 : Z) :
  wf c -> 1 <= depth c -> 2 <= width c ->
  queryHashValue c h1 h2 = Done (spec_queryHashValue c h1 h2).
Proof.
  intros Hwf Hd Hw.
  pose proof (wf_depth c Hwf) as Hdepth.
  pose proof (wf_width32 c Hwf) as Hw32.
  pose proof (wf_count c Hwf) as Hcount.
  unfold queryHashValue.
  rewrite make_Done by lia. cbn [mbind exec_bind].
  pose proof (queryRows_spec (width c) (count c) h1 h2 (conj Hw Hw32)
                (table c) 0 MaxUint32 []
                (replicate (Z.to_nat (depth c)) 0)
                (wf_rows c Hwf) (wf_cells c Hwf) eq_refl) as Hrows.
  rewrite length_replicate in Hrows. specialize (Hrows ltac:(lia)).
  cbn [app] in Hrows. simpl in Hrows. rewrite Hrows. clear Hrows.
  cbn [mbind exec_bind].
  change (imap _ (table c)) with (spec_cells c h1 h2).
  change (fun cell : Z => Z.max 0 (cell - u64 (count c - cell) / (width c - 1)))
    with (spec_estimate c).
  set (cells := spec_cells c h1 h2).
  assert (Hcr : Forall is_u32 cells) by (apply spec_cells_range; [assumption|lia]).
  rewrite foldl_min_spec_min by assumption.
  set (v := sort_asc (spec_estimate c <$> cells)).
  assert (Hvlen : Z.of_nat (length v) = depth c).
  { unfold v, sort_asc. rewrite merge_sort_Permutation, length_fmap.
    unfold cells. now rewrite spec_cells_length. }
  assert (Hvr : Forall is_u32 v).
  { unfold v, sort_asc. rewrite merge_sort_Permutation.
    apply Forall_fmap. eapply Forall_impl; [exact Hcr|].
    intros x Hx. simpl. now apply estimate_range. }
  assert (Hvs : Sorted Z.le v).
  { unfold v, sort_asc. apply Sorted_merge_sort. intros x y. lia. }
  rewrite !Z.quot_div_nonneg by lia.
  assert (Hlo : 0 <= (depth c - 1) / 2 < depth c).
  { split; [apply Z.div_pos; lia|]. apply Z.div_lt_upper_bound; lia. }
  assert (Hhi : 0 <= depth c / 2 < depth c).
  { split; [apply Z.div_pos; lia|]. apply Z.div_lt_upper_bound; lia. }
  assert (Hlohi : (depth c - 1) / 2 <= depth c / 2).
  { apply Z.div_le_mono; lia. }
  rewrite !index_total by lia. cbn [mbind exec_bind].
  set (lo := v !!! Z.to_nat ((depth c - 1) / 2)).
  set (hi := v !!! Z.to_nat (depth c / 2)).
  assert (Hlo_r : is_u32 lo).
  { rewrite Forall_forall in Hvr. apply Hvr.
    apply list_elem_of_lookup_total_2. lia. }
  assert (Hhi_r : is_u32 hi).
  { rewrite Forall_forall in Hvr. apply Hvr.
    apply list_elem_of_lookup_total_2. lia. }
  assert (Hle : lo <= hi).
  { eapply (Sorted_le_lookup v (Z.to_nat ((depth c - 1) / 2))
              (Z.to_nat (depth c / 2))); [exact Hvs|lia| |].
    - apply list_lookup_lookup_total_lt. lia.
    - apply list_lookup_lookup_total_lt. lia. }
  unfold is_u32 in Hlo_r, Hhi_r.
  rewrite (u32_id (hi - lo)) by (unfold is_u32; lia).
  assert (0 <= (hi - lo) / 2 <= hi - lo).
  { split; [apply Z.div_pos; lia|]. apply Z.div_le_upper_bound; lia. }
  rewrite u32_id by (unfold is_u32; lia).
  unfold considerDefVal.
  rewrite (u64_id (width c)) by (unfold is_u64; lia).
  rewrite udiv_Done by lia. cbn [mbind exec_bind].
  unfold is_u64 in Hcount.
  assert (0 <= count c / width c <= count c / 2).
  { split; [apply Z.div_pos; lia|].
    apply Z.div_le_compat_l; lia. }
  assert (count c / 2 < 2 ^ 63).
  { apply Z.div_lt_upper_bound; lia. }
  rewrite u64_id by (unfold is_u64; lia).
  unfold spec_queryHashValue. fold cells. fold v. fold lo. fold hi.
  replace (if lo + (hi - lo) / 2 >? spec_min cells then spec_min cells
           else lo + (hi - lo) / 2)
    with (Z.min (lo + (hi - lo) / 2) (spec_min cells)).
  2:{ destruct (Z.gtb_spec (lo + (hi - lo) / 2) (spec_min cells)); lia. }
  reflexivity.
Qed.

(** *** Construction *)

Lemma NewCMSketch_Done (d w : Z) :
  0 <= d -> 0 <= w ->
  NewCMSketch d w
  = Done (mkCMSketch d w 0 0
            (replicate (Z.to_nat d) (replicate (Z.to_nat w) 0)) None).
Proof.
  intros Hd Hw. unfold NewCMSketch.
  rewrite make_Done by assumption. cbn [mbind exec_bind].
  now rewrite makeRows_replicate.
Qed.

Lemma NewCMSketch_wf (d w : Z) (c : CMSketch) :
  d < 2 ^ 31 -> w < 2 ^ 31 -> NewCMSketch d w = Done c -> wf c.
Proof.
  intros Hd Hw H.
  destruct (Z.ltb_spec d 0) as [Hd0|Hd0].
  { unfold NewCMSketch, make in H.
    destruct (Z.ltb_spec d 0); [discriminate|lia]. }
  destruct (Z.ltb_spec w 0) as [Hw0|Hw0].
  - unfold NewCMSketch in H. rewrite make_Done in H by assumption.
    cbn [mbind exec_bind] in H.
    destruct (Z.to_nat d) as [|n] eqn:En.
    + simpl in H. injection H as <-.
      constructor; simpl; try (constructor; fail); unfold is_u64; lia.
    + simpl in H. unfold make in H.
      destruct (Z.ltb_spec w 0); [discriminate|lia].
  - rewrite NewCMSketch_Done in H by assumption. injection H as <-.
    constructor; simpl; try (unfold is_u64; lia).
    + rewrite length_replicate. lia.
    + apply Forall_replicate. rewrite length_replicate. lia.
    + apply Forall_replicate, Forall_replicate. unfold is_u32. lia.
Qed.

(** *** The heavy-hitter cutoff *)

Lemma last_cons_default (l : list Z) (a d : Z) :
  List.last (a :: l) d = List.last l a.
Proof.
  revert a d. induction l as [|b l IH]; intros a d; [reflexivity|].
  change (List.last (a :: b :: l) d) with (List.last (b :: l) d).
  rewrite IH. symmetry. apply IH.
Qed.

Section Cutoff.

Variable sorted : list Z.
Variable numTop : Z.

Let ndv : nat := length sorted.
Let k : nat := Z.to_nat (Z.min (Z.of_nat ndv) numTop).
Let bound : nat := Nat.min ndv (2 * k).
Let ext : nat -> bool := loop_extends sorted numTop.
Let vals (ps : list nat) : list Z := (fun i : nat => sorted !!! i) <$> ps.

Hypothesis Hndv : Z.of_nat ndv < 2 ^ 31.

Lemma topNLoop_from (n : nat) :
  forall (i fuel : nat) (last sum : Z),
    (i + n = bound)%nat -> (n <= fuel)%nat -> is_u64 sum ->
    (0 < i -> last = sorted !!! (i - 1))%nat ->
    let ps := if (i <? k)%nat
              then seq i (k - i) ++ takeWhile ext (seq k (bound - k))
              else takeWhile ext (seq i n) in
    topNLoop sorted (Z.of_nat ndv) (Z.of_nat k) fuel (Z.of_nat i) last sum
    = Done (List.last (vals ps) last, u64 (sum + sumZ (vals ps))).
Proof.
  assert (Hk : (k <= ndv)%nat) by (subst k; lia).
  assert (Hk2 : u32 (Z.of_nat k * 2) = Z.of_nat (2 * k)).
  { rewrite u32_id; [lia|]. unfold is_u32. lia. }
  induction n as [|n IH]; intros i fuel last sum Hi Hfuel Hsum Hlast ps.
  - assert (Hps : ps = []).
    { subst ps. destruct (Nat.ltb_spec i k); [subst bound; lia|reflexivity]. }
    rewrite Hps. simpl. rewrite Z.add_0_r, (u64_id sum) by assumption.
    destruct fuel as [|fuel]; simpl; [reflexivity|].
    rewrite Hk2.
    destruct (Z.ltb_spec (Z.of_nat i) (Z.of_nat ndv)),
             (Z.ltb_spec (Z.of_nat i) (Z.of_nat (2 * k)));
      simpl; try reflexivity.
    subst bound. lia.
  - destruct fuel as [|fuel]; [lia|]. cbn [topNLoop]. rewrite Hk2.
    assert (Hib : (i < ndv /\ i < 2 * k)%nat) by (subst bound; lia).
    destruct (Z.ltb_spec (Z.of_nat i) (Z.of_nat ndv)); [|lia].
    destruct (Z.ltb_spec (Z.of_nat i) (Z.of_nat (2 * k))); [|lia].
    cbn [andb].
    rewrite (index_Done sorted i (sorted !!! i))
      by (apply list_lookup_lookup_total_lt; subst ndv; lia).
    cbn [mbind exec_bind].
    assert (Hnext : u32 (Z.of_nat i + 1) = Z.of_nat (S i)).
    { rewrite u32_id; [lia|]. unfold is_u32. lia. }
    assert (Hstep : forall stop : bool,
               (if Nat.ltb i k then stop = false
                else stop = negb (ext i)) ->
               (if stop then Done (last, sum)
                else topNLoop sorted (Z.of_nat ndv) (Z.of_nat k) fuel
                       (u32 (Z.of_nat i + 1)) (sorted !!! i)
                       (u64 (sum + sorted !!! i)))
               = Done (List.last (vals ps) last, u64 (sum + sumZ (vals ps)))).
    { intros stop Hstop. rewrite Hnext.
      assert (Hrec :
        topNLoop sorted (Z.of_nat ndv) (Z.of_nat k) fuel (Z.of_nat (S i))
          (sorted !!! i) (u64 (sum + sorted !!! i))
        = Done (List.last (vals (i :: (if (S i <? k)%nat
                   then seq (S i) (k - S i)
                        ++ takeWhile ext (seq k (bound - k))
                   else takeWhile ext (seq (S i) n)))) last,
                u64 (sum + sumZ (vals (i :: (if (S i <? k)%nat
                   then seq (S i) (k - S i)
                        ++ takeWhile ext (seq k (bound - k))
                   else takeWhile ext (seq (S i) n))))))).
      { rewrite IH; try lia; [|apply u64_range|].
        2:{ intros _. f_equal. lia. }
        unfold vals. rewrite fmap_cons, last_cons_default. cbn [sumZ foldr].
        f_equal. f_equal. apply u64_add3. }
      subst ps.
      destruct (Nat.ltb_spec i k) as [Hik|Hik].
      - subst stop. rewrite Hrec. clear Hrec.
        destruct (Nat.ltb_spec (S i) k) as [Hsk|Hsk].
        + replace (k - i)%nat with (S (k - S i)) by lia. reflexivity.
        + replace (k - i)%nat with 1%nat by lia.
          replace (S i) with k by lia.
          replace n with (bound - k)%nat by lia. reflexivity.
      - subst stop. cbn [seq takeWhile].
        destruct (ext i); cbn [negb].
        + rewrite Hrec. clear Hrec.
          destruct (Nat.ltb_spec (S i) k); [lia|reflexivity].
        + simpl. rewrite Z.add_0_r, (u64_id sum) by assumption.
          reflexivity. }
    destruct (Z.geb_spec (Z.of_nat i) (Z.of_nat k)) as [Hge|Hlt].
    + replace (u32 (Z.of_nat k - 1)) with (Z.of_nat (k - 1)).
      2:{ rewrite u32_id; [lia|]. unfold is_u32. lia. }
      rewrite (index_Done sorted (k - 1) (sorted !!! (k - 1)%nat))
        by (apply list_lookup_lookup_total_lt; subst ndv; lia).
      cbn [mbind exec_bind]. apply Hstep.
      destruct (Nat.ltb_spec i k); [lia|].
      subst ext. unfold loop_extends. fold ndv. fold k.
      rewrite Hlast by lia.
      rewrite negb_orb, Z.leb_antisym, negb_involutive.
      f_equal. f_equal. apply Z.eqb_sym.
    + cbn [mbind exec_bind]. apply (Hstep false).
      destruct (Nat.ltb_spec i k); [reflexivity|lia].
Qed.

End Cutoff.

(** The whole loop, from position 0 with nothing accumulated. *)
Lemma topNLoop_run (sorted : list Z) (numTop : Z) :
  Z.of_nat (length sorted) < 2 ^ 31 -> 0 <= numTop ->
  let sampleNDV := u32 (Z.of_nat (length sorted)) in
  topNLoop sorted sampleNDV (Z.min sampleNDV numTop) (length sorted) 0 0 0
  = Done (spec_cutoff
            (spec_positions (loop_extends sorted numTop) sorted numTop)
            sorted).
Proof.
  intros Hlen Hn sampleNDV.
  assert (Hs : sampleNDV = Z.of_nat (length sorted)).
  { apply u32_id. unfold is_u32. lia. }
  rewrite Hs.
  set (k := Z.to_nat (Z.min (Z.of_nat (length sorted)) numTop)).
  replace (Z.min (Z.of_nat (length sorted)) numTop) with (Z.of_nat k)
    by (subst k; lia).
  pose proof (topNLoop_from sorted numTop Hlen
                (Nat.min (length sorted) (2 * k)) 0 (length sorted) 0 0)
    as H.
  fold k in H. cbv zeta in H. change (Z.of_nat 0) with 0 in H.
  rewrite H; [|reflexivity|lia|unfold is_u64; lia|lia]. clear H.
  unfold spec_cutoff, spec_positions. fold k. rewrite Z.add_0_l.
  destruct (Nat.ltb_spec 0 k) as [Hk|Hk].
  - now rewrite Nat.sub_0_r.
  - replace k with 0%nat by lia. now rewrite Nat.sub_0_r.
Qed.

(** C3, as the loop has it.  Over a frequency vector of fewer than 2^31
    entries, with [k = min(numTop, sampleNDV)], the loop takes the first
    [k] positions and then the positions [i] of [[k, 2k)] while
    [sorted[i]*3 >= sorted[k-1]*2] or [sorted[i] = sorted[i-1]]; the
    first position where [sorted[i]*3 < sorted[k-1]*2] and
    [sorted[i] <> sorted[i-1]] ends it.  [lastVal] is the value at the
    last position taken and [sumTopN] the sum of the values taken. *)
Theorem topNLoop_extension (sorted : list Z) (numTop : Z) :
  Z.of_nat (length sorted) < 2 ^ 31 -> 0 <= numTop ->
  let sampleNDV := u32 (Z.of_nat (length sorted)) in
  topNLoop sorted sampleNDV (Z.min sampleNDV numTop) (length sorted) 0 0 0
  = Done (spec_cutoff
            (spec_positions (loop_extends sorted numTop) sorted numTop)
            sorted).
Proof.
  intros Hlen Hn. exact (topNLoop_run sorted numTop Hlen Hn).
Qed.

(** *** Reading a message *)

Lemma CMSketchFromProto_spec (p : tipb.CMSketch) :
  Forall (fun r : option tipb.CMSketchRow =>
            exists row, r = Some row /\
              (length (tipb.Counters row) <= protoWidth p)%nat)
    (tipb.Rows p) ->
  Z.of_nat (length (tipb.Rows p)) < 2 ^ 31 ->
  Z.of_nat (protoWidth p) < 2 ^ 31 ->
  tipb.Rows p <> [] ->
  CMSketchFromProto (Some p)
  = Done (Some (mkCMSketch (Z.of_nat (length (tipb.Rows p)))
                  (Z.of_nat (protoWidth p)) (rowsCount (tipb.Rows p) 0) 0
                  (padded (protoWidth p) <$> tipb.Rows p) None)).
Proof.
  intros Hrows Hd32 Hw32 Hne. unfold CMSketchFromProto.
  destruct (tipb.Rows p) as [|r0 rows] eqn:Er; [contradiction|].
  pose proof Hrows as Hrows0.
  apply Forall_cons in Hrows0 as [(row0 & -> & _) _].
  assert (Hpw : protoWidth p = length (tipb.Counters row0)).
  { unfold protoWidth. now rewrite Er. }
  change (index (Some row0 :: rows) 0) with (Done (Some row0)).
  cbn [mbind exec_bind deref].
  rewrite <- Hpw, !i32_id by lia.
  rewrite NewCMSketch_Done by lia. cbn [mbind exec_bind].
  rewrite !Nat2Z.id. cbn [table count].
  pose proof (fromRows_spec (protoWidth p) (Some row0 :: rows) 0 [] 0
                eq_refl Hrows) as Hfrom.
  cbn [app] in Hfrom. rewrite Hfrom. reflexivity.
Qed.

(** *** The frequency count *)

Lemma collectCounts_from (l : list Z) :
  forall (acc : list Z) (n : Z),
    is_u64 n ->
    foldl (fun (st : list Z * Z) (cnt : Z) =>
             (st.1 ++ [cnt], if cnt =? 1 then u64 (st.2 + 1) else st.2))
          (acc, n) l
    = (acc ++ l,
       u64 (n + Z.of_nat (length (filter (fun cnt : Z => cnt = 1) l)))).
Proof.
  induction l as [|x l IH]; intros acc n Hn.
  - simpl. now rewrite app_nil_r, Z.add_0_r, u64_id.
  - cbn [foldl fst snd]. rewrite filter_cons.
    destruct (Z.eqb_spec x 1) as [->|Hx].
    + rewrite IH by apply u64_range. rewrite decide_True by reflexivity.
      rewrite <- app_assoc. cbn [app length]. f_equal.
      rewrite u64_add3. f_equal. lia.
    + rewrite IH by assumption. rewrite decide_False by assumption.
      now rewrite <- app_assoc.
Qed.

Lemma collectCounts_spec (l : list Z) :
  collectCounts l
  = (l, u64 (Z.of_nat (length (filter (fun cnt : Z => cnt = 1) l)))).
Proof.
  unfold collectCounts. rewrite collectCounts_from by (unfold is_u64; lia).
  reflexivity.
Qed.

Lemma countSamples_size (data : list (option string)) :
  (size (countSamples data) <= length data)%nat.
Proof.
  unfold countSamples.
  set (f := fun (m : gmap string Z) (d : option string) =>
              <[contents d := u64 (default 0 (m !! contents d) + 1)]> m).
  assert (H : forall m : gmap string Z,
             (size (foldl f m data) <= size m + length data)%nat).
  { induction data as [|d data IH]; intros m; simpl; [lia|].
    etransitivity; [apply IH|]. unfold f at 1.
    destruct (m !! contents d) as [x|] eqn:E.
    - rewrite map_size_insert_Some by eauto. lia.
    - rewrite map_size_insert_None by assumption. lia. }
  specialize (H ∅). now rewrite map_size_empty in H.
Qed.

(** [newTopNHelper] returns on every sample of fewer than 2^31 keys, with
    the fields the later steps read. *)
Lemma newTopNHelper_Done (data : list (option string)) (numTop : Z) :
  Z.of_nat (length data) < 2 ^ 31 -> 0 <= numTop ->
  let cnts := (map_to_list (countSamples data)).*2 in
  let sorted := sort_desc cnts in
  exists last sum,
    newTopNHelper data numTop
    = Done (mkTopNHelper (Z.of_nat (length data))
              (Z.min (Z.of_nat (length sorted)) numTop)
              (countSamples data) sorted
              (Z.of_nat (length (filter (fun cnt : Z => cnt = 1) cnts)))
              sum last) /\
    (last, sum)
    = spec_cutoff (spec_positions (loop_extends sorted numTop) sorted numTop)
        sorted.
Proof.
  intros Hlen Hn cnts sorted. unfold newTopNHelper.
  fold cnts. rewrite collectCounts_spec. fold sorted.
  pose proof (countSamples_size data) as Hsize.
  assert (Hsl : length sorted = size (countSamples data)).
  { unfold sorted, sort_desc. rewrite merge_sort_Permutation. unfold cnts.
    now rewrite length_fmap, length_map_to_list. }
  pose proof (topNLoop_run sorted numTop ltac:(lia) Hn) as Hloop.
  cbv zeta in Hloop. rewrite Hloop. cbn [mbind exec_bind].
  destruct (spec_cutoff _ sorted) as [last sum] eqn:Ec.
  exists last, sum. split; [|reflexivity].
  rewrite (u32_id (Z.of_nat (length sorted))) by (unfold is_u32; lia).
  rewrite (u64_id (Z.of_nat (length data))) by (unfold is_u64; lia).
  rewrite u64_id; [reflexivity|].
  unfold is_u64. split; [lia|].
  pose proof (length_filter (fun cnt : Z => cnt = 1) cnts) as Hf.
  assert (length cnts = size (countSamples data)).
  { unfold cnts. now rewrite length_fmap, length_map_to_list. }
  lia.
Qed.

(** *** The default value *)

Lemma calculateDefaultVal_spec (c : CMSketch) (helper : topNHelper)
    (estimateNDV ratio rowCount : Z) :
  calculateDefaultVal c helper estimateNDV ratio rowCount
  = Done (set_defaultValue c
            (spec_defaultValue rowCount (sumTopN helper) estimateNDV
               (numTop helper) (onlyOnceItems helper)
               (u64 (Z.of_nat (length (sorted helper))))
               (sampleSize helper) ratio)).
Proof.
  unfold calculateDefaultVal, spec_defaultValue.
  destruct (rowCount <=? sumTopN helper); [reflexivity|].
  destruct (estimateNDV <=? numTop helper); [reflexivity|].
  set (ndv := u64 (Z.of_nat (length (sorted helper)))).
  destruct (Z.leb_spec (u64 (estimateNDV + onlyOnceItems helper)) ndv)
    as [|Hgt]; [reflexivity|].
  assert (Hdiv : u64 (u64 (estimateNDV - ndv) + onlyOnceItems helper)
                 = u64 (estimateNDV - ndv + onlyOnceItems helper)).
  { unfold u64. now rewrite Zplus_mod_idemp_l. }
  assert (Hrem : u64 (rowCount
                      - u64 (u64 (sampleSize helper - onlyOnceItems helper)
                             * ratio))
                 = u64 (rowCount
                        - (sampleSize helper - onlyOnceItems helper) * ratio)).
  { unfold u64. now rewrite Zmult_mod_idemp_l, Zminus_mod_idemp_r. }
  rewrite Hdiv, Hrem. rewrite udiv_Done; [reflexivity|].
  assert (Hndv : is_u64 ndv) by apply u64_range.
  pose proof (u64_range (estimateNDV + onlyOnceItems helper)) as He.
  unfold is_u64 in *.
  replace (estimateNDV - ndv + onlyOnceItems helper)
    with (estimateNDV + onlyOnceItems helper - ndv) by ring.
  unfold u64 in *. rewrite <- Zminus_mod_idemp_l.
  rewrite Z.mod_small; lia.
Qed.

(** *** Table updates *)

(** *** Merge *)

Lemma wf_same_shape (c rc : CMSketch) :
  wf c -> wf rc -> depth c = depth rc -> width c = width rc ->
  Forall2 (fun row rrow : list Z => length row = length rrow)
    (table c) (table rc).
Proof.
  intros Hc Hrc Hd Hw.
  apply Forall2_same_length_lookup. split.
  - pose proof (wf_depth c Hc). pose proof (wf_depth rc Hrc). lia.
  - intros i row rrow Hi Hri.
    pose proof (wf_rows c Hc) as H1. pose proof (wf_rows rc Hrc) as H2.
    rewrite Forall_lookup in H1, H2.
    specialize (H1 _ _ Hi). specialize (H2 _ _ Hri). simpl in *. lia.
Qed.

(** C6.  [MergeCMSketch] on well-formed sketches: it returns an error
    exactly when the dimensions differ (the dimension error) or, the
    dimensions being equal, when either operand has a Top-N index (the
    Top-N error); with an error the receiver is returned as it was; with
    no error the receiver's count is [count + other.count] (uint64) and
    every cell is [table[i][j] + other.table[i][j]] (uint32), the other
    fields being kept. *)
Theorem MergeCMSketch_contract (c rc : CMSketch) :
  wf c -> wf rc ->
  ((depth c <> depth rc \/ width c <> width rc) ->
   MergeCMSketch c rc = Done (c, Some ErrDimensions))
  /\ (depth c = depth rc -> width c = width rc ->
      (topN c <> None \/ topN rc <> None) ->
      MergeCMSketch c rc = Done (c, Some ErrTopNMerge))
  /\ (depth c = depth rc -> width c = width rc ->
      topN c = None -> topN rc = None ->
      MergeCMSketch c rc
      = Done (mkCMSketch (depth c) (width c) (u64 (count c + count rc))
                (defaultValue c)
                (zip_with (zip_with (fun a b => u32 (a + b)))
                   (table c) (table rc))
                None,
              None))
  /\ ((exists c' e, MergeCMSketch c rc = Done (c', Some e)) <->
      (depth c <> depth rc \/ width c <> width rc \/
       topN c <> None \/ topN rc <> None)).
Proof.
  intros Hc Hrc.
  assert (H1 : (depth c <> depth rc \/ width c <> width rc) ->
               MergeCMSketch c rc = Done (c, Some ErrDimensions)).
  { intros H. unfold MergeCMSketch.
    destruct (Z.eqb_spec (depth c) (depth rc)),
             (Z.eqb_spec (width c) (width rc)); simpl; try reflexivity.
    lia. }
  assert (H2 : depth c = depth rc -> width c = width rc ->
               (topN c <> None \/ topN rc <> None) ->
               MergeCMSketch c rc = Done (c, Some ErrTopNMerge)).
  { intros Hd Hw H. unfold MergeCMSketch.
    rewrite Hd, Hw, !Z.eqb_refl. simpl.
    destruct H as [H|H].
    - rewrite (bool_decide_eq_true_2 _ H). reflexivity.
    - rewrite (bool_decide_eq_true_2 _ H), orb_true_r. reflexivity. }
  assert (H3 : depth c = depth rc -> width c = width rc ->
               topN c = None -> topN rc = None ->
               MergeCMSketch c rc
               = Done (mkCMSketch (depth c) (width c)
                         (u64 (count c + count rc)) (defaultValue c)
                         (zip_with (zip_with (fun a b => u32 (a + b)))
                            (table c) (table rc))
                         None,
                       None)).
  { intros Hd Hw Ht Hrt. unfold MergeCMSketch.
    rewrite Hd, Hw, !Z.eqb_refl. simpl.
    rewrite Ht, Hrt.
    rewrite bool_decide_eq_false_2 by (intros H; now apply H). simpl.
    pose proof (mergeRows_spec (table rc) (table c) [] (table rc) eq_refl
                  (wf_same_shape c rc Hc Hrc Hd Hw)) as Hrows.
    cbn [length] in Hrows. unfold set_table, set_count. cbn [table].
    rewrite Hrows. cbn [mbind exec_bind]. simpl.
    now rewrite Ht, Hd, Hw. }
  repeat split; try assumption.
  - intros (c' & e & H).
    destruct (decide (depth c = depth rc)) as [Hd|Hd]; [|now left].
    destruct (decide (width c = width rc)) as [Hw|Hw]; [|now right; left].
    destruct (topN c) as [m|] eqn:Ht; [right; right; left; discriminate|].
    destruct (topN rc) as [m|] eqn:Hrt; [right; right; right; discriminate|].
    rewrite H3 in H by (assumption || reflexivity). discriminate.
  - intros H.
    destruct (decide (depth c = depth rc)) as [Hd|Hd];
      [|exists c, ErrDimensions; apply H1; now left].
    destruct (decide (width c = width rc)) as [Hw|Hw];
      [|exists c, ErrDimensions; apply H1; now right].
    exists c, ErrTopNMerge. apply H2; try assumption.
    destruct H as [H|[H|H]]; [contradiction|contradiction|assumption].
Qed.

Section WithHash.

Variable Sum128 : string -> Z * Z.

(** *** Top-N lookup *)

Lemma matches_true (h2 : Z) (d : option string) (cnt : dataCount.t) :
  matches h2 d cnt = true <->
  dataCount.h2 cnt = h2 /\ contents (dataCount.data cnt) = contents d.
Proof.
  unfold matches, bytes_Equal.
  rewrite andb_true_iff, Z.eqb_eq, bool_decide_eq_true. intuition congruence.
Qed.

Lemma queryTopN_miss (c : CMSketch) (d : option string) :
  ~ topNMember Sum128 c d ->
  queryTopN c (Sum128 (contents d)).1 (Sum128 (contents d)).2 d = (0, false).
Proof.
  intros Hn. unfold queryTopN.
  destruct (topN c) as [m|] eqn:Em; [|reflexivity].
  assert (H : forall e, e ∈ bucket m (Sum128 (contents d)).1 ->
                        matches (Sum128 (contents d)).2 d e = false).
  { intros e He. destruct (matches _ d e) eqn:E; [|reflexivity].
    exfalso. apply Hn. apply matches_true in E as [? ?].
    exists m, e. auto. }
  induction (bucket m (Sum128 (contents d)).1) as [|e l IH]; [reflexivity|].
  simpl. rewrite H by apply list_elem_of_here.
  apply IH. intros e' He'. apply H. now apply list_elem_of_further.
Qed.

(** C1.  For every well-formed sketch (depth at least 1, width at least
    2) and every key that is not a member of the Top-N index,
    [QueryBytes] returns the value the specification words: per row the
    cell at column [(h1 + i*h2) mod w], the minimum of the cells, the
    noise-corrected estimates [max(0, c_i - (count - c_i)/(w-1))] sorted
    ascending, [res = v_{(d-1)/2} + (v_{d/2} - v_{(d-1)/2})/2] capped by
    the minimum, and [defaultValue] in place of [res] when
    [res < 2*(count/w)] and [defaultValue > 0]. *)
Theorem QueryBytes_table_estimate (c : CMSketch) (d : option string) :
  wf c -> 1 <= depth c -> 2 <= width c ->
  ~ topNMember Sum128 c d ->
  QueryBytes Sum128 c d
  = Done (spec_queryHashValue c (Sum128 (contents d)).1
            (Sum128 (contents d)).2).
Proof.
  intros Hwf Hd Hw Hn. unfold QueryBytes.
  pose proof (queryTopN_miss c d Hn) as Hq.
  destruct (Sum128 (contents d)) as [h1 h2]. simpl in Hq |- *.
  rewrite Hq. now apply queryHashValue_spec.
Qed.

(** *** Building from a sample *)

Variable hack_Slice : string -> option string.
Variable calculateEstimateNDV : topNHelper -> Z -> Z * Z.

(** [hack.Slice] keeps the bytes of the string. *)
Hypothesis hack_Slice_contents : forall s, contents (hack_Slice s) = s.

Local Abbreviation heavyEntries := (Sketch.heavyEntries hack_Slice).
Local Abbreviation rehashed := (Sketch.rehashed Sum128).

Lemma updateBytesWithDelta_table (c : CMSketch) (bytes : option string)
    (n : Z) :
  topN c = None -> 1 <= width c < 2 ^ 31 -> shaped (width c) (table c) ->
  exists c',
    updateBytesWithDelta Sum128 c bytes n = Done c' /\
    topN c' = None /\ depth c' = depth c /\ width c' = width c /\
    defaultValue c' = defaultValue c /\
    count c' = u64 (count c + n) /\
    shaped (width c) (table c') /\
    length (table c') = length (table c) /\
    forall (i j : nat) (v : Z),
      cellAt (table c) i j = Some v ->
      cellAt (table c') i j
      = Some (if decide (Z.of_nat j
                         = spec_column Sum128 (width c) (contents bytes) i)
              then u32 (v + n) else v).
Proof.
  intros Ht Hw Hs. unfold updateBytesWithDelta, spec_column.
  destruct (Sum128 (contents bytes)) as [h1 h2]. simpl.
  unfold updateTopNWithDelta. rewrite Ht. cbn [set_count width table].
  destruct (addRows_cells (width c) h1 h2 (u32 n) Hw (table c) 0 Hs)
    as (rows' & Hrun & Hs' & Hlen & Hcells).
  rewrite Hrun. cbn [mbind exec_bind].
  eexists. split; [reflexivity|]. simpl.
  repeat split; try assumption.
  intros i j v H. rewrite (Hcells _ _ _ H). simpl.
  now rewrite u32_add_idemp_r.
Qed.

Lemma massOf_nil (ratio : Z) (sel : string -> Z -> bool) :
  massOf [] ratio sel = 0.
Proof. reflexivity. Qed.

Lemma massOf_cons (key : string) (cnt : Z) (l : list (string * Z)) (ratio : Z)
    (sel : string -> Z -> bool) :
  massOf ((key, cnt) :: l) ratio sel
  = (if sel key cnt then cnt * ratio else 0) + massOf l ratio sel.
Proof.
  unfold massOf. rewrite filter_cons.
  destruct (decide ((key, cnt).1 = key /\ sel key cnt = true)) as [[_ E]|E].
  - rewrite decide_True by exact E. simpl. now rewrite E.
  - rewrite decide_False; [|intros E'; apply E; now split].
    simpl. destruct (sel key cnt); [exfalso; apply E; now split|reflexivity].
Qed.

Lemma massOf_Permutation (l l' : list (string * Z)) (ratio : Z)
    (sel : string -> Z -> bool) :
  l ≡ₚ l' -> massOf l ratio sel = massOf l' ratio sel.
Proof.
  intros H. induction H as [|[k c] l l' _ IH|[k c] [k' c'] l|l l' l'' _ IH1 _ IH2].
  - reflexivity.
  - rewrite !massOf_cons. now rewrite IH.
  - rewrite !massOf_cons. lia.
  - congruence.
Qed.

Lemma partitionCounters_spec (en : bool) (lastVal ratio : Z)
    (order : list (string * Z)) :
  forall (c : CMSketch) (topN0 : list dataCount.t) (sum : Z),
    topN c = None -> 1 <= width c < 2 ^ 31 -> shaped (width c) (table c) ->
    is_u64 sum -> is_u64 (count c) -> cells32 (table c) ->
    exists c',
      partitionCounters Sum128 hack_Slice en lastVal ratio order
        (c, topN0, sum)
      = Done (c', topN0 ++ heavyEntries en lastVal ratio order,
              u64 (sum + massOf order ratio
                           (fun _ cnt => en && (lastVal <=? cnt))) ) /\
      topN c' = None /\ depth c' = depth c /\ width c' = width c /\
      defaultValue c' = defaultValue c /\
      count c'
      = u64 (count c + massOf order ratio
                         (fun _ cnt => negb (en && (lastVal <=? cnt)))) /\
      shaped (width c) (table c') /\
      length (table c') = length (table c) /\
      forall (i j : nat) (v : Z),
        cellAt (table c) i j = Some v ->
        cellAt (table c') i j
        = Some (u32 (v + massOf order ratio
                           (fun key cnt =>
                              negb (en && (lastVal <=? cnt))
                              && bool_decide
                                   (Z.of_nat j
                                    = spec_column Sum128 (width c) key i)))).
Proof.
  induction order as [|[key cnt] rest IH];
    intros c topN0 sum Ht Hw Hs Hsum Hcount Hcells.
  - exists c. cbn [partitionCounters]. unfold heavyEntries.
    rewrite filter_nil, fmap_nil, app_nil_r, !massOf_nil, !Z.add_0_r.
    rewrite !u64_id by assumption.
    repeat split; try assumption. intros i j v H.
    rewrite massOf_nil, Z.add_0_r, u32_id; [assumption|]. eapply Hcells, H.
  - cbn [partitionCounters]. rewrite Z.geb_leb.
    destruct (en && (lastVal <=? cnt)) eqn:Eh.
    + destruct (IH c (topN0 ++ [dataCount.mk 0 0 (hack_Slice key)
                                  (u64 (cnt * ratio))])
                  (u64 (sum + u64 (cnt * ratio))) Ht Hw Hs
                  (u64_range _) Hcount Hcells)
        as (c' & Hrun & Ht' & Hd' & Hw' & Hdv' & Hc' & Hs' & Hl' & Hcell').
      exists c'. rewrite Hrun.
      rewrite !massOf_cons, Eh. cbn [negb andb].
      rewrite u64_add_assoc3, Z.add_0_l.
      unfold heavyEntries. rewrite filter_cons. cbn [fst snd].
      rewrite decide_True by exact Eh.
      rewrite fmap_cons, <- app_assoc. cbn [app fst snd].
      repeat split; try assumption.
      intros i j v H. rewrite (Hcell' _ _ _ H), massOf_cons, Eh.
      cbn [negb andb]. now rewrite Z.add_0_l.
    + destruct (updateBytesWithDelta_table c (hack_Slice key)
                  (u64 (cnt * ratio)) Ht Hw Hs)
        as (c1 & Hrun1 & Ht1 & Hd1 & Hw1 & Hdv1 & Hc1 & Hs1 & Hl1 & Hcell1).
      rewrite Hrun1. cbn [mbind exec_bind].
      rewrite hack_Slice_contents in Hcell1.
      assert (Hcells1 : cells32 (table c1)).
      { intros i j v1 H1.
        destruct (cellAt_shaped_ex _ _ _ _ _ _ Hs Hs1 Hl1 H1) as [v Hv].
        rewrite (Hcell1 _ _ _ Hv) in H1. injection H1 as <-.
        case_decide; [apply u32_range|eapply Hcells, Hv]. }
      rewrite <- Hw1 in Hw, Hs1.
      destruct (IH c1 topN0 sum Ht1 Hw Hs1 Hsum
                  ltac:(rewrite Hc1; apply u64_range) Hcells1)
        as (c' & Hrun & Ht' & Hd' & Hw' & Hdv' & Hc' & Hs' & Hl' & Hcell').
      exists c'. rewrite Hrun.
      rewrite !massOf_cons, Eh. cbn [negb andb].
      rewrite Z.add_0_l.
      unfold heavyEntries. rewrite filter_cons. cbn [fst snd].
      rewrite decide_False by (rewrite Eh; discriminate).
      rewrite Hw1 in *.
      repeat split; try congruence.
      * rewrite Hc', Hc1. apply u64_add_assoc3.
      * intros i j v H.
        rewrite (Hcell' _ _ _ (Hcell1 _ _ _ H)), massOf_cons, Eh.
        cbn [negb andb]. f_equal.
        set (m := massOf rest ratio _).
        destruct (decide (Z.of_nat j = spec_column Sum128 (width c) key i))
          as [E|E].
        -- rewrite (bool_decide_eq_true_2 _ E), u32_add_idemp_l.
           replace (v + u64 (cnt * ratio) + m)
             with ((v + m) + u64 (cnt * ratio)) by ring.
           rewrite u32_add_u64_r. f_equal. ring.
        -- rewrite (bool_decide_eq_false_2 _ E). f_equal.
Qed.

Lemma fillTopN_bucket (entries : list dataCount.t) :
  forall (m : gmap Z (list dataCount.t)) (h : Z),
    bucket (fillTopN Sum128 entries m) h
    = bucket m h
      ++ (rehashed
            <$> filter (fun e : dataCount.t =>
                          dataCount.data e <> None /\
                          (Sum128 (contents (dataCount.data e))).1 = h)
                  entries).
Proof.
  induction entries as [|e rest IH]; intros m h.
  - cbn [fillTopN]. now rewrite filter_nil, fmap_nil, app_nil_r.
  - cbn [fillTopN]. rewrite filter_cons.
    destruct (dataCount.data e) as [d|] eqn:Ed.
    + cbn [contents default] in *.
      destruct (Sum128 d) as [h1 h2] eqn:Eh. rewrite IH.
      destruct (decide (h1 = h)) as [->|Hne].
      * rewrite decide_True
          by (split; [discriminate|unfold id; now rewrite Eh]).
        unfold bucket at 1. rewrite lookup_insert_eq.
        cbn [default from_option id].
        rewrite fmap_cons, <- app_assoc. cbn [app]. f_equal. f_equal.
        unfold rehashed. rewrite Ed. simpl. now rewrite Eh.
      * rewrite decide_False.
        2:{ intros [_ H]. unfold id in H. rewrite Eh in H. now apply Hne. }
        unfold bucket at 1. now rewrite lookup_insert_ne.
    + rewrite decide_False by (intros [H _]; now apply H).
      apply IH.
Qed.

Lemma queryTopNLoop_found (h2 : Z) (d : option string)
    (l : list dataCount.t) (x : Z) :
  (exists e, e ∈ l /\ matches h2 d e = true) ->
  (forall e, e ∈ l -> matches h2 d e = true -> dataCount.count e = x) ->
  queryTopNLoop h2 d l = (x, true).
Proof.
  induction l as [|e l IH]; intros (e0 & Hin & Hm) Hall.
  - now apply elem_of_nil in Hin.
  - cbn [queryTopNLoop]. destruct (matches h2 d e) eqn:Em.
    + now rewrite (Hall e (list_elem_of_here _ _) Em).
    + apply IH.
      * apply elem_of_cons in Hin as [->|Hin]; [congruence|eauto].
      * intros e' He'. apply Hall. now apply list_elem_of_further.
Qed.

Lemma elem_of_heavyEntries (en : bool) (lastVal ratio : Z)
    (order : list (string * Z)) (e : dataCount.t) :
  e ∈ heavyEntries en lastVal ratio order <->
  exists key cnt,
    (key, cnt) ∈ order /\ en && (lastVal <=? cnt) = true /\
    e = dataCount.mk 0 0 (hack_Slice key) (u64 (cnt * ratio)).
Proof.
  unfold heavyEntries. rewrite list_elem_of_fmap. split.
  - intros ([key cnt] & -> & H). apply list_elem_of_filter in H as [Hh Hin].
    exists key, cnt. auto.
  - intros (key & cnt & Hin & Hh & ->). exists (key, cnt). split; [reflexivity|].
    apply list_elem_of_filter. auto.
Qed.

Lemma cellAt_replicate (d w i j : nat) :
  (i < d)%nat -> (j < w)%nat ->
  cellAt (replicate d (replicate w 0)) i j = Some 0.
Proof.
  intros Hi Hj. unfold cellAt.
  rewrite lookup_replicate_2 by assumption. simpl.
  now apply lookup_replicate_2.
Qed.

Lemma elem_of_order (order : list (string * Z)) (m : gmap string Z)
    (key : string) (cnt : Z) :
  order ≡ₚ map_to_list m -> ((key, cnt) ∈ order <-> m !! key = Some cnt).
Proof. intros H. rewrite H. apply elem_of_map_to_list. Qed.

(** What [buildCMSWithTopN] returns, sketch and helper: the sketch as in
    the routing theorem below; the helper is left with the scaled mass
    of the heavy hitters in [sumTopN] and, under [enableTopN], their
    number in [numTop]. *)
Lemma buildCMSWithTopN_spec (order : list (string * Z))
    (helper : topNHelper) (d w ratio : Z) :
  order ≡ₚ map_to_list (counter helper) ->
  0 <= d < 2 ^ 31 -> 1 <= w < 2 ^ 31 ->
  exists c helper',
    buildCMSWithTopN Sum128 hack_Slice order helper d w ratio
    = Done (c, helper') /\
    spec_enableTopN helper
    = bool_decide (sampleSize helper / 10 <= sumTopN helper) /\
    depth c = d /\ width c = w /\
    (topN c = None <-> spec_enableTopN helper = false) /\
    count c
    = u64 (spec_mass helper ratio
             (fun _ cnt => negb (spec_heavy helper cnt))) /\
    (forall i j : nat,
        Z.of_nat i < d -> Z.of_nat j < w ->
        cellAt (table c) i j
        = Some (u32 (spec_mass helper ratio
                       (fun key cnt =>
                          negb (spec_heavy helper cnt)
                          && bool_decide
                               (Z.of_nat j = spec_column Sum128 w key i))))) /\
    (forall (key : string) (cnt : Z),
        counter helper !! key = Some cnt ->
        spec_heavy helper cnt = true -> hack_Slice key <> None ->
        queryTopN c (Sum128 key).1 (Sum128 key).2 (Some key)
        = (u64 (cnt * ratio), true)) /\
    (forall (key : string) (cnt : Z),
        counter helper !! key = Some cnt ->
        spec_heavy helper cnt = false ->
        ~ topNMember Sum128 c (Some key)) /\
    sumTopN helper'
    = u64 (spec_mass helper ratio (fun _ cnt => spec_heavy helper cnt)) /\
    numTop helper'
    = (if spec_enableTopN helper then u32 (spec_topNSize helper)
       else numTop helper) /\
    sampleSize helper' = sampleSize helper /\
    onlyOnceItems helper' = onlyOnceItems helper /\
    sorted helper' = sorted helper.
Proof.
  intros Hperm Hd Hw. unfold buildCMSWithTopN.
  rewrite NewCMSketch_Done by lia. cbn [mbind exec_bind].
  set (c0 := mkCMSketch d w 0 0 _ None).
  change (sampleSize helper / topNThreshold <=? sumTopN helper)
    with (spec_enableTopN helper).
  remember (spec_enableTopN helper) as en eqn:Een.
  destruct (partitionCounters_spec en (lastVal helper) ratio order c0 [] 0)
    as (c' & Hrun & Ht' & Hd' & Hw' & Hdv' & Hc' & Hs' & Hl' & Hcell').
  { reflexivity. }
  { simpl. lia. }
  { subst c0. unfold shaped. simpl. apply Forall_replicate.
    rewrite length_replicate. lia. }
  { unfold is_u64. lia. }
  { simpl. unfold is_u64. lia. }
  { intros i j v H. subst c0. simpl in H. unfold cellAt in H.
    destruct (replicate (Z.to_nat d) _ !! i) as [row|] eqn:Er; [|discriminate].
    apply lookup_replicate in Er as [-> _]. simpl in H.
    apply lookup_replicate in H as [-> _]. unfold is_u32. lia. }
  rewrite Hrun. cbn [mbind exec_bind app]. clear Hrun.
  simpl in Hd', Hw', Hc', Hcell'. rewrite Z.add_0_l in Hc'.
  assert (Hcount : count c' = u64 (spec_mass helper ratio
                     (fun _ cnt => negb (spec_heavy helper cnt)))).
  { rewrite Hc'. subst en. f_equal. now apply massOf_Permutation. }
  assert (Hcells : forall i j : nat,
             Z.of_nat i < d -> Z.of_nat j < w ->
             cellAt (table c') i j
             = Some (u32 (spec_mass helper ratio
                            (fun key cnt =>
                               negb (spec_heavy helper cnt)
                               && bool_decide
                                    (Z.of_nat j
                                     = spec_column Sum128 w key i))))).
  { intros i j Hi Hj.
    rewrite (Hcell' i j 0) by (apply cellAt_replicate; lia).
    subst en. rewrite Z.add_0_l. f_equal. f_equal.
    now apply massOf_Permutation. }
  assert (Hsum : u64 (0 + massOf order ratio
                        (fun _ cnt => en && (lastVal helper <=? cnt)))
                 = u64 (spec_mass helper ratio
                          (fun _ cnt => spec_heavy helper cnt))).
  { subst en. rewrite Z.add_0_l. f_equal. now apply massOf_Permutation. }
  assert (Hen : en = bool_decide (sampleSize helper / 10 <= sumTopN helper)).
  { rewrite Een. unfold spec_enableTopN.
    destruct (Z.leb_spec (sampleSize helper / 10) (sumTopN helper)).
    - now rewrite bool_decide_eq_true_2.
    - rewrite bool_decide_eq_false_2; [reflexivity|lia]. }
  destruct en; cbn [negb].
  - eexists _, _. split; [reflexivity|]. cbn [numTop sumTopN sampleSize
      onlyOnceItems sorted set_topN depth width count table topN].
    split; [exact Hen|].
    split; [assumption|]. split; [assumption|].
    split; [split; discriminate|].
    split; [assumption|]. split; [assumption|].
    split; [|split; [|split; [assumption|split; [|auto]]]].
    + intros key cnt Hk Hh Hnil. unfold queryTopN, set_topN. cbn [topN].
      rewrite fillTopN_bucket. unfold bucket at 1.
      rewrite lookup_empty. cbn [default from_option app].
      apply queryTopNLoop_found.
      * exists (rehashed (dataCount.mk 0 0 (hack_Slice key)
                            (u64 (cnt * ratio)))).
        split.
        -- apply list_elem_of_fmap. eexists. split; [reflexivity|].
           apply list_elem_of_filter. cbn [dataCount.data]. split.
           ++ split; [assumption|]. now rewrite hack_Slice_contents.
           ++ apply elem_of_heavyEntries. exists key, cnt.
              split; [now apply (elem_of_order order (counter helper))|].
              split; [|reflexivity].
              unfold spec_heavy in Hh. now rewrite <- Een in Hh.
        -- apply matches_true. unfold rehashed. cbn [dataCount.h2
             dataCount.data]. rewrite hack_Slice_contents. auto.
      * intros e' He' Hm. apply list_elem_of_fmap in He' as (e & -> & He).
        apply list_elem_of_filter in He as [_ He].
        apply elem_of_heavyEntries in He as (key' & cnt' & Hin & _ & ->).
        apply matches_true in Hm as [_ Hm]. unfold rehashed in Hm |- *.
        cbn [dataCount.data dataCount.count] in Hm |- *.
        rewrite hack_Slice_contents in Hm. simpl in Hm. subst key'.
        apply (elem_of_order order (counter helper)) in Hin; [|assumption].
        congruence.
    + intros key cnt Hk Hh (m & e & Hm & He & _ & Hdata).
      unfold set_topN in Hm. cbn [topN] in Hm. injection Hm as <-.
      rewrite fillTopN_bucket in He. unfold bucket at 1 in He.
      rewrite lookup_empty in He. cbn [default from_option app] in He.
      apply list_elem_of_fmap in He as (e0 & -> & He).
      apply list_elem_of_filter in He as [_ He].
      apply elem_of_heavyEntries in He as (key' & cnt' & Hin & Hh' & ->).
      unfold rehashed in Hdata. cbn [dataCount.data] in Hdata.
      rewrite hack_Slice_contents in Hdata. simpl in Hdata. subst key'.
      apply (elem_of_order order (counter helper)) in Hin; [|assumption].
      assert (cnt' = cnt) by congruence. subst cnt'.
      unfold spec_heavy in Hh. rewrite <- Een in Hh. congruence.
    + f_equal. unfold spec_topNSize, heavyEntries.
      rewrite length_fmap. f_equal.
      unfold spec_heavy. rewrite <- Een.
      apply Permutation_length. now rewrite Hperm.
  - eexists _, _. split; [reflexivity|]. cbn [numTop sumTopN sampleSize
      onlyOnceItems sorted].
    split; [exact Hen|].
    split; [assumption|]. split; [assumption|].
    split; [split; auto|].
    split; [assumption|]. split; [assumption|].
    split; [|split; [|split; [assumption|auto]]].
    + intros key cnt _ Hh. unfold spec_heavy in Hh.
      rewrite <- Een in Hh. discriminate.
    + intros key cnt _ _ (m & e & Hm & _). congruence.
Qed.

(** A key whose slice is nil is never a member of the index that
    [buildCMSWithTopN] builds: the second loop skips the entries whose
    data is nil. *)
Lemma buildCMSWithTopN_skips_nil (order : list (string * Z))
    (helper : topNHelper) (d w ratio : Z) (c : CMSketch)
    (helper' : topNHelper) :
  0 <= d < 2 ^ 31 -> 1 <= w < 2 ^ 31 ->
  buildCMSWithTopN Sum128 hack_Slice order helper d w ratio
  = Done (c, helper') ->
  forall key : string,
    hack_Slice key = None -> ~ topNMember Sum128 c (Some key).
Proof.
  intros Hd Hw Hrun key Hnil (m & e & Hm & He & _ & Hdata).
  unfold buildCMSWithTopN in Hrun.
  rewrite NewCMSketch_Done in Hrun by lia. cbn [mbind exec_bind] in Hrun.
  set (c0 := mkCMSketch d w 0 0 _ None) in Hrun.
  remember (sampleSize helper / topNThreshold <=? sumTopN helper) as en
    eqn:Een.
  destruct (partitionCounters_spec en (lastVal helper) ratio order c0 [] 0)
    as (c' & Hp & Ht' & _).
  { reflexivity. }
  { simpl. lia. }
  { subst c0. unfold shaped. simpl. apply Forall_replicate.
    rewrite length_replicate. lia. }
  { unfold is_u64. lia. }
  { simpl. unfold is_u64. lia. }
  { intros i j v H. subst c0. simpl in H. unfold cellAt in H.
    destruct (replicate (Z.to_nat d) _ !! i) as [row|] eqn:Er; [|discriminate].
    apply lookup_replicate in Er as [-> _]. simpl in H.
    apply lookup_replicate in H as [-> _]. unfold is_u32. lia. }
  rewrite Hp in Hrun. cbn [mbind exec_bind app] in Hrun.
  destruct en; cbn [negb] in Hrun; injection Hrun as <- _.
  - unfold set_topN in Hm. cbn [topN] in Hm. injection Hm as <-.
    rewrite fillTopN_bucket in He. unfold bucket at 1 in He.
    rewrite lookup_empty in He. cbn [default from_option app] in He.
    apply list_elem_of_fmap in He as (e0 & -> & He).
    apply list_elem_of_filter in He as [[Hsome _] He].
    apply elem_of_heavyEntries in He as (key' & cnt' & _ & _ & ->).
    unfold rehashed in Hdata. cbn [dataCount.data] in Hdata, Hsome.
    rewrite hack_Slice_contents in Hdata. simpl in Hdata. subst key'.
    contradiction.
  - congruence.
Qed.

(** C4.  [buildCMSWithTopN], whatever the order in which the frequency
    map is visited: [enableTopN] is [(S / 10) <= sumTopN]; without it no
    Top-N index is built; the count and every cell of the table hold the
    mass [cnt * ratio] of the keys that are not heavy hitters (all keys
    when [enableTopN] is false), a key adding to the cell of its column
    in every row; every key with [cnt >= lastVal] under [enableTopN],
    its slice not being nil, is found in the Top-N index with the exact
    count [cnt * ratio], and no other sampled key is a member of it: not
    a key with [cnt < lastVal], and not a key whose slice is nil, which
    the second loop skips. *)
Theorem buildCMSWithTopN_routes (order : list (string * Z))
    (helper : topNHelper) (d w ratio : Z) :
  order ≡ₚ map_to_list (counter helper) ->
  0 <= d < 2 ^ 31 -> 1 <= w < 2 ^ 31 ->
  exists c helper',
    buildCMSWithTopN Sum128 hack_Slice order helper d w ratio
    = Done (c, helper') /\
    spec_enableTopN helper
    = bool_decide (sampleSize helper / 10 <= sumTopN helper) /\
    depth c = d /\ width c = w /\
    (topN c = None <-> spec_enableTopN helper = false) /\
    count c
    = u64 (spec_mass helper ratio
             (fun _ cnt => negb (spec_heavy helper cnt))) /\
    (forall i j : nat,
        Z.of_nat i < d -> Z.of_nat j < w ->
        cellAt (table c) i j
        = Some (u32 (spec_mass helper ratio
                       (fun key cnt =>
                          negb (spec_heavy helper cnt)
                          && bool_decide
                               (Z.of_nat j = spec_column Sum128 w key i))))) /\
    (forall (key : string) (cnt : Z),
        counter helper !! key = Some cnt ->
        spec_heavy helper cnt = true -> hack_Slice key <> None ->
        queryTopN c (Sum128 key).1 (Sum128 key).2 (Some key)
        = (u64 (cnt * ratio), true)) /\
    (forall (key : string) (cnt : Z),
        counter helper !! key = Some cnt ->
        spec_heavy helper cnt = false ->
        ~ topNMember Sum128 c (Some key)) /\
    (forall key : string,
        hack_Slice key = None -> ~ topNMember Sum128 c (Some key)).
Proof.
  intros Hperm Hd Hw.
  destruct (buildCMSWithTopN_spec order helper d w ratio Hperm Hd Hw)
    as (c & helper' & Hrun & Hen & Hdepth & Hwidth & Htop & Hcount & Hcells
        & Hheavy & Hlight & _).
  exists c, helper'. repeat split; try assumption; try apply Htop.
  exact (buildCMSWithTopN_skips_nil order helper d w ratio c helper'
           Hd Hw Hrun).
Qed.

(** C5.  [NewCMSketchWithTopN] on a sample of fewer than 2^31 keys
    returns a sketch whose [defaultValue] is the first matching line of:
    1 if [rowCount <= scaledTopN]; 1 if [estimateNDV <= numTop]; 1 if
    [estimateNDV + onlyOnce <= sampleNDV]; otherwise
    [(rowCount - (S - onlyOnce)*ratio) / (estimateNDV - sampleNDV +
    onlyOnce)].  [scaledTopN] is the scaled mass of the heavy hitters,
    [numTop] their number when the Top-N index is built, [S] the sample
    size, [onlyOnce] the number of keys sampled once, [sampleNDV] the
    number of distinct keys; [estimateNDV] and [ratio] are what
    [calculateEstimateNDV] returns. *)
Theorem NewCMSketchWithTopN_defaultValue (order : list (string * Z))
    (d w : Z) (data : list (option string)) (numTop0 rowCount : Z) :
  Z.of_nat (length data) < 2 ^ 31 -> 0 <= numTop0 ->
  order ≡ₚ map_to_list (countSamples data) ->
  0 <= d < 2 ^ 31 -> 1 <= w < 2 ^ 31 ->
  exists helper c,
    newTopNHelper data numTop0 = Done helper /\
    NewCMSketchWithTopN Sum128 hack_Slice calculateEstimateNDV order d w
      data numTop0 rowCount = Done c /\
    let estimateNDV := (calculateEstimateNDV helper rowCount).1 in
    let ratio := (calculateEstimateNDV helper rowCount).2 in
    let cnts := (map_to_list (countSamples data)).*2 in
    let S := Z.of_nat (length data) in
    let onlyOnce :=
      Z.of_nat (length (filter (fun cnt : Z => cnt = 1) cnts)) in
    let sampleNDV := Z.of_nat (size (countSamples data)) in
    let scaledTopN :=
      u64 (spec_mass helper ratio (fun _ cnt => spec_heavy helper cnt)) in
    let numTop :=
      if spec_enableTopN helper then u32 (spec_topNSize helper)
      else Z.min sampleNDV numTop0 in
    defaultValue c
    = spec_defaultValue rowCount scaledTopN estimateNDV numTop onlyOnce
        sampleNDV S ratio.
Proof.
  intros Hlen Hn Hperm Hd Hw.
  destruct (newTopNHelper_Done data numTop0 Hlen Hn)
    as (last & sum & Hnew & _).
  match type of Hnew with _ = Done ?h => set (helper := h) in * end.
  exists helper. unfold NewCMSketchWithTopN. rewrite Hnew.
  cbn [mbind exec_bind].
  destruct (calculateEstimateNDV helper rowCount) as [estimateNDV ratio].
  destruct (buildCMSWithTopN_spec order helper d w ratio Hperm Hd Hw)
    as (c1 & helper' & Hrun & _ & _ & _ & _ & _ & _ & _ & _
        & Hsum & Hnum & Hss & Hoo & Hsorted).
  rewrite Hrun. cbn [mbind exec_bind].
  rewrite calculateDefaultVal_spec.
  eexists. split; [reflexivity|]. split; [reflexivity|].
  cbv zeta. cbn [fst snd defaultValue set_defaultValue].
  rewrite Hsum, Hnum, Hss, Hoo, Hsorted.
  assert (Hsl : length (sorted helper) = size (countSamples data)).
  { unfold helper, sorted, sort_desc. rewrite merge_sort_Permutation.
    now rewrite length_fmap, length_map_to_list. }
  pose proof (countSamples_size data) as Hsize.
  rewrite Hsl.
  rewrite (u64_id (Z.of_nat (size (countSamples data))))
    by (unfold is_u64; lia).
  replace (numTop helper)
    with (Z.min (Z.of_nat (size (countSamples data))) numTop0)
    by (rewrite <- Hsl; reflexivity).
  reflexivity.
Qed.

Lemma QueryBytes_width_one (depth : Z) (d : option string) :
  1 <= depth < 2 ^ 31 ->
  exists c, NewCMSketch depth 1 = Done c /\
            QueryBytes Sum128 c d = Crash DivideByZero.
Proof.
  intros Hd. eexists. split; [apply NewCMSketch_Done; lia|].
  unfold QueryBytes, queryTopN. simpl.
  destruct (Sum128 (contents d)) as [h1 h2].
  unfold queryHashValue. cbn [Sketch.depth table].
  rewrite make_Done by lia. cbn [mbind exec_bind].
  destruct (Z.to_nat depth) as [|n] eqn:En; [lia|].
  cbn [replicate queryRows].
  change (replicate (Pos.to_nat 1) 0) with [0].
  now rewrite queryRow_width_one.
Qed.

(** C10.  The noise term of [queryHashValue] divides by [width - 1]
    once per row.  On every well-formed sketch of depth at least 1 and
    width at least 2 that divisor is not zero and [QueryBytes] returns a
    value for every key; [NewCMSketch(d, 1)] succeeds for every depth
    [d >= 1] and on the sketch it returns [QueryBytes] stops with a
    division by zero for every key. *)
Theorem QueryBytes_noise_divisor :
  (forall (c : CMSketch) (d : option string),
      wf c -> 1 <= depth c -> 2 <= width c ->
      u64 (u64 (width c) - 1) <> 0 /\
      exists v, QueryBytes Sum128 c d = Done v)
  /\ (forall (depth : Z) (d : option string),
        1 <= depth < 2 ^ 31 ->
        exists c, NewCMSketch depth 1 = Done c /\ width c = 1 /\
                  u64 (u64 (width c) - 1) = 0 /\
                  QueryBytes Sum128 c d = Crash DivideByZero).
Proof.
  split.
  - intros c d Hwf Hd Hw. split.
    + pose proof (wf_width32 c Hwf).
      rewrite (u64_id (width c)) by (unfold is_u64; lia).
      rewrite u64_id by (unfold is_u64; lia). lia.
    + unfold QueryBytes.
      destruct (Sum128 (contents d)) as [h1 h2].
      destruct (queryTopN c h1 h2 d) as [cnt [|]]; [now eexists|].
      eexists. now apply queryHashValue_spec.
  - intros depth d Hd.
    destruct (QueryBytes_width_one depth d Hd) as (c & Hc & Hq).
    exists c. split; [assumption|].
    rewrite NewCMSketch_Done in Hc by lia. injection Hc as <-.
    simpl in *. repeat split. exact Hq.
Qed.

(** *** Inserting a member of the Top-N index *)

Lemma updateTopNLoop_found (h2 delta : Z) (d : option string)
    (l : list dataCount.t) :
  (exists e, e ∈ l /\ matches h2 d e = true) ->
  updateTopNLoop h2 delta d l = true.
Proof.
  induction l as [|e l IH]; intros (e0 & Hin & Hm).
  - now apply elem_of_nil in Hin.
  - cbn [updateTopNLoop]. destruct (matches h2 d e) eqn:Em; [reflexivity|].
    apply IH. apply elem_of_cons in Hin as [->|Hin]; [congruence|eauto].
Qed.

(** On a member of the Top-N index [updateBytesWithDelta] returns with
    the sketch as it was, the stored count included: the loop of
    [updateTopNWithDelta] adds the delta to a copy of the entry. *)
Lemma updateBytesWithDelta_member (c : CMSketch) (d : option string) (n : Z) :
  topNMember Sum128 c d -> updateBytesWithDelta Sum128 c d n = Done c.
Proof.
  intros (m & e & Hm & He & Hh2 & Hdata).
  unfold updateBytesWithDelta, updateTopNWithDelta.
  destruct (Sum128 (contents d)) as [h1 h2]. cbn [fst snd] in *.
  rewrite Hm. rewrite updateTopNLoop_found; [reflexivity|].
  exists e. split; [assumption|]. apply matches_true. auto.
Qed.

(** C2 on this revision.  A sketch of one row whose Top-N index holds
    the key ["a"] with exact count 5: inserting the key with delta 1
    leaves the whole sketch as it was, the stored count included, and the
    next [QueryBytes] of the key returns 5. *)
Theorem InsertBytes_member_count_kept :
  let key := Some "a"%string in
  let h := Sum128 "a" in
  let c := mkCMSketch 1 2 0 0 [[0; 0]]
             (Some {[ h.1 := [dataCount.mk h.1 h.2 key 5] ]}) in
  topNMember Sum128 c key /\
  InsertBytes Sum128 c key = Done c /\
  QueryBytes Sum128 c key = Done 5.
Proof.
  intros key h c. subst key h c. split; [|split].
  - eexists _, _. simpl. split; [reflexivity|].
    unfold bucket. rewrite lookup_singleton_eq. simpl.
    split; [apply list_elem_of_here|]. split; reflexivity.
  - unfold InsertBytes, updateBytesWithDelta. simpl.
    destruct (Sum128 "a") as [h1 h2]. simpl.
    unfold updateTopNWithDelta, bucket. simpl.
    rewrite lookup_singleton_eq. simpl.
    unfold matches. simpl. rewrite Z.eqb_refl. reflexivity.
  - unfold QueryBytes. simpl.
    destruct (Sum128 "a") as [h1 h2]. simpl.
    unfold queryTopN, bucket. simpl.
    rewrite lookup_singleton_eq. simpl.
    unfold matches. simpl. rewrite Z.eqb_refl. reflexivity.
Qed.

End WithHash.

End SketchProps.

(** * Laws of the counting table *)

Module SketchLaws.
Import Sketch.

(** ** Tables cell by cell *)

Lemma cellAt_Some_lt (t : list (list Z)) (w : Z) (i j : nat) (v : Z) :
  shaped w t -> cellAt t i j = Some v ->
  (i < length t)%nat /\ Z.of_nat j < w.
Proof.
  intros Hs H. unfold cellAt in H.
  destruct (t !! i) as [row|] eqn:Er; [|discriminate]. simpl in H.
  split; [eapply lookup_lt_Some, Er|].
  unfold shaped in Hs. rewrite Forall_lookup in Hs.
  specialize (Hs _ _ Er). simpl in Hs.
  apply lookup_lt_Some in H. lia.
Qed.

Lemma cellAt_is_Some (t : list (list Z)) (w : Z) (i j : nat) :
  shaped w t -> (i < length t)%nat -> Z.of_nat j < w ->
  exists v, cellAt t i j = Some v.
Proof.
  intros Hs Hi Hj. unfold cellAt.
  destruct (lookup_lt_is_Some_2 t i Hi) as [row Er]. rewrite Er. simpl.
  unfold shaped in Hs. rewrite Forall_lookup in Hs.
  specialize (Hs _ _ Er). simpl in Hs.
  apply lookup_lt_is_Some_2. lia.
Qed.

(** Two tables of the same shape with the same cells are the same. *)
Lemma table_ext (w : Z) (t t' : list (list Z)) :
  shaped w t -> shaped w t' -> length t = length t' ->
  (forall i j : nat, cellAt t i j = cellAt t' i j) -> t = t'.
Proof.
  intros Hs Hs' Hlen H. apply list_eq. intros i.
  destruct (t !! i) as [row|] eqn:Er.
  - destruct (lookup_lt_is_Some_2 t' i) as [row' Er'].
    { rewrite <- Hlen. eapply lookup_lt_Some, Er. }
    rewrite Er'. f_equal. apply list_eq. intros j.
    specialize (H i j). unfold cellAt in H. now rewrite Er, Er' in H.
  - symmetry. apply lookup_ge_None. rewrite <- Hlen.
    now apply lookup_ge_None.
Qed.

Lemma cells32_Forall (t : list (list Z)) :
  cells32 t <-> Forall (Forall is_u32) t.
Proof.
  unfold cells32, cellAt. split.
  - intros H. apply Forall_lookup. intros i row Er.
    apply Forall_lookup. intros j v Ev. apply (H i j v).
    now rewrite Er.
  - intros H i j v Hv.
    destruct (t !! i) as [row|] eqn:Er; [|discriminate]. simpl in Hv.
    rewrite Forall_lookup in H. specialize (H _ _ Er).
    rewrite Forall_lookup in H. exact (H _ _ Hv).
Qed.

Lemma cellAt_zip_with (f : Z -> Z -> Z) (t t' : list (list Z)) (i j : nat) :
  cellAt (zip_with (zip_with f) t t') i j
  = match cellAt t i j, cellAt t' i j with
    | Some a, Some b => Some (f a b)
    | _, _ => None
    end.
Proof.
  unfold cellAt. rewrite lookup_zip_with.
  destruct (t !! i) as [row|]; simpl; [|reflexivity].
  destruct (t' !! i) as [row'|]; simpl.
  - rewrite lookup_zip_with.
    destruct (row !! j); simpl; [|reflexivity].
    now destruct (row' !! j).
  - now destruct (row !! j).
Qed.

Lemma shaped_zip_with (f : Z -> Z -> Z) (w : Z) (t t' : list (list Z)) :
  shaped w t -> shaped w t' ->
  shaped w (zip_with (zip_with f) t t').
Proof.
  unfold shaped. intros Hs Hs'. apply Forall_lookup. intros i row H.
  rewrite lookup_zip_with in H.
  destruct (t !! i) as [r|] eqn:Er; [|discriminate]. simpl in H.
  destruct (t' !! i) as [r'|] eqn:Er'; [|discriminate]. simpl in H.
  injection H as <-.
  rewrite Forall_lookup in Hs, Hs'.
  specialize (Hs _ _ Er). specialize (Hs' _ _ Er'). simpl in *.
  rewrite length_zip_with. lia.
Qed.

Lemma wf_shaped (c : CMSketch) : wf c -> shaped (width c) (table c).
Proof. intros H. exact (wf_rows c H). Qed.

(** ** New sketches *)

(** [NewCMSketch(d, w)] with [d] and [w] not negative returns a sketch
    of [d] rows of [w] zeros, with count 0, no default value and no
    Top-N index, well formed when the dimensions fit int32; with [d = 0]
    the width is not looked at.  A negative [d], or a negative [w] with
    [d > 0], makes [make] panic. *)
Theorem NewCMSketch_spec (d w : Z) :
  (0 <= d -> 0 <= w \/ d = 0 ->
   NewCMSketch d w
   = Done (mkCMSketch d w 0 0
             (replicate (Z.to_nat d) (replicate (Z.to_nat w) 0)) None) /\
   (d < 2 ^ 31 -> 0 <= w < 2 ^ 31 ->
    wf (mkCMSketch d w 0 0
          (replicate (Z.to_nat d) (replicate (Z.to_nat w) 0)) None)))
  /\ (d < 0 -> NewCMSketch d w = Crash LenOutOfRange)
  /\ (0 < d -> w < 0 -> NewCMSketch d w = Crash LenOutOfRange).
Proof.
  split; [|split].
  - intros Hd Hw. split.
    + destruct Hw as [Hw|Hd0]; [now apply SketchProps.NewCMSketch_Done|].
      subst d. reflexivity.
    + intros Hd32 Hw32.
      apply (SketchProps.NewCMSketch_wf d w); [lia|lia|].
      apply SketchProps.NewCMSketch_Done; lia.
  - intros Hd. unfold NewCMSketch, make.
    destruct (Z.ltb_spec d 0); [reflexivity|lia].
  - intros Hd Hw. unfold NewCMSketch. rewrite make_Done by lia.
    cbn [mbind exec_bind].
    destruct (Z.to_nat d) as [|n] eqn:En; [lia|].
    cbn [replicate makeRows]. unfold make at 1.
    destruct (Z.ltb_spec w 0); [reflexivity|lia].
Qed.

Section WithHash.

Variable Sum128 : string -> Z * Z.

(** ** Inserting a key that is not in the Top-N index *)

Lemma updateTopNLoop_miss (h2 delta : Z) (d : option string)
    (l : list dataCount.t) :
  (forall e, e ∈ l -> matches h2 d e = false) ->
  updateTopNLoop h2 delta d l = false.
Proof.
  induction l as [|e l IH]; intros H; [reflexivity|].
  cbn [updateTopNLoop]. rewrite H by apply list_elem_of_here.
  apply IH. intros e' He'. apply H. now apply list_elem_of_further.
Qed.

Lemma updateTopNWithDelta_miss (c : CMSketch) (d : option string) (n : Z) :
  ~ topNMember Sum128 c d ->
  updateTopNWithDelta c (Sum128 (contents d)).1 (Sum128 (contents d)).2 n d
  = (c, false).
Proof.
  intros Hn. unfold updateTopNWithDelta.
  destruct (topN c) as [m|] eqn:Em; [|reflexivity].
  rewrite updateTopNLoop_miss; [reflexivity|].
  intros e He. destruct (matches _ d e) eqn:E; [|reflexivity].
  exfalso. apply Hn. apply SketchProps.matches_true in E as [? ?].
  exists m, e. auto.
Qed.

(** What an insertion into the table does, cell by cell. *)
Lemma updateBytesWithDelta_run (c : CMSketch) (bytes : option string)
    (n : Z) :
  wf c -> 1 <= width c -> ~ topNMember Sum128 c bytes ->
  exists tbl,
    updateBytesWithDelta Sum128 c bytes n
    = Done (mkCMSketch (depth c) (width c) (u64 (count c + n))
              (defaultValue c) tbl (topN c)) /\
    shaped (width c) tbl /\ length tbl = length (table c) /\
    forall (i j : nat) (v : Z),
      cellAt (table c) i j = Some v ->
      cellAt tbl i j
      = Some (if decide (Z.of_nat j
                         = spec_column Sum128 (width c) (contents bytes) i)
              then u32 (v + n) else v).
Proof.
  intros Hwf Hw Hn. unfold updateBytesWithDelta, spec_column.
  pose proof (updateTopNWithDelta_miss c bytes n Hn) as Hmiss.
  destruct (Sum128 (contents bytes)) as [h1 h2]. cbn [fst snd] in *.
  rewrite Hmiss. cbn [set_count width table].
  pose proof (wf_width32 c Hwf) as Hw32.
  destruct (addRows_cells (width c) h1 h2 (u32 n) ltac:(lia) (table c) 0
              (wf_shaped c Hwf))
    as (rows' & Hrun & Hs' & Hlen & Hcells).
  rewrite Hrun. cbn [mbind exec_bind].
  exists rows'. split; [reflexivity|]. split; [assumption|].
  split; [assumption|].
  intros i j v H. rewrite (Hcells _ _ _ H). simpl.
  now rewrite u32_add_idemp_r.
Qed.

Lemma updateBytesWithDelta_cells (c : CMSketch) (bytes : option string)
    (n : Z) :
  wf c -> 1 <= width c -> ~ topNMember Sum128 c bytes ->
  exists tbl,
    updateBytesWithDelta Sum128 c bytes n
    = Done (mkCMSketch (depth c) (width c) (u64 (count c + n))
              (defaultValue c) tbl (topN c)) /\
    wf (mkCMSketch (depth c) (width c) (u64 (count c + n))
          (defaultValue c) tbl (topN c)) /\
    forall (i j : nat) (v : Z),
      cellAt (table c) i j = Some v ->
      cellAt tbl i j
      = Some (if decide (Z.of_nat j
                         = spec_column Sum128 (width c) (contents bytes) i)
              then u32 (v + n) else v).
Proof.
  intros Hwf Hw Hn.
  destruct (updateBytesWithDelta_run c bytes n Hwf Hw Hn)
    as (tbl & Hrun & Hs & Hlen & Hcells).
  exists tbl. split; [exact Hrun|]. split; [|exact Hcells].
  constructor; cbn [depth width defaultValue topN count table].
  - rewrite Hlen. apply (wf_depth c Hwf).
  - exact Hs.
  - apply cells32_Forall. intros i j v' Hv'.
    destruct (cellAt_shaped_ex (width c) (table c) tbl i j v'
                (wf_shaped c Hwf) Hs Hlen Hv') as [v Hv].
    rewrite (Hcells _ _ _ Hv) in Hv'. injection Hv' as <-.
    destruct (decide _); [apply u32_range|].
    pose proof (wf_cells c Hwf) as Hc. apply cells32_Forall in Hc.
    exact (Hc _ _ _ Hv).
  - apply u64_range.
  - apply (wf_defaultValue c Hwf).
  - apply (wf_depth32 c Hwf).
  - apply (wf_width32 c Hwf).
Qed.

(** Inserting a key that is not a member of the Top-N index adds [n] to
    [count] (uint64) and, in every row, to the cell of the key's column
    (uint32); every other cell, the dimensions, the default value and
    the Top-N index are kept, and the sketch stays well formed. *)
Theorem updateBytesWithDelta_miss (c : CMSketch) (bytes : option string)
    (n : Z) :
  wf c -> 1 <= width c -> ~ topNMember Sum128 c bytes ->
  exists c',
    updateBytesWithDelta Sum128 c bytes n = Done c' /\ wf c' /\
    depth c' = depth c /\ width c' = width c /\
    defaultValue c' = defaultValue c /\ topN c' = topN c /\
    count c' = u64 (count c + n) /\
    forall (i j : nat) (v : Z),
      cellAt (table c) i j = Some v ->
      cellAt (table c') i j
      = Some (if decide (Z.of_nat j
                         = spec_column Sum128 (width c) (contents bytes) i)
              then u32 (v + n) else v).
Proof.
  intros Hwf Hw Hn.
  destruct (updateBytesWithDelta_cells c bytes n Hwf Hw Hn)
    as (tbl & Hrun & Hwf' & Hcells).
  eexists. split; [exact Hrun|]. split; [exact Hwf'|].
  cbn [depth width defaultValue topN count table]. repeat split. exact Hcells.
Qed.

(** ** What a query can return *)

Lemma foldr_min_elem (l : list Z) (x y : Z) :
  y ∈ l -> foldr Z.min x l <= y.
Proof.
  induction l as [|z l IH]; intros H.
  - now apply elem_of_nil in H.
  - apply elem_of_cons in H as [->|H]; simpl; [lia|].
    specialize (IH H). lia.
Qed.

Lemma spec_min_le (cells : list Z) (y : Z) :
  y ∈ cells -> spec_min cells <= y.
Proof.
  destruct cells as [|x l]; intros H.
  - now apply elem_of_nil in H.
  - simpl. apply elem_of_cons in H as [->|H].
    + apply foldr_min_le.
    + now apply foldr_min_elem.
Qed.

Lemma spec_cells_lookup (c : CMSketch) (h1 h2 : Z) (i : nat) (v : Z) :
  wf c -> 1 <= width c ->
  cellAt (table c) i (Z.to_nat (u64 (h1 + Z.of_nat i * h2) mod width c))
  = Some v ->
  spec_cells c h1 h2 !! i = Some v.
Proof.
  intros Hwf Hw H. unfold spec_cells, cellAt in *.
  rewrite list_lookup_imap.
  destruct (table c !! i) as [row|]; [|discriminate]. simpl in *.
  f_equal. now apply list_lookup_total_correct.
Qed.

(** The estimate of a key that is not in the Top-N index is never
    negative and, unless it is the default value, never exceeds a cell
    read for the key. *)
Theorem QueryBytes_capped (c : CMSketch) (d : option string) :
  wf c -> 1 <= depth c -> 2 <= width c -> ~ topNMember Sum128 c d ->
  exists r,
    QueryBytes Sum128 c d = Done r /\ 0 <= r /\
    (r = defaultValue c \/
     forall (i : nat) (v : Z),
       cellAt (table c) i
         (Z.to_nat (spec_column Sum128 (width c) (contents d) i))
       = Some v ->
       r <= v).
Proof.
  intros Hwf Hd Hw Hn.
  rewrite (SketchProps.QueryBytes_table_estimate Sum128 c d Hwf Hd Hw Hn).
  eexists. split; [reflexivity|].
  unfold spec_queryHashValue, spec_column.
  destruct (Sum128 (contents d)) as [h1 h2]. cbn [fst snd].
  set (cells := spec_cells c h1 h2).
  set (vs := sort_asc (spec_estimate c <$> cells)).
  set (lo := vs !!! Z.to_nat ((depth c - 1) / 2)).
  set (hi := vs !!! Z.to_nat (depth c / 2)).
  pose proof (wf_defaultValue c Hwf) as Hdv. unfold is_u64 in Hdv.
  assert (Hcells : Forall is_u32 cells)
    by (apply SketchProps.spec_cells_range; [assumption|lia]).
  assert (Hlen : length vs = length (table c)).
  { unfold vs, sort_asc. rewrite merge_sort_Permutation, length_fmap.
    apply SketchProps.spec_cells_length. }
  pose proof (wf_depth c Hwf) as Hdep.
  assert (Hvs : Forall (fun x => 0 <= x) vs).
  { unfold vs, sort_asc. rewrite merge_sort_Permutation.
    apply Forall_fmap, Forall_true. intros x. unfold spec_estimate. simpl.
    lia. }
  assert (Hsorted : Sorted Z.le vs).
  { unfold vs, sort_asc. apply (Sorted_merge_sort Z.le). }
  assert (Hlo : vs !! Z.to_nat ((depth c - 1) / 2) = Some lo).
  { apply list_lookup_lookup_total_lt.
    assert ((depth c - 1) / 2 < depth c) by (apply Z.div_lt_upper_bound; lia).
    assert (0 <= (depth c - 1) / 2) by (apply Z.div_pos; lia). lia. }
  assert (Hhi : vs !! Z.to_nat (depth c / 2) = Some hi).
  { apply list_lookup_lookup_total_lt.
    assert (depth c / 2 < depth c) by (apply Z.div_lt_upper_bound; lia).
    assert (0 <= depth c / 2) by (apply Z.div_pos; lia). lia. }
  assert (Hle : lo <= hi).
  { eapply Sorted_le_lookup; [exact Hsorted| |exact Hlo|exact Hhi].
    apply Z2Nat.inj_le; [apply Z.div_pos; lia|apply Z.div_pos; lia|].
    apply Z.div_le_mono; lia. }
  assert (Hlo0 : 0 <= lo).
  { rewrite Forall_lookup in Hvs. exact (Hvs _ _ Hlo). }
  assert (Hmin0 : 0 <= spec_min cells).
  { destruct cells as [|x l] eqn:Ec.
    - unfold spec_min, MaxUint32. lia.
    - simpl. apply Forall_cons in Hcells as [Hx Hl].
      clear - Hx Hl. unfold is_u32 in *.
      induction Hl as [|y l Hy Hl IH]; simpl; lia. }
  assert (Hhalf : 0 <= (hi - lo) / 2) by (apply Z.div_pos; lia).
  destruct ((_ <? _) && (0 <? defaultValue c)).
  - split; [lia|]. now left.
  - split; [lia|]. right. intros i v Hv.
    apply (spec_cells_lookup c h1 h2 i v Hwf ltac:(lia)) in Hv.
    fold cells in Hv.
    pose proof (spec_min_le cells v (list_elem_of_lookup_2 _ _ _ Hv)). lia.
Qed.

(** ** A key inserted into a new sketch *)

Lemma Forall_eq_replicate (l : list Z) (v : Z) :
  Forall (fun x => x = v) l -> l = replicate (length l) v.
Proof.
  induction 1 as [|x l Hx _ IH]; [reflexivity|].
  simpl. now rewrite Hx, <- IH.
Qed.

Lemma spec_min_replicate (n : nat) (v : Z) :
  spec_min (replicate (S n) v) = v.
Proof.
  simpl. induction n as [|n IH]; simpl; [reflexivity|]. rewrite IH. lia.
Qed.

Lemma spec_column_range (w : Z) (key : string) (i : nat) :
  1 <= w -> 0 <= spec_column Sum128 w key i < w.
Proof. intros Hw. unfold spec_column. apply Z.mod_pos_bound. lia. Qed.

(** When every cell read for a key holds [v] and the rest of the count
    is less than [width - 1], the estimate is [v]. *)
Lemma QueryBytes_exact (c : CMSketch) (d : option string) (v : Z) :
  wf c -> 1 <= depth c -> 2 <= width c -> ~ topNMember Sum128 c d ->
  defaultValue c = 0 ->
  (forall i : nat,
      Z.of_nat i < depth c ->
      cellAt (table c) i
        (Z.to_nat (spec_column Sum128 (width c) (contents d) i))
      = Some v) ->
  u64 (count c - v) < width c - 1 ->
  QueryBytes Sum128 c d = Done v.
Proof.
  intros Hwf Hd Hw Hn Hdv Hcell Hnoise.
  rewrite (SketchProps.QueryBytes_table_estimate Sum128 c d Hwf Hd Hw Hn).
  f_equal. unfold spec_queryHashValue. unfold spec_column in Hcell.
  destruct (Sum128 (contents d)) as [h1 h2]. cbn [fst snd] in *.
  pose proof (wf_depth c Hwf) as Hdep.
  set (len := length (table c)) in *.
  assert (Hcells : spec_cells c h1 h2 = replicate len v).
  { replace len with (length (spec_cells c h1 h2))
      by apply SketchProps.spec_cells_length.
    apply Forall_eq_replicate, Forall_lookup. intros i x Hx.
    assert (Hi : (i < len)%nat).
    { unfold len. rewrite <- (SketchProps.spec_cells_length c h1 h2).
      eapply lookup_lt_Some, Hx. }
    rewrite (spec_cells_lookup c h1 h2 i v Hwf ltac:(lia)) in Hx
      by (apply Hcell; lia).
    congruence. }
  assert (Hv : is_u32 v).
  { pose proof (SketchProps.spec_cells_range c h1 h2 Hwf ltac:(lia)) as Hr.
    rewrite Hcells in Hr. destruct len as [|k]; [lia|].
    now apply Forall_cons in Hr as [Hr _]. }
  unfold is_u32 in Hv.
  assert (Hest : spec_estimate c v = v).
  { unfold spec_estimate. rewrite Z.div_small; [lia|].
    split; [apply u64_range|assumption]. }
  rewrite Hcells, fmap_replicate, Hest.
  assert (Hsort : sort_asc (replicate len v) = replicate len v).
  { unfold sort_asc.
    rewrite <- (length_replicate len v) at 2.
    rewrite <- (Permutation_length (merge_sort_Permutation Z.le _)).
    apply Forall_eq_replicate.
    rewrite merge_sort_Permutation. apply Forall_replicate. reflexivity. }
  rewrite Hsort.
  assert (H1 : 0 <= (depth c - 1) / 2 < depth c).
  { split; [apply Z.div_pos; lia|apply Z.div_lt_upper_bound; lia]. }
  assert (H2 : 0 <= depth c / 2 < depth c).
  { split; [apply Z.div_pos; lia|apply Z.div_lt_upper_bound; lia]. }
  rewrite !lookup_total_replicate_2 by lia.
  rewrite Z.sub_diag. change (0 / 2) with 0. rewrite Z.add_0_r.
  destruct len as [|k] eqn:El; [lia|].
  rewrite spec_min_replicate, Z.min_id, Hdv.
  now rewrite andb_false_r.
Qed.

(** A key inserted with [n < 2^32] into a new sketch of at least one row
    and two columns is estimated at [n] ([InsertBytes] is the case
    [n = 1]). *)
Theorem QueryBytes_first_insert (d w n : Z) (key : option string) :
  1 <= d < 2 ^ 31 -> 2 <= w < 2 ^ 31 -> 0 <= n < 2 ^ 32 ->
  (c0 ← NewCMSketch d w;
   c1 ← updateBytesWithDelta Sum128 c0 key n;
   QueryBytes Sum128 c1 key) = Done n.
Proof.
  intros Hd Hw Hn.
  rewrite SketchProps.NewCMSketch_Done by lia. cbn [mbind exec_bind].
  set (c0 := mkCMSketch d w 0 0 _ None).
  assert (Hwf0 : wf c0).
  { apply (SketchProps.NewCMSketch_wf d w); [lia|lia|].
    apply SketchProps.NewCMSketch_Done; lia. }
  assert (Hmiss : forall m, ~ topNMember Sum128 (mkCMSketch d w m 0
                                (table c0) None) key).
  { intros m (m0 & e & Hm & _). discriminate. }
  destruct (updateBytesWithDelta_cells c0 key n Hwf0 ltac:(simpl; lia)
              (Hmiss 0))
    as (tbl & Hrun & Hwf1 & Hcells).
  rewrite Hrun. cbn [mbind exec_bind]. clear Hrun Hmiss Hwf0.
  subst c0. cbn [depth width count defaultValue topN table] in *.
  apply QueryBytes_exact; cbn [depth width count defaultValue topN table];
    try lia; try assumption.
  - intros (m0 & e & Hm & _). discriminate.
  - intros i Hi.
    pose proof (spec_column_range w (contents key) i ltac:(lia)) as Hcol.
    rewrite (Hcells i _ 0).
    + rewrite decide_True by lia. rewrite Z.add_0_l.
      f_equal. apply u32_id. exact Hn.
    + apply SketchProps.cellAt_replicate; lia.
  - rewrite Z.add_0_l, (u64_id n) by (unfold is_u64; lia).
    rewrite Z.sub_diag. unfold u64. rewrite Z.mod_0_l by lia. lia.
Qed.

(** ** Insertions in either order *)

(** Two keys that are not in the Top-N index can be inserted in either
    order: the sketches are the same. *)
Theorem updateBytesWithDelta_comm (c : CMSketch) (a b : option string)
    (n m : Z) :
  wf c -> 1 <= width c ->
  ~ topNMember Sum128 c a -> ~ topNMember Sum128 c b ->
  exists c',
    (c1 ← updateBytesWithDelta Sum128 c a n;
     updateBytesWithDelta Sum128 c1 b m) = Done c' /\
    (c1 ← updateBytesWithDelta Sum128 c b m;
     updateBytesWithDelta Sum128 c1 a n) = Done c'.
Proof.
  intros Hwf Hw Ha Hb.
  destruct (updateBytesWithDelta_cells c a n Hwf Hw Ha)
    as (ta & Hra & Hwa & Hca).
  destruct (updateBytesWithDelta_cells c b m Hwf Hw Hb)
    as (tb & Hrb & Hwb & Hcb).
  rewrite Hra, Hrb. cbn [mbind exec_bind].
  set (ca := mkCMSketch _ _ _ _ ta _) in *.
  set (cb := mkCMSketch _ _ _ _ tb _) in *.
  assert (Hb' : ~ topNMember Sum128 ca b).
  { intros (m0 & e & Hm & H). apply Hb. exists m0, e. auto. }
  assert (Ha' : ~ topNMember Sum128 cb a).
  { intros (m0 & e & Hm & H). apply Ha. exists m0, e. auto. }
  destruct (updateBytesWithDelta_cells ca b m Hwa Hw Hb')
    as (tab & Hrab & Hwab & Hcab).
  destruct (updateBytesWithDelta_cells cb a n Hwb Hw Ha')
    as (tba & Hrba & Hwba & Hcba).
  rewrite Hrab, Hrba. eexists. split; [reflexivity|].
  subst ca cb. cbn [depth width count defaultValue topN table] in *.
  f_equal. f_equal.
  - unfold u64. rewrite !Zplus_mod_idemp_l. f_equal. ring.
  - symmetry.
    pose proof (wf_shaped _ Hwab) as Hsab. pose proof (wf_shaped _ Hwba) as Hsba.
    pose proof (wf_shaped _ Hwa) as Hsa. pose proof (wf_shaped _ Hwb) as Hsb.
    pose proof (wf_depth _ Hwab) as Hdab. pose proof (wf_depth _ Hwba) as Hdba.
    pose proof (wf_depth _ Hwa) as Hda. pose proof (wf_depth _ Hwb) as Hdb.
    pose proof (wf_depth _ Hwf) as Hd.
    cbn [depth width table] in *.
    apply (table_ext (width c)); [assumption|assumption|lia|].
    intros i j.
    destruct (cellAt (table c) i j) as [v|] eqn:Ev.
    + rewrite (Hcab i j _ (Hca i j v Ev)), (Hcba i j _ (Hcb i j v Ev)).
      f_equal.
      destruct (decide (Z.of_nat j = spec_column Sum128 (width c) (contents a) i)),
               (decide (Z.of_nat j = spec_column Sum128 (width c) (contents b) i));
        try reflexivity.
      rewrite !u32_add_idemp_l. f_equal. ring.
    + assert (Hnone : forall t, shaped (width c) t ->
                                length t = length (table c) ->
                                cellAt t i j = None).
      { intros t Hs Hl. destruct (cellAt t i j) as [v'|] eqn:E; [|reflexivity].
        destruct (cellAt_shaped_ex (width c) (table c) t i j v'
                    (wf_shaped c Hwf) Hs Hl E) as [v Hv]. congruence. }
      rewrite !Hnone by (assumption || lia). reflexivity.
Qed.

End WithHash.

(** ** Merging *)

Lemma MergeCMSketch_Done (c rc : CMSketch) :
  wf c -> wf rc -> depth c = depth rc -> width c = width rc ->
  topN c = None -> topN rc = None ->
  MergeCMSketch c rc
  = Done (mkCMSketch (depth c) (width c) (u64 (count c + count rc))
            (defaultValue c)
            (zip_with (zip_with (fun a b => u32 (a + b)))
               (table c) (table rc))
            None,
          None).
Proof.
  intros Hc Hrc Hd Hw Ht Hrt. unfold MergeCMSketch.
  rewrite Hd, Hw, !Z.eqb_refl. simpl.
  rewrite Ht, Hrt.
  rewrite bool_decide_eq_false_2 by (intros H; now apply H). simpl.
  pose proof (mergeRows_spec (table rc) (table c) [] (table rc) eq_refl
                (SketchProps.wf_same_shape c rc Hc Hrc Hd Hw)) as Hrows.
  cbn [length] in Hrows. unfold set_table, set_count. cbn [table].
  rewrite Hrows. cbn [mbind exec_bind]. simpl.
  now rewrite Ht, Hd, Hw.
Qed.

Lemma merged_wf (c rc : CMSketch) :
  wf c -> wf rc -> depth c = depth rc -> width c = width rc ->
  wf (mkCMSketch (depth c) (width c) (u64 (count c + count rc))
        (defaultValue c)
        (zip_with (zip_with (fun a b => u32 (a + b))) (table c) (table rc))
        (topN c)).
Proof.
  intros Hc Hrc Hd Hw.
  constructor; cbn [depth width defaultValue topN count table].
  - rewrite length_zip_with.
    pose proof (wf_depth c Hc). pose proof (wf_depth rc Hrc). lia.
  - apply shaped_zip_with; [apply (wf_shaped c Hc)|].
    rewrite Hw. apply (wf_shaped rc Hrc).
  - apply cells32_Forall. intros i j v Hv.
    rewrite cellAt_zip_with in Hv.
    destruct (cellAt (table c) i j); [|discriminate].
    destruct (cellAt (table rc) i j); [|discriminate].
    injection Hv as <-. apply u32_range.
  - apply u64_range.
  - apply (wf_defaultValue c Hc).
  - apply (wf_depth32 c Hc).
  - apply (wf_width32 c Hc).
Qed.

Lemma cellAt_same_shape (w : Z) (t t' : list (list Z)) (i j : nat) :
  shaped w t -> shaped w t' -> length t = length t' ->
  cellAt t i j = None -> cellAt t' i j = None.
Proof.
  intros Hs Hs' Hl H. destruct (cellAt t' i j) as [v'|] eqn:E; [|reflexivity].
  destruct (cellAt_shaped_ex w t t' i j v' Hs Hs' (eq_sym Hl) E) as [v Hv].
  congruence.
Qed.

(** Merging is symmetric in the two sketches as far as the count and
    the table go: [c.MergeCMSketch(rc)] leaves in [c] the count and the
    table that [rc.MergeCMSketch(c)] leaves in [rc]. *)
Theorem MergeCMSketch_comm (c rc : CMSketch) :
  wf c -> wf rc -> depth c = depth rc -> width c = width rc ->
  topN c = None -> topN rc = None ->
  exists c1 c2,
    MergeCMSketch c rc = Done (c1, None) /\
    MergeCMSketch rc c = Done (c2, None) /\
    count c1 = count c2 /\ table c1 = table c2 /\
    defaultValue c1 = defaultValue c /\ defaultValue c2 = defaultValue rc.
Proof.
  intros Hc Hrc Hd Hw Ht Hrt.
  rewrite (MergeCMSketch_Done c rc) by assumption.
  rewrite (MergeCMSketch_Done rc c) by (assumption || (symmetry; assumption)).
  eexists _, _. split; [reflexivity|]. split; [reflexivity|].
  cbn [count table defaultValue]. split; [f_equal; ring|].
  split; [|split; reflexivity].
  pose proof (merged_wf c rc Hc Hrc Hd Hw) as H1.
  pose proof (merged_wf rc c Hrc Hc (eq_sym Hd) (eq_sym Hw)) as H2.
  pose proof (wf_shaped _ H1) as Hs1. pose proof (wf_shaped _ H2) as Hs2.
  pose proof (wf_depth _ H1) as Hd1. pose proof (wf_depth _ H2) as Hd2.
  cbn [width depth table] in *.
  apply (table_ext (width c)); [assumption|now rewrite Hw|lia|].
  intros i j. rewrite !cellAt_zip_with.
  destruct (cellAt (table c) i j), (cellAt (table rc) i j); try reflexivity.
  f_equal. f_equal. ring.
Qed.

(** Merging a sketch without Top-N index into a new sketch of the same
    dimensions copies its count and its table, which is how
    [buildStatsFromResult] starts its accumulation. *)
Theorem MergeCMSketch_into_new (rc : CMSketch) :
  wf rc -> 0 <= depth rc -> 0 <= width rc -> topN rc = None ->
  exists c,
    (c0 ← NewCMSketch (depth rc) (width rc); MergeCMSketch c0 rc)
    = Done (c, None) /\
    depth c = depth rc /\ width c = width rc /\
    count c = count rc /\ table c = table rc /\
    defaultValue c = 0 /\ topN c = None.
Proof.
  intros Hrc Hd Hw Ht.
  rewrite SketchProps.NewCMSketch_Done by assumption. cbn [mbind exec_bind].
  set (c0 := mkCMSketch _ _ 0 0 _ None).
  assert (Hc0 : wf c0).
  { apply (SketchProps.NewCMSketch_wf (depth rc) (width rc));
      [apply (wf_depth32 rc Hrc)|apply (wf_width32 rc Hrc)|].
    apply SketchProps.NewCMSketch_Done; assumption. }
  rewrite (MergeCMSketch_Done c0 rc Hc0 Hrc eq_refl eq_refl eq_refl Ht).
  eexists. split; [reflexivity|].
  cbn [depth width count table defaultValue topN].
  repeat split.
  - rewrite Z.add_0_l. apply u64_id, (wf_count rc Hrc).
  - pose proof (merged_wf c0 rc Hc0 Hrc eq_refl eq_refl) as H1.
    pose proof (wf_shaped _ H1) as Hs1. pose proof (wf_depth _ H1) as Hd1.
    pose proof (wf_depth rc Hrc) as Hdr.
    subst c0. cbn [width depth table] in *.
    apply (table_ext (width rc)); [assumption|apply (wf_shaped rc Hrc)|lia|].
    intros i j. rewrite cellAt_zip_with.
    destruct (cellAt (table rc) i j) as [v|] eqn:Ev.
    + destruct (cellAt_Some_lt _ _ i j v (wf_shaped rc Hrc) Ev) as [Hi Hj].
      rewrite SketchProps.cellAt_replicate by lia.
      rewrite Z.add_0_l. f_equal. apply u32_id.
      pose proof (wf_cells rc Hrc) as Hcells. apply cells32_Forall in Hcells.
      exact (Hcells _ _ _ Ev).
    + destruct (cellAt (replicate _ _) i j); reflexivity.
Qed.

Section MergeInsert.

Variable Sum128 : string -> Z * Z.

(** The sketch of two streams is the merge of their sketches: inserting
    a key and then merging gives the sketch that merging and then
    inserting gives. *)
Theorem MergeCMSketch_updateBytesWithDelta (c rc : CMSketch)
    (key : option string) (n : Z) :
  wf c -> wf rc -> depth c = depth rc -> width c = width rc ->
  1 <= width c -> topN c = None -> topN rc = None ->
  exists c',
    (c1 ← updateBytesWithDelta Sum128 c key n; MergeCMSketch c1 rc)
    = Done (c', None) /\
    ('(c2, _) ← MergeCMSketch c rc; updateBytesWithDelta Sum128 c2 key n)
    = Done c'.
Proof.
  intros Hc Hrc Hd Hw Hw1 Ht Hrt.
  assert (Hmiss : forall c0, topN c0 = None -> ~ topNMember Sum128 c0 key).
  { intros c0 H0 (m & e & Hm & _). congruence. }
  destruct (updateBytesWithDelta_cells Sum128 c key n Hc Hw1 (Hmiss c Ht))
    as (t1 & Hr1 & Hwf1 & Hc1).
  rewrite Hr1. cbn [mbind exec_bind].
  rewrite (MergeCMSketch_Done _ rc Hwf1 Hrc Hd Hw Ht Hrt).
  rewrite (MergeCMSketch_Done c rc Hc Hrc Hd Hw Ht Hrt).
  cbn [mbind exec_bind depth width count defaultValue table topN].
  pose proof (merged_wf c rc Hc Hrc Hd Hw) as Hwf2. rewrite Ht in Hwf2.
  match type of Hwf2 with
  | wf ?x =>
      destruct (updateBytesWithDelta_cells Sum128 x key n Hwf2 Hw1
                  (Hmiss x eq_refl))
        as (t3 & Hr3 & Hwf3 & Hc3)
  end.
  rewrite Hr3. cbn [depth width count defaultValue table topN] in *.
  eexists. split; [reflexivity|]. f_equal. f_equal.
  - unfold u64. rewrite !Zplus_mod_idemp_l. f_equal. ring.
  - pose proof (merged_wf _ rc Hwf1 Hrc Hd Hw) as Hwf4.
    pose proof (wf_shaped _ Hwf3) as Hs3. pose proof (wf_shaped _ Hwf4) as Hs4.
    pose proof (wf_depth _ Hwf3) as Hd3. pose proof (wf_depth _ Hwf4) as Hd4.
    cbn [depth width count defaultValue table topN] in *.
    apply (table_ext (width c)); [assumption|assumption|lia|].
    intros i j. rewrite cellAt_zip_with.
    destruct (cellAt (table c) i j) as [v|] eqn:Ev.
    + rewrite (Hc1 i j v Ev).
      destruct (cellAt (table rc) i j) as [r|] eqn:Er.
      * rewrite (Hc3 i j (u32 (v + r)))
          by (now rewrite cellAt_zip_with, Ev, Er).
        f_equal. destruct (decide _); [|reflexivity].
        rewrite !u32_add_idemp_l. f_equal. ring.
      * apply (cellAt_same_shape (width c)
                 (zip_with (zip_with (fun a b => u32 (a + b)))
                    (table c) (table rc)));
          [apply (wf_shaped _ Hwf2)|assumption| |].
        -- pose proof (wf_depth _ Hwf2). cbn [depth table] in *. lia.
        -- now rewrite cellAt_zip_with, Ev, Er.
    + assert (H1 : cellAt t1 i j = None).
      { apply (cellAt_same_shape (width c) (table c));
          [apply (wf_shaped c Hc)|apply (wf_shaped _ Hwf1)| |assumption].
        pose proof (wf_depth _ Hwf1). pose proof (wf_depth c Hc).
        cbn [depth table] in *. lia. }
      rewrite H1.
      apply (cellAt_same_shape (width c)
               (zip_with (zip_with (fun a b => u32 (a + b)))
                  (table c) (table rc)));
        [apply (wf_shaped _ Hwf2)|assumption| |].
      * pose proof (wf_depth _ Hwf2). cbn [depth table] in *. lia.
      * now rewrite cellAt_zip_with, Ev.
Qed.

End MergeInsert.

End SketchLaws.

(** * Laws of the builder *)

Module BuilderLaws.
Import Sketch.

(** ** The frequency map of a sample *)

Lemma sumZ_Permutation (l l' : list Z) : l ≡ₚ l' -> sumZ l = sumZ l'.
Proof.
  unfold sumZ. induction 1; simpl; lia.
Qed.

Local Abbreviation total m := (sumZ (map_to_list (m : gmap string Z)).*2).

Lemma total_insert_None (m : gmap string Z) (k : string) (v : Z) :
  m !! k = None -> total (<[k := v]> m) = v + total m.
Proof.
  intros H.
  rewrite (sumZ_Permutation _ ((k, v) :: map_to_list m).*2).
  - reflexivity.
  - apply fmap_Permutation. now apply map_to_list_insert.
Qed.

Lemma total_delete (m : gmap string Z) (k : string) (v : Z) :
  m !! k = Some v -> total m = v + total (delete k m).
Proof.
  intros H.
  rewrite (sumZ_Permutation _ ((k, v) :: map_to_list (delete k m)).*2).
  - reflexivity.
  - apply fmap_Permutation. symmetry. now apply map_to_list_delete.
Qed.

Lemma total_insert_Some (m : gmap string Z) (k : string) (v0 v : Z) :
  m !! k = Some v0 -> total (<[k := v]> m) = v - v0 + total m.
Proof.
  intros H. rewrite <- insert_delete_eq.
  rewrite total_insert_None by apply lookup_delete_eq.
  rewrite (total_delete m k v0 H). lia.
Qed.

Lemma total_nonneg (m : gmap string Z) :
  map_Forall (fun _ v => 1 <= v) m -> 0 <= total m.
Proof.
  intros H.
  assert (Hl : Forall (fun v => 1 <= v) (map_to_list m).*2).
  { apply Forall_fmap, Forall_forall. intros [k v] Hkv.
    apply elem_of_map_to_list in Hkv. exact (H k v Hkv). }
  induction Hl; simpl; lia.
Qed.

Lemma lookup_le_total (m : gmap string Z) (k : string) (v : Z) :
  map_Forall (fun _ v => 1 <= v) m -> m !! k = Some v -> v <= total m.
Proof.
  intros H Hk. rewrite (total_delete m k v Hk).
  assert (0 <= total (delete k m)).
  { apply total_nonneg. intros k' v' H'.
    apply lookup_delete_Some in H' as [_ H']. exact (H k' v' H'). }
  lia.
Qed.

Lemma countSamples_from (data : list (option string)) :
  forall m : gmap string Z,
    map_Forall (fun _ v => 1 <= v) m ->
    total m + Z.of_nat (length data) < 2 ^ 64 ->
    let m' := foldl (fun (m : gmap string Z) (d : option string) =>
                       <[contents d := u64 (default 0 (m !! contents d) + 1)]> m)
                m data in
    map_Forall (fun _ v => 1 <= v) m' /\
    total m' = total m + Z.of_nat (length data).
Proof.
  induction data as [|d data IH]; intros m Hm Hlen; cbn [foldl length].
  - split; [assumption|lia].
  - pose proof (total_nonneg m Hm) as H0. cbn [length] in Hlen.
    set (k := contents d).
    assert (Hv : 0 <= default 0 (m !! k) <= total m).
    { destruct (m !! k) as [v|] eqn:E; simpl; [|lia].
      pose proof (lookup_le_total m k v Hm E).
      pose proof (Hm k v E). simpl in *. lia. }
    assert (Hu : u64 (default 0 (m !! k) + 1) = default 0 (m !! k) + 1).
    { apply u64_id. unfold is_u64. lia. }
    rewrite Hu.
    assert (Ht : total (<[k := default 0 (m !! k) + 1]> m) = total m + 1).
    { destruct (m !! k) as [v|] eqn:E; simpl.
      - rewrite (total_insert_Some m k v) by assumption. lia.
      - rewrite total_insert_None by assumption. lia. }
    destruct (IH (<[k := default 0 (m !! k) + 1]> m)) as [H1 H2].
    + apply map_Forall_insert_2; [lia|assumption].
    + rewrite Ht. lia.
    + split; [exact H1|]. rewrite H2, Ht. lia.
Qed.

Lemma countSamples_total (data : list (option string)) :
  Z.of_nat (length data) < 2 ^ 64 ->
  map_Forall (fun _ v => 1 <= v) (countSamples data) /\
  total (countSamples data) = Z.of_nat (length data).
Proof.
  intros H. unfold countSamples.
  destruct (countSamples_from data ∅) as [H1 H2].
  - apply map_Forall_empty.
  - rewrite map_to_list_empty. simpl. lia.
  - split; [exact H1|]. rewrite H2.
    rewrite map_to_list_empty. simpl. lia.
Qed.

(** ** The positions taken by the cutoff *)

Lemma takeWhile_seq (p : nat -> bool) (k n : nat) :
  exists t, (t <= n)%nat /\ takeWhile p (seq k n) = seq k t.
Proof.
  revert k. induction n as [|n IH]; intros k.
  - exists 0%nat. split; [lia|reflexivity].
  - cbn [seq takeWhile]. destruct (p k).
    + destruct (IH (S k)) as (t & Ht & ->). exists (S t).
      split; [lia|reflexivity].
    + exists 0%nat. split; [lia|reflexivity].
Qed.

Lemma lookup_total_seq (l : list Z) (t : nat) :
  (t <= length l)%nat ->
  (fun i : nat => l !!! i) <$> seq 0 t = take t l.
Proof.
  intros Ht. apply list_eq. intros i.
  rewrite list_lookup_fmap.
  destruct (decide (i < t)%nat) as [Hi|Hi].
  - rewrite lookup_seq_lt by assumption. simpl.
    rewrite lookup_take_lt by assumption.
    symmetry. apply list_lookup_lookup_total_lt. lia.
  - rewrite lookup_seq_ge by lia. simpl.
    symmetry. apply lookup_ge_None. rewrite length_take. lia.
Qed.

Lemma sumZ_take_le (l : list Z) (t : nat) :
  Forall (fun v => 1 <= v) l -> 0 <= sumZ (take t l) <= sumZ l.
Proof.
  intros H. revert t. induction H as [|x l Hx _ IH]; intros t.
  - rewrite take_nil. simpl. lia.
  - destruct t as [|t]; simpl.
    + specialize (IH 0%nat). rewrite take_0 in IH. simpl in IH. lia.
    + specialize (IH t). change (foldr Z.add 0 (take t l)) with (sumZ (take t l)).
      change (foldr Z.add 0 l) with (sumZ l). lia.
Qed.

(** [newTopNHelper] on a sample of fewer than 2^31 keys: the counts of
    the frequency map are at least 1 and add up to the size of the
    sample; [sorted] holds them in descending order; [onlyOnceItems] is
    the number of counts equal to 1; [numTop] is capped by the number of
    distinct keys; [sumTopN] is the sum of a prefix of [sorted], so it
    is at most the size of the sample. *)
Theorem newTopNHelper_invariants (data : list (option string)) (numTop0 : Z) :
  Z.of_nat (length data) < 2 ^ 31 -> 0 <= numTop0 ->
  exists helper,
    newTopNHelper data numTop0 = Done helper /\
    sampleSize helper = Z.of_nat (length data) /\
    counter helper = countSamples data /\
    sorted helper ≡ₚ (map_to_list (counter helper)).*2 /\
    Sorted Z.ge (sorted helper) /\
    Forall (fun cnt => 1 <= cnt) (sorted helper) /\
    sumZ (sorted helper) = sampleSize helper /\
    onlyOnceItems helper
    = Z.of_nat (length (filter (fun cnt : Z => cnt = 1) (sorted helper))) /\
    numTop helper = Z.min (Z.of_nat (length (sorted helper))) numTop0 /\
    (exists t : nat,
        (t <= length (sorted helper))%nat /\
        sumTopN helper = sumZ (take t (sorted helper)) /\
        lastVal helper = List.last (take t (sorted helper)) 0) /\
    0 <= sumTopN helper <= sampleSize helper.
Proof.
  intros Hlen Hn.
  destruct (SketchProps.newTopNHelper_Done data numTop0 Hlen Hn)
    as (last & sum & Hrun & Hcut).
  destruct (countSamples_total data ltac:(lia)) as [Hge Htot].
  set (cnts := (map_to_list (countSamples data)).*2) in *.
  set (srt := sort_desc cnts) in *.
  assert (Hperm : srt ≡ₚ cnts) by apply merge_sort_Permutation.
  assert (Hall : Forall (fun cnt => 1 <= cnt) srt).
  { rewrite Hperm. apply Forall_fmap, Forall_forall. intros [k v] Hkv.
    apply elem_of_map_to_list in Hkv. exact (Hge k v Hkv). }
  assert (Hsum : sumZ srt = Z.of_nat (length data)).
  { rewrite (sumZ_Permutation _ _ Hperm). exact Htot. }
  assert (Hpos : exists t : nat,
             (t <= length srt)%nat /\
             spec_positions (loop_extends srt numTop0) srt numTop0
             = seq 0 t).
  { unfold spec_positions.
    set (k := Z.to_nat (Z.min (Z.of_nat (length srt)) numTop0)).
    destruct (takeWhile_seq (loop_extends srt numTop0) k
                (Nat.min (length srt) (2 * k) - k))
      as (t' & Ht' & ->).
    exists (k + t')%nat. split; [subst k; lia|].
    now rewrite seq_app. }
  destruct Hpos as (t & Ht & Hpos).
  rewrite Hpos in Hcut. unfold spec_cutoff in Hcut.
  rewrite (lookup_total_seq srt t Ht) in Hcut.
  pose proof (sumZ_take_le srt t Hall) as Hle.
  rewrite u64_id in Hcut by (unfold is_u64; lia).
  injection Hcut as Hlast Hsumeq.
  eexists. split; [exact Hrun|].
  cbn [sampleSize counter sorted onlyOnceItems numTop sumTopN lastVal].
  fold cnts. fold srt.
  split; [reflexivity|]. split; [reflexivity|]. split; [exact Hperm|].
  split.
  { unfold srt, sort_desc.
    apply (@Sorted_merge_sort Z Z.ge _). intros x y. lia. }
  split; [exact Hall|]. split; [exact Hsum|].
  split.
  { f_equal. apply Permutation_length.
    now rewrite Hperm. }
  split; [reflexivity|].
  split; [exists t; auto|]. lia.
Qed.

(** ** A built sketch and [MergeCMSketch] *)

Section WithHash.

Variable Sum128 : string -> Z * Z.
Variable hack_Slice : string -> option string.
Variable calculateEstimateNDV : topNHelper -> Z -> Z * Z.

Hypothesis hack_Slice_contents : forall s, contents (hack_Slice s) = s.



End WithHash.

End BuilderLaws.

(** ** The revision whose codec carries the Top-N entries *)

Module TopNCodecProps.
Import TopNCodec.

(** *** Writing a message *)

Lemma copyCells_spec (row : list Z) :
  forall (j : nat) (pre suf : list Z),
    length pre = j -> length suf = length row ->
    copyCells row j (pre ++ suf) = Done (pre ++ row).
Proof.
  induction row as [|x row IH]; intros j pre suf Hj Hlen.
  - destruct suf; [|discriminate]. reflexivity.
  - destruct suf as [|y suf]; [discriminate|]. cbn [copyCells].
    rewrite store_Done by (rewrite length_app; simpl; lia).
    cbn [mbind exec_bind].
    rewrite <- Hj, insert_app_r_alt, Nat.sub_diag by lia.
    cbn [insert list_insert].
    pose proof (IH (S (length pre)) (pre ++ [x]) suf) as IH'.
    rewrite <- app_assoc in IH'. cbn [app] in IH'.
    rewrite IH'; [|rewrite length_app; simpl; lia|simpl in Hlen; lia].
    now rewrite <- app_assoc.
Qed.

Lemma protoRows_spec (w : Z) (tbl : list (list Z)) :
  0 <= w -> shaped w tbl ->
  forall (i : nat) (pre : list (option tipb.CMSketchRow)),
    length pre = i ->
    protoRows w tbl i (pre ++ replicate (length tbl) None)
    = Done (pre ++ ((fun row => Some (tipb.mkRow row)) <$> tbl)).
Proof.
  intros Hw Hs. induction Hs as [|row tbl Hrow _ IH]; intros i pre Hi.
  - reflexivity.
  - cbn [protoRows length replicate]. rewrite make_Done by assumption.
    cbn [mbind exec_bind].
    rewrite store_Done by (rewrite length_app; simpl; lia).
    cbn [mbind exec_bind].
    pose proof (copyCells_spec row 0 [] (replicate (Z.to_nat w) 0) eq_refl)
      as Hcopy.
    rewrite length_replicate in Hcopy. cbn [app] in Hcopy.
    rewrite Hcopy by lia. cbn [mbind exec_bind].
    rewrite store_Done by (rewrite length_insert, length_app; simpl; lia).
    cbn [mbind exec_bind].
    rewrite list_insert_insert_eq.
    rewrite <- Hi, insert_app_r_alt, Nat.sub_diag by lia.
    cbn [insert list_insert].
    pose proof (IH (S (length pre)) (pre ++ [Some (tipb.mkRow row)])) as IH'.
    rewrite <- app_assoc in IH'. cbn [app] in IH'.
    rewrite IH' by (rewrite length_app; simpl; lia).
    now rewrite fmap_cons, <- app_assoc.
Qed.

Lemma protoTopN_spec (entries : list cmscount.t) :
  forall (seq : nat) (pre : list (option tipb.CMSketchTopN)),
    length pre = seq -> Z.of_nat (seq + length entries) < 2 ^ 32 ->
    protoTopN entries (Z.of_nat seq) (pre ++ replicate (length entries) None)
    = Done (pre ++ (toProto <$> entries)).
Proof.
  induction entries as [|v entries IH]; intros seq pre Hseq Hlen.
  - reflexivity.
  - cbn [protoTopN length replicate].
    rewrite store_Done by (rewrite length_app; simpl; lia).
    cbn [mbind exec_bind].
    rewrite <- Hseq, insert_app_r_alt, Nat.sub_diag by lia.
    cbn [insert list_insert].
    replace (u32 (Z.of_nat (length pre) + 1))
      with (Z.of_nat (S (length pre))).
    2:{ rewrite u32_id; [lia|]. unfold is_u32. simpl in Hlen. lia. }
    pose proof (IH (S (length pre)) (pre ++ [toProto v])) as IH'.
    rewrite <- app_assoc in IH'. cbn [app] in IH'.
    change (Some (tipb.mkTopN (cmscount.data v) (cmscount.count v)))
      with (toProto v).
    rewrite IH'; [|rewrite length_app; simpl; lia|simpl in Hlen; lia].
    now rewrite fmap_cons, <- app_assoc.
Qed.

Lemma stripTopN_spec (entries : list cmscount.t) :
  stripTopN (toProto <$> entries)
  = Done ((fun v => Some (tipb.mkTopN None (cmscount.count v))) <$> entries,
          cmscount.data <$> entries).
Proof.
  induction entries as [|v entries IH]; [reflexivity|].
  rewrite !fmap_cons. cbn [stripTopN toProto deref mbind exec_bind].
  rewrite IH. reflexivity.
Qed.

Lemma attached_strip (entries : list cmscount.t) :
  attached ((fun v => Some (tipb.mkTopN None (cmscount.count v))) <$> entries)
    (cmscount.data <$> entries)
  = toProto <$> entries.
Proof.
  unfold attached. rewrite !length_fmap, Nat.eqb_refl.
  induction entries as [|v entries IH]; [reflexivity|].
  rewrite !fmap_cons. cbn [zip_with]. now rewrite IH.
Qed.

(** *** Reading a message *)

Lemma NewCMSketch_codec_Done (d w : Z) :
  0 <= d -> 0 <= w ->
  NewCMSketch d w
  = Done (mkCMSketch d w 0 0
            (replicate (Z.to_nat d) (replicate (Z.to_nat w) 0)) None).
Proof.
  intros Hd Hw. unfold NewCMSketch.
  rewrite make_Done by assumption. cbn [mbind exec_bind].
  now rewrite makeRows_replicate.
Qed.

Lemma brokenTopN_spec (topn : list (option tipb.CMSketchTopN)) :
  Forall (fun e : option tipb.CMSketchTopN => is_Some e) topn ->
  brokenTopN topn = Done (missingData topn).
Proof.
  induction 1 as [|e topn [e' ->] _ IH]; [reflexivity|].
  cbn [brokenTopN deref mbind exec_bind missingData existsb].
  destruct (tipb.Data e') as [d|] eqn:Ed.
  - rewrite bool_decide_eq_false_2 by discriminate. exact IH.
  - reflexivity.
Qed.

(** *** Merge *)

Lemma wf_same_shape_codec (c rc : CMSketch) :
  wf c -> wf rc -> depth c = depth rc -> width c = width rc ->
  Forall2 (fun row rrow : list Z => length row = length rrow)
    (table c) (table rc).
Proof.
  intros Hc Hrc Hd Hw.
  apply Forall2_same_length_lookup. split.
  - pose proof (wf_depth c Hc). pose proof (wf_depth rc Hrc). lia.
  - intros i row rrow Hi Hri.
    pose proof (wf_rows c Hc) as H1. pose proof (wf_rows rc Hrc) as H2.
    unfold shaped in H1, H2. rewrite Forall_lookup in H1, H2.
    specialize (H1 _ _ Hi). specialize (H2 _ _ Hri). simpl in *. lia.
Qed.

(** [MergeCMSketch] of this revision keeps the contract of the other. *)
Lemma MergeCMSketch_contract_codec (c rc : CMSketch) :
  wf c -> wf rc ->
  ((depth c <> depth rc \/ width c <> width rc) ->
   MergeCMSketch c rc = Done (c, Some ErrDimensions))
  /\ (depth c = depth rc -> width c = width rc ->
      (topnindex c <> None \/ topnindex rc <> None) ->
      MergeCMSketch c rc = Done (c, Some ErrTopNMerge))
  /\ (depth c = depth rc -> width c = width rc ->
      topnindex c = None -> topnindex rc = None ->
      MergeCMSketch c rc
      = Done (mkCMSketch (depth c) (width c) (u64 (count c + count rc))
                (defaultValue c)
                (zip_with (zip_with (fun a b => u32 (a + b)))
                   (table c) (table rc))
                None,
              None)).
Proof.
  intros Hc Hrc. split; [|split].
  - intros H. unfold MergeCMSketch.
    destruct (Z.eqb_spec (depth c) (depth rc)),
             (Z.eqb_spec (width c) (width rc)); simpl; try reflexivity.
    lia.
  - intros Hd Hw H. unfold MergeCMSketch.
    rewrite Hd, Hw, !Z.eqb_refl. simpl.
    destruct H as [H|H].
    + rewrite (bool_decide_eq_true_2 _ H). reflexivity.
    + rewrite (bool_decide_eq_true_2 _ H), orb_true_r. reflexivity.
  - intros Hd Hw Ht Hrt. unfold MergeCMSketch.
    rewrite Hd, Hw, !Z.eqb_refl. simpl.
    rewrite Ht, Hrt.
    rewrite bool_decide_eq_false_2 by (intros H; now apply H). simpl.
    pose proof (mergeRows_spec (table rc) (table c) [] (table rc) eq_refl
                  (wf_same_shape_codec c rc Hc Hrc Hd Hw)) as Hrows.
    cbn [length] in Hrows. unfold set_table, set_count. cbn [table].
    rewrite Hrows. cbn [mbind exec_bind]. simpl.
    now rewrite Ht, Hd, Hw.
Qed.

(** *** The table query *)

Lemma queryHashValue_total (c : CMSketch) (h1 h2 : Z) :
  wf c -> 1 <= depth c -> 2 <= width c ->
  exists v, queryHashValue c h1 h2 = Done v.
Proof.
  intros Hwf Hd Hw.
  pose proof (wf_depth c Hwf) as Hdepth.
  pose proof (wf_width32 c Hwf) as Hw32.
  unfold queryHashValue.
  rewrite make_Done by lia. cbn [mbind exec_bind].
  pose proof (queryRows_spec (width c) (count c) h1 h2 (conj Hw Hw32)
                (table c) 0 MaxUint32 []
                (replicate (Z.to_nat (depth c)) 0)
                (wf_rows c Hwf) (wf_cells c Hwf) eq_refl) as Hrows.
  rewrite length_replicate in Hrows. specialize (Hrows ltac:(lia)).
  cbn [app] in Hrows. simpl in Hrows. rewrite Hrows. clear Hrows.
  cbn [mbind exec_bind].
  match goal with |- context [sort_asc ?l] => set (v := sort_asc l) end.
  assert (Hvlen : Z.of_nat (length v) = depth c).
  { unfold v, sort_asc. rewrite merge_sort_Permutation, length_fmap.
    rewrite length_imap. exact Hdepth. }
  rewrite !Z.quot_div_nonneg by lia.
  assert (Hlo : 0 <= (depth c - 1) / 2 < depth c).
  { split; [apply Z.div_pos; lia|]. apply Z.div_lt_upper_bound; lia. }
  assert (Hhi : 0 <= depth c / 2 < depth c).
  { split; [apply Z.div_pos; lia|]. apply Z.div_lt_upper_bound; lia. }
  rewrite !index_total by lia. cbn [mbind exec_bind].
  rewrite (u64_id (width c)) by (unfold is_u64; lia).
  rewrite udiv_Done by lia. cbn [mbind exec_bind].
  eexists. reflexivity.
Qed.

Lemma queryHashValue_width_one (depth : Z) (h1 h2 : Z) :
  1 <= depth < 2 ^ 31 ->
  exists c, NewCMSketch depth 1 = Done c /\
            queryHashValue c h1 h2 = Crash DivideByZero.
Proof.
  intros Hd. eexists. split; [apply NewCMSketch_codec_Done; lia|].
  unfold queryHashValue. cbn [TopNCodec.depth table width count].
  rewrite make_Done by lia. cbn [mbind exec_bind].
  destruct (Z.to_nat depth) as [|n] eqn:En; [lia|].
  cbn [replicate queryRows].
  change (replicate (Z.to_nat 1) 0) with [0].
  now rewrite queryRow_width_one.
Qed.

(** *** Equality of sketches *)

Lemma equalCells_refl (rtable : list (list Z)) (i : nat) (row : list Z) :
  forall pre : list Z,
    rtable !! i = Some (pre ++ row) ->
    equalCells row rtable i (length pre) = Done true.
Proof.
  induction row as [|x row IH]; intros pre Hi; [reflexivity|].
  cbn [equalCells].
  rewrite (index_Done rtable i _ Hi). cbn [mbind exec_bind].
  rewrite (index_Done _ _ x)
    by (rewrite lookup_app_r, Nat.sub_diag by lia; reflexivity).
  cbn [mbind exec_bind]. rewrite Z.eqb_refl. cbn [negb].
  specialize (IH (pre ++ [x])). rewrite <- app_assoc in IH. cbn [app] in IH.
  rewrite length_app in IH. simpl in IH. rewrite Nat.add_1_r in IH.
  now apply IH.
Qed.

Lemma equalRows_refl (tbl : list (list Z)) :
  forall pre : list (list Z),
    equalRows tbl (pre ++ tbl) (length pre) = Done true.
Proof.
  induction tbl as [|row tbl IH]; intros pre; [reflexivity|].
  cbn [equalRows].
  assert (Hi : (pre ++ row :: tbl) !! length pre = Some ([] ++ row)).
  { rewrite lookup_app_r, Nat.sub_diag by lia. reflexivity. }
  pose proof (equalCells_refl _ _ row [] Hi) as Hc. cbn [length] in Hc.
  rewrite Hc. cbn [mbind exec_bind].
  specialize (IH (pre ++ [row])). rewrite <- app_assoc in IH. cbn [app] in IH.
  rewrite length_app in IH. simpl in IH. now rewrite Nat.add_1_r in IH.
Qed.

Lemma hasMatch_self (e : cmscount.t) (v : list cmscount.t) :
  e ∈ v -> hasMatch e v = true.
Proof.
  intros He. unfold hasMatch. apply existsb_exists. exists e.
  split; [now apply list_elem_of_In|].
  rewrite !Z.eqb_refl. unfold bytes_Equal.
  now rewrite bool_decide_eq_true_2.
Qed.

Lemma equalIndex_refl (m : gmap Z (list cmscount.t)) :
  equalIndex m (Some m) = true.
Proof.
  unfold equalIndex. apply forallb_forall. intros [k v] Hin.
  apply list_elem_of_In, elem_of_map_to_list in Hin.
  cbn [default from_option id fst snd]. rewrite Hin, Nat.eqb_refl.
  cbn [andb]. apply forallb_forall. intros e He.
  apply hasMatch_self. now apply list_elem_of_In.
Qed.

Lemma Equal_fields (c c' : CMSketch) :
  width c' = width c -> depth c' = depth c -> count c' = count c ->
  defaultValue c' = defaultValue c -> table c' = table c ->
  (topnindex c' = topnindex c \/
   (lenIndex (topnindex c) = 0%nat /\ lenIndex (topnindex c') = 0%nat)) ->
  Equal (Some c) (Some c') = Done true.
Proof.
  intros Hw Hd Hc Hdv Ht Hidx. unfold Equal.
  rewrite Hw, Hd, Hc, Hdv, Ht, !Z.eqb_refl. cbn [negb orb].
  pose proof (equalRows_refl (table c) []) as Hr. cbn [app length] in Hr.
  rewrite Hr. cbn [mbind exec_bind negb].
  destruct Hidx as [->|[H0 H0']].
  - destruct (0 <? lenIndex (topnindex c))%nat; cbn [orb]; [|reflexivity].
    rewrite Nat.eqb_refl. cbn [negb].
    destruct (topnindex c) as [m|]; cbn [default from_option id].
    + now rewrite equalIndex_refl.
    + unfold equalIndex. now rewrite map_to_list_empty.
  - rewrite H0, H0'. reflexivity.
Qed.

Section WithHash.

Variable Sum128 : string -> Z * Z.

Lemma hashTopN_spec (topn : list (option tipb.CMSketchTopN)) :
  Forall (fun e : option tipb.CMSketchTopN => is_Some e) topn ->
  hashTopN Sum128 topn = Done (hashEntry Sum128 <$> topn).
Proof.
  induction 1 as [|e topn [e' ->] _ IH]; [reflexivity|].
  cbn [hashTopN deref mbind exec_bind]. rewrite fmap_cons.
  unfold hashEntry at 1. cbn [default from_option id].
  destruct (Sum128 (contents (tipb.Data e'))) as [h1 h2].
  rewrite IH. reflexivity.
Qed.

(** What [CMSketchFromProto] returns on a well-formed message with at
    least one row. *)
Lemma CMSketchFromProto_codec_spec (p : tipb.CMSketch) :
  wfProto p -> tipb.Rows p <> [] ->
  let c := mkCMSketch (Z.of_nat (length (tipb.Rows p)))
             (Z.of_nat (protoWidth p)) (rowsCount (tipb.Rows p) 0) 0
             (padded (protoWidth p) <$> tipb.Rows p) None in
  CMSketchFromProto Sum128 (Some p)
  = Done (match tipb.TopN p with
          | None => (Some c, None)
          | Some topn =>
              if missingData topn then (None, Some ErrBrokenData)
              else (Some (set_topnindex c
                            (Some (fillTopNMap Sum128
                                     (hashEntry Sum128 <$> topn) ∅))),
                    None)
          end).
Proof.
  intros Hwf Hne c0. unfold CMSketchFromProto.
  pose proof (wfp_rows p Hwf) as Hrows.
  pose proof (wfp_depth32 p Hwf) as Hd32.
  pose proof (wfp_width32 p Hwf) as Hw32.
  destruct (tipb.Rows p) as [|r0 rows] eqn:Er; [contradiction|].
  pose proof Hrows as Hrows0.
  apply Forall_cons in Hrows0 as [(row0 & -> & _) _].
  assert (Hpw : protoWidth p = length (tipb.Counters row0)).
  { unfold protoWidth. now rewrite Er. }
  change (index (Some row0 :: rows) 0) with (Done (Some row0)).
  cbn [mbind exec_bind deref].
  rewrite <- Hpw, !i32_id by lia.
  rewrite NewCMSketch_codec_Done by lia. cbn [mbind exec_bind].
  rewrite !Nat2Z.id.
  cbn [table count].
  pose proof (fromRows_spec (protoWidth p) (Some row0 :: rows) 0 [] 0
                eq_refl Hrows) as Hfrom.
  cbn [app] in Hfrom. rewrite Hfrom. clear Hfrom.
  cbn [mbind exec_bind]. unfold set_count, set_table.
  cbn [depth width count defaultValue topnindex table].
  fold c0.
  destruct (tipb.TopN p) as [topn|] eqn:Et; [|reflexivity].
  pose proof (wfp_topn p Hwf) as Htopn. rewrite Et in Htopn. simpl in Htopn.
  rewrite brokenTopN_spec by assumption. cbn [mbind exec_bind].
  destruct (missingData topn); [reflexivity|].
  rewrite hashTopN_spec by assumption. reflexivity.
Qed.

(** *** Inserting a member of the Top-N index *)

Lemma matches_codec_true (h2 : Z) (d : option string) (cnt : cmscount.t) :
  matches h2 d cnt = true <->
  cmscount.h2 cnt = h2 /\ contents (cmscount.data cnt) = contents d.
Proof.
  unfold matches, bytes_Equal.
  rewrite andb_true_iff, Z.eqb_eq, bool_decide_eq_true. intuition congruence.
Qed.

Lemma first_match (h2 : Z) (d : option string) (cnt : list cmscount.t) :
  (exists e, e ∈ cnt /\ matches h2 d e = true) ->
  exists pre e suf,
    cnt = pre ++ e :: suf /\
    Forall (fun x => matches h2 d x = false) pre /\ matches h2 d e = true.
Proof.
  induction cnt as [|x cnt IH]; intros (e & Hin & Hm).
  - now apply elem_of_nil in Hin.
  - destruct (matches h2 d x) eqn:Ex.
    + exists [], x, cnt. auto.
    + apply elem_of_cons in Hin as [->|Hin]; [congruence|].
      destruct (IH (ex_intro _ e (conj Hin Hm))) as (pre & e' & suf & -> & Hp & He).
      exists (x :: pre), e', suf. auto.
Qed.

Lemma queryAddLoop_at (h2 delta : Z) (d : option string)
    (pre suf : list cmscount.t) (e : cmscount.t) :
  Forall (fun x => matches h2 d x = false) pre -> matches h2 d e = true ->
  queryAddLoop h2 delta d (pre ++ e :: suf)
  = Some (pre ++ cmscount.mk (cmscount.h1 e) (cmscount.h2 e)
                   (cmscount.data e) (u64 (cmscount.count e + delta)) :: suf,
          u64 (cmscount.count e + delta)).
Proof.
  intros Hpre He. induction Hpre as [|x pre Hx _ IH].
  - cbn [app queryAddLoop]. now rewrite He.
  - cbn [app queryAddLoop]. now rewrite Hx, IH.
Qed.

(** C2 on this revision.  Inserting a member of the Top-N index with
    delta [n] returns a sketch with the table, the count and the other
    fields as they were, in which the stored count of the key is
    [stored + n]: [QueryBytes] of the key returns [stored] before and
    [stored + n] after. *)
Lemma InsertBytesN_member (c : CMSketch) (d : option string) (n : Z) :
  topNMember Sum128 c d ->
  exists (c' : CMSketch) (stored : Z),
    InsertBytesN Sum128 c d n = Done c' /\
    table c' = table c /\ count c' = count c /\
    depth c' = depth c /\ width c' = width c /\
    defaultValue c' = defaultValue c /\
    QueryBytes Sum128 c d = Done (u64 stored) /\
    QueryBytes Sum128 c' d = Done (u64 (stored + n)).
Proof.
  intros (m & e0 & Hm & He0 & Hh2 & Hdata).
  unfold InsertBytesN, QueryBytes, queryTopN, queryAddTopN.
  destruct (Sum128 (contents d)) as [h1 h2]. cbn [fst snd] in *.
  rewrite Hm.
  destruct (m !! h1) as [cnt|] eqn:Ecnt;
    [|now apply elem_of_nil in He0].
  cbn [default from_option id] in He0.
  destruct (first_match h2 d cnt) as (pre & e & suf & -> & Hpre & He).
  { exists e0. split; [assumption|]. apply matches_codec_true. auto. }
  rewrite !(queryAddLoop_at h2 _ d pre suf e Hpre He).
  eexists _, (cmscount.count e). split; [reflexivity|].
  unfold set_topnindex.
  cbn [table count depth width defaultValue topnindex].
  repeat (split; [reflexivity|]).
  rewrite Z.add_0_r. split; [reflexivity|].
  rewrite lookup_insert_eq.
  rewrite (queryAddLoop_at h2 0 d pre suf _ Hpre).
  2:{ apply matches_codec_true in He as [He1 He2]. apply matches_codec_true.
      cbn [cmscount.h2 cmscount.data]. auto. }
  cbn [cmscount.count]. rewrite Z.add_0_r.
  unfold u64. now rewrite Z.mod_mod by lia.
Qed.

(** *** Rebuilding the Top-N index *)

Lemma fillTopNMap_plain (order : list (Z * list cmscount.t)) :
  forall (acc : gmap Z (list cmscount.t)) (k : Z),
    NoDup order.*1 -> Forall (plainBucket Sum128) order ->
    (forall k', k' ∈ order.*1 -> acc !! k' = None) ->
    fillTopNMap Sum128 (hashEntry Sum128 <$> (toProto <$> concat order.*2))
      acc !! k
    = match (list_to_map order : gmap Z (list cmscount.t)) !! k with
      | Some v => Some v
      | None => acc !! k
      end.
Proof.
  induction order as [|[k0 v0] order IH]; intros acc k Hnd Hplain Hfresh.
  - reflexivity.
  - apply Forall_cons in Hplain as [(d & cnt & Hv & Hk) Hplain].
    cbn [fst snd] in Hv, Hk. subst v0.
    rewrite fmap_cons in Hnd. apply NoDup_cons in Hnd as [Hk0 Hnd].
    rewrite fmap_cons. cbn [snd concat app fmap list_fmap].
    unfold toProto at 1. unfold hashEntry at 1.
    cbn [default from_option id tipb.Data tipb.Count cmscount.data
         cmscount.count contents fillTopNMap].
    unfold id. destruct (Sum128 d) as [h1 h2] eqn:Eh.
    cbn [fst snd] in *. subst k0.
    rewrite (Hfresh h1) by (rewrite fmap_cons; apply list_elem_of_here).
    cbn [default from_option id app].
    change (list_fmap _ _ (hashEntry Sum128)
              (list_fmap _ _ toProto (concat order.*2)))
      with (hashEntry Sum128 <$> (toProto <$> concat order.*2)).
    rewrite IH; [|assumption|assumption|].
    2:{ intros k' Hk'. rewrite lookup_insert_ne; [|congruence].
        apply Hfresh. rewrite fmap_cons. now apply list_elem_of_further. }
    rewrite list_to_map_cons.
    destruct (decide (k = h1)) as [->|Hne].
    + rewrite (not_elem_of_list_to_map_1 order h1 Hk0).
      now rewrite !lookup_insert_eq.
    + now rewrite !lookup_insert_ne by congruence.
Qed.

Lemma fillTopNMap_order (m : gmap Z (list cmscount.t))
    (order : list (Z * list cmscount.t)) :
  plainIndex Sum128 m -> order ≡ₚ map_to_list m ->
  fillTopNMap Sum128 (hashEntry Sum128 <$> (toProto <$> concat order.*2)) ∅
  = m.
Proof.
  intros Hplain Hperm. apply map_eq. intros k.
  assert (Hnd : NoDup order.*1).
  { rewrite Hperm. apply NoDup_fst_map_to_list. }
  rewrite fillTopNMap_plain; [|assumption| |intros; apply lookup_empty].
  - rewrite (list_to_map_proper order (map_to_list m) Hnd Hperm).
    rewrite list_to_map_to_list, lookup_empty.
    now destruct (m !! k).
  - apply Forall_forall. intros [k' v] Hin. apply Hplain.
    rewrite Hperm in Hin. now apply elem_of_map_to_list.
Qed.

Lemma plain_entries_length (m : gmap Z (list cmscount.t))
    (order : list (Z * list cmscount.t)) :
  plainIndex Sum128 m -> order ≡ₚ map_to_list m ->
  length (concat order.*2) = size m.
Proof.
  intros Hplain Hperm.
  rewrite <- length_map_to_list, <- Hperm.
  assert (H : Forall (plainBucket Sum128) order).
  { apply Forall_forall. intros [k' v] Hin. apply Hplain.
    rewrite Hperm in Hin. now apply elem_of_map_to_list. }
  clear Hperm. induction H as [|[k v] order (d & cnt & Hv & _) _ IH].
  - reflexivity.
  - cbn [fst snd] in Hv. subst v. rewrite fmap_cons. cbn [snd concat app].
    simpl. now rewrite IH.
Qed.

Lemma CMSketchToProto_spec (c : CMSketch)
    (order : list (Z * list cmscount.t)) :
  wf c -> 0 <= depth c -> 0 <= width c ->
  plainIndex Sum128 (default ∅ (topnindex c)) ->
  order ≡ₚ map_to_list (default ∅ (topnindex c)) ->
  Z.of_nat (lenIndex (topnindex c)) < 2 ^ 32 ->
  CMSketchToProto order c
  = Done (tipb.mkCMSketch
            ((fun row => Some (tipb.mkRow row)) <$> table c)
            (match topnindex c with
             | None => None
             | Some _ => Some (toProto <$> concat order.*2)
             end)).
Proof.
  intros Hwf Hd Hw Hplain Hperm Hsize. unfold CMSketchToProto.
  rewrite make_Done by assumption. cbn [mbind exec_bind].
  pose proof (wf_depth c Hwf) as Hdepth.
  pose proof (protoRows_spec (width c) (table c) Hw (wf_rows c Hwf) 0 []
                eq_refl) as Hrows.
  cbn [app] in Hrows. replace (Z.to_nat (depth c)) with (length (table c))
    by lia.
  rewrite Hrows. cbn [mbind exec_bind].
  destruct (topnindex c) as [m|] eqn:Em; [|reflexivity].
  cbn [default from_option id lenIndex] in *.
  pose proof (plain_entries_length m order Hplain Hperm) as Hlen.
  pose proof (protoTopN_spec (concat order.*2) 0 [] eq_refl) as Htop.
  cbn [app] in Htop. rewrite Hlen in Htop.
  change (Z.of_nat 0) with 0 in Htop.
  rewrite Htop by (simpl; lia). reflexivity.
Qed.

(** C9, as the loop has it.  For every well-formed message whose rows
    end with the row [last], both revisions of [CMSketchFromProto]
    rebuild a sketch (the second when every Top-N entry has its data)
    whose count is the sum of the counters of [last]: the loop sets the
    count to 0 at the start of every row. *)
Theorem CMSketchFromProto_count (p : tipb.CMSketch)
    (rows : list (option tipb.CMSketchRow)) (last : tipb.CMSketchRow) :
  wfProto p -> tipb.Rows p = rows ++ [Some last] ->
  (exists c, Sketch.CMSketchFromProto (Some p) = Done (Some c) /\
             Sketch.count c = u64 (sumZ (tipb.Counters last))) /\
  (missingData (default [] (tipb.TopN p)) = false ->
   exists c, CMSketchFromProto Sum128 (Some p) = Done (Some c, None) /\
             count c = u64 (sumZ (tipb.Counters last))).
Proof.
  intros Hwf Hrows.
  assert (Hne : tipb.Rows p <> []).
  { rewrite Hrows. intros H. now apply app_eq_nil in H as [_ H]. }
  split.
  - eexists. split.
    + apply SketchProps.CMSketchFromProto_spec;
        [apply (wfp_rows p Hwf)|apply (wfp_depth32 p Hwf)
        |apply (wfp_width32 p Hwf)|exact Hne].
    + cbn [Sketch.count]. rewrite Hrows. apply rowsCount_last.
  - intros Hmiss. rewrite (CMSketchFromProto_codec_spec p Hwf Hne).
    destruct (tipb.TopN p) as [topn|]; simpl in Hmiss.
    + rewrite Hmiss. eexists. split; [reflexivity|].
      cbn [count set_topnindex]. rewrite Hrows. apply rowsCount_last.
    + eexists. split; [reflexivity|].
      cbn [count]. rewrite Hrows. apply rowsCount_last.
Qed.

Lemma attachTopN_spec (topn : list (option string)) :
  forall (i : nat) (pre entries : list (option tipb.CMSketchTopN)),
    length pre = i -> length entries = length topn ->
    Forall (fun e : option tipb.CMSketchTopN => is_Some e) entries ->
    attachTopN topn i (pre ++ entries)
    = Done (pre ++ zip_with
                     (fun (d : option string) (e : option tipb.CMSketchTopN) =>
                        Some (tipb.mkTopN d
                                (tipb.Count
                                   (default (tipb.mkTopN None 0) e))))
                     topn entries).
Proof.
  induction topn as [|d topn IH]; intros i pre entries Hi Hlen Hall.
  - destruct entries; [|discriminate]. reflexivity.
  - destruct entries as [|e entries]; [discriminate|].
    apply Forall_cons in Hall as [[e' ->] Hall].
    cbn [attachTopN].
    rewrite (index_Done _ i (Some e'))
      by (rewrite lookup_app_r, Hi, Nat.sub_diag by lia; reflexivity).
    cbn [mbind exec_bind deref].
    rewrite store_Done by (rewrite length_app; simpl; lia).
    cbn [mbind exec_bind].
    rewrite <- Hi, insert_app_r_alt, Nat.sub_diag by lia.
    cbn [insert list_insert].
    pose proof (IH (S (length pre))
                  (pre ++ [Some (tipb.mkTopN d (tipb.Count e'))]) entries)
      as IH'.
    rewrite <- app_assoc in IH'. cbn [app] in IH'.
    rewrite IH'; [|rewrite length_app; simpl; lia|simpl in Hlen; lia
                  |assumption].
    now rewrite <- app_assoc.
Qed.

Section WithWire.

Variable blob : Type.
Variable Marshal : tipb.CMSketch -> option blob * option error.
Variable Unmarshal : blob -> tipb.CMSketch * option error.

(** What [decodeCMSketch] returns on bytes that unmarshal to a
    well-formed message with at least one row. *)
Lemma decodeCMSketch_spec (data : blob) (p : tipb.CMSketch)
    (topn : list (option string)) :
  Unmarshal data = (p, None) -> wfProto p -> tipb.Rows p <> [] ->
  decodeCMSketch Sum128 blob Unmarshal (Some data) topn
  = CMSketchFromProto Sum128
      (Some (tipb.mkCMSketch (tipb.Rows p)
               (match tipb.TopN p with
                | None => None
                | Some entries => Some (attached entries topn)
                end))).
Proof.
  intros Hun Hwf Hne. unfold decodeCMSketch. rewrite Hun.
  destruct (tipb.Rows p) as [|r rows] eqn:Er; [contradiction|].
  cbn [length Nat.eqb]. unfold tipb.lenTopN, attached.
  destruct (tipb.TopN p) as [entries|] eqn:Et.
  - cbn [default from_option id].
    destruct (Nat.eqb_spec (length topn) (length entries)) as [Hlen|Hlen].
    + pose proof (wfp_topn p Hwf) as Hall. rewrite Et in Hall.
      pose proof (attachTopN_spec topn 0 [] entries eq_refl
                    (eq_sym Hlen) Hall) as Hatt.
      cbn [app] in Hatt. rewrite Hatt. reflexivity.
    + cbn [mbind exec_bind]. destruct p. simpl in *. now subst.
  - cbn [default from_option id].
    destruct (Nat.eqb_spec (length topn) 0) as [Hlen|Hlen].
    + destruct topn; [|discriminate]. reflexivity.
    + cbn [mbind exec_bind]. destruct p. simpl in *. now subst.
Qed.

Lemma wfProto_attached (p : tipb.CMSketch) (topn : list (option string)) :
  wfProto p ->
  wfProto (tipb.mkCMSketch (tipb.Rows p)
             (match tipb.TopN p with
              | None => None
              | Some entries => Some (attached entries topn)
              end)).
Proof.
  intros [Hrows Htopn Hd Hw]. constructor; try assumption.
  cbn [tipb.TopN]. destruct (tipb.TopN p) as [entries|]; [|constructor].
  cbn [default from_option id] in *. unfold attached.
  destruct (length topn =? length entries)%nat; [|assumption].
  apply Forall_lookup. intros i e He.
  apply lookup_zip_with_Some in He as (d & e0 & -> & _ & _). eauto.
Qed.

(** C8, with the rows it needs.  For every blob that unmarshals to a
    well-formed message with at least one row and with Top-N entries, if
    an entry has no data once the payloads have been re-attached, then
    [decodeCMSketch] returns the "Broken data" error and no sketch.  For
    every blob that unmarshals to a message without rows,
    [decodeCMSketch] returns no sketch and no error, whatever the Top-N
    entries of the message and the payloads are. *)
Theorem decodeCMSketch_broken (data : blob) (p : tipb.CMSketch)
    (topn : list (option string)) :
  Unmarshal data = (p, None) ->
  (forall entries : list (option tipb.CMSketchTopN),
      wfProto p -> tipb.Rows p <> [] ->
      tipb.TopN p = Some entries ->
      missingData (attached entries topn) = true ->
      decodeCMSketch Sum128 blob Unmarshal (Some data) topn
      = Done (None, Some ErrBrokenData))
  /\ (tipb.Rows p = [] ->
      decodeCMSketch Sum128 blob Unmarshal (Some data) topn
      = Done (None, None)).
Proof.
  intros Hun. split.
  - intros entries Hwf Hne Ht Hmiss.
    rewrite (decodeCMSketch_spec data p topn Hun Hwf Hne).
    pose proof (wfProto_attached p topn Hwf) as Hwf'.
    rewrite CMSketchFromProto_codec_spec; [|exact Hwf'|exact Hne].
    cbn [tipb.TopN]. rewrite Ht, Hmiss. reflexivity.
  - intros Hrows. unfold decodeCMSketch. rewrite Hun, Hrows. reflexivity.
Qed.

Lemma proto_of_table (c : CMSketch)
    (t : option (list (option tipb.CMSketchTopN))) :
  wf c -> table c <> [] ->
  Forall (fun e : option tipb.CMSketchTopN => is_Some e) (default [] t) ->
  let q := tipb.mkCMSketch ((fun row => Some (tipb.mkRow row)) <$> table c) t in
  wfProto q /\ Z.of_nat (protoWidth q) = width c /\
  padded (protoWidth q) <$> tipb.Rows q = table c /\
  Z.of_nat (length (tipb.Rows q)) = depth c.
Proof.
  intros Hwf Hne Ht q.
  pose proof (wf_rows c Hwf) as Hs. pose proof (wf_depth c Hwf) as Hd.
  pose proof (wf_depth32 c Hwf) as Hd32.
  pose proof (wf_width32 c Hwf) as Hw32.
  assert (Hpw : Z.of_nat (protoWidth q) = width c).
  { unfold protoWidth, q. cbn [tipb.Rows].
    destruct (table c) as [|row0 tbl]; [contradiction|].
    apply Forall_cons in Hs as [Hrow0 _]. exact Hrow0. }
  assert (Hrows : Forall (fun row : list Z => length row = protoWidth q)
                    (table c)).
  { eapply Forall_impl; [exact Hs|]. intros row Hrow. simpl in Hrow. lia. }
  split; [|split; [exact Hpw|split]].
  - constructor.
    + cbn [tipb.Rows q]. apply Forall_fmap.
      eapply Forall_impl; [exact Hrows|]. intros row Hrow. simpl in Hrow.
      exists (tipb.mkRow row). split; [reflexivity|].
      cbn [tipb.Counters]. rewrite Hrow. reflexivity.
    + exact Ht.
    + cbn [tipb.Rows q]. rewrite length_fmap. lia.
    + lia.
  - cbn [tipb.Rows q]. rewrite <- list_fmap_compose.
    rewrite <- (list_fmap_id (table c)) at 2.
    apply Forall_fmap_ext. eapply Forall_impl; [exact Hrows|].
    intros row Hrow. unfold padded. simpl.
    now rewrite Hrow, Nat.sub_diag, app_nil_r.
  - cbn [tipb.Rows q]. rewrite length_fmap. exact Hd.
Qed.

(** The wire: marshalling a message without nil pointers gives bytes
    that unmarshal to the same message, an empty repeated field reading
    back as nil. *)
Hypothesis wire_round_trip :
  forall p : tipb.CMSketch,
    Forall (fun r : option tipb.CMSketchRow => is_Some r) (tipb.Rows p) ->
    Forall (fun e : option tipb.CMSketchTopN => is_Some e)
      (default [] (tipb.TopN p)) ->
    exists data : blob,
      Marshal p = (Some data, None) /\
      Unmarshal data = (unmarshalled p, None).

(** C7, with what the codec carries.  Let [c] be a well-formed sketch
    whose count is not 0 and equals the sum of the counters of its last
    row, whose default value is 0, and whose Top-N index, if any, has one
    entry per bucket.  Whatever the order in which the index is visited,
    [encodeCMSketch] returns bytes and payloads, [decodeCMSketch] of
    these returns a sketch, and [Equal] holds between [c] and that
    sketch. *)
Theorem codec_round_trip (c : CMSketch) (order : list (Z * list cmscount.t))
    (rows0 : list (list Z)) (lastRow : list Z) :
  wf c -> table c = rows0 ++ [lastRow] ->
  count c <> 0 -> count c = u64 (sumZ lastRow) -> defaultValue c = 0 ->
  plainIndex Sum128 (default ∅ (topnindex c)) ->
  order ≡ₚ map_to_list (default ∅ (topnindex c)) ->
  Z.of_nat (lenIndex (topnindex c)) < 2 ^ 32 ->
  exists (data : blob) (topn : list (option string)) (c' : CMSketch),
    encodeCMSketch blob Marshal order (Some c) = Done (Some data, topn, None)
    /\ decodeCMSketch Sum128 blob Unmarshal (Some data) topn
       = Done (Some c', None)
    /\ Equal (Some c) (Some c') = Done true.
Proof.
  intros Hwf Htbl Hc0 Hcount Hdv Hplain Hperm Hsize.
  assert (Hne : table c <> []).
  { rewrite Htbl. intros H. now apply app_eq_nil in H as [_ H]. }
  pose proof (wf_depth c Hwf) as Hdepth.
  assert (Hw0 : 0 <= width c).
  { pose proof (wf_rows c Hwf) as Hs. destruct (table c) as [|r t];
      [contradiction|]. apply Forall_cons in Hs as [Hr _]. lia. }
  assert (Hrc : forall t,
             rowsCount ((fun row => Some (tipb.mkRow row)) <$> table c) t
             = count c).
  { intros t. rewrite Htbl, fmap_app. cbn [fmap list_fmap].
    now rewrite rowsCount_last. }
  assert (Hsome : forall tbl : list (list Z),
             Forall (fun r : option tipb.CMSketchRow => is_Some r)
               ((fun row => Some (tipb.mkRow row)) <$> tbl)).
  { intros tbl. apply Forall_fmap, Forall_true. intros row. simpl. eauto. }
  unfold encodeCMSketch.
  destruct (Z.eqb_spec (count c) 0) as [|_]; [contradiction|].
  rewrite (CMSketchToProto_spec c order Hwf ltac:(lia) Hw0 Hplain Hperm Hsize).
  cbn [mbind exec_bind tipb.TopN tipb.Rows].
  destruct (topnindex c) as [m|] eqn:Em.
  - cbn [default from_option id lenIndex] in *.
    rewrite stripTopN_spec. cbn [mbind exec_bind].
    remember (concat order.*2) as entries eqn:Hent.
    set (stripped := (fun v => Some (tipb.mkTopN None (cmscount.count v)))
                       <$> entries).
    assert (Hstr : Forall (fun e : option tipb.CMSketchTopN => is_Some e)
                     stripped).
    { apply Forall_fmap, Forall_true. intros v. simpl. eauto. }
    destruct (wire_round_trip
                (tipb.mkCMSketch
                   ((fun row => Some (tipb.mkRow row)) <$> table c)
                   (Some stripped)) (Hsome _) Hstr)
      as (data & Hmar & Hun).
    rewrite Hmar. exists data, (cmscount.data <$> entries).
    assert (Hall : Forall (fun e : option tipb.CMSketchTopN => is_Some e)
                     (toProto <$> entries)).
    { apply Forall_fmap, Forall_true. intros v. unfold toProto. simpl. eauto. }
    destruct entries as [|e0 entries'].
    + (* an empty index reads back as no index *)
      destruct (proto_of_table c None Hwf Hne ltac:(constructor))
        as (Hwfq & Hpw & Hpad & Hlen).
      cbv zeta in *. unfold unmarshalled in Hun.
      cbn [tipb.TopN tipb.Rows stripped fmap list_fmap] in Hun.
      rewrite (decodeCMSketch_spec data _ _ Hun Hwfq)
        by (cbn [tipb.Rows]; destruct (table c); [contradiction|discriminate]).
      cbn [tipb.TopN tipb.Rows].
      rewrite (CMSketchFromProto_codec_spec _ Hwfq)
        by (cbn [tipb.Rows]; destruct (table c); [contradiction|discriminate]).
      cbn [tipb.TopN]. eexists. split; [reflexivity|]. split; [reflexivity|].
      apply Equal_fields; cbn [width depth count defaultValue table topnindex];
        try congruence.
      * now rewrite Hrc.
      * right. rewrite Em. cbn [lenIndex]. split; [|reflexivity].
        rewrite <- (plain_entries_length m order Hplain Hperm).
        now rewrite <- Hent.
    + set (entries := e0 :: entries') in *.
      destruct (proto_of_table c (Some stripped) Hwf Hne Hstr)
        as (Hwfq & Hpw & Hpad & Hlen).
      cbv zeta in *.
      assert (Hunm : unmarshalled
                       (tipb.mkCMSketch
                          ((fun row => Some (tipb.mkRow row)) <$> table c)
                          (Some stripped))
                     = tipb.mkCMSketch
                         ((fun row => Some (tipb.mkRow row)) <$> table c)
                         (Some stripped)).
      { reflexivity. }
      rewrite Hunm in Hun.
      rewrite (decodeCMSketch_spec data _ _ Hun Hwfq)
        by (cbn [tipb.Rows]; destruct (table c); [contradiction|discriminate]).
      cbn [tipb.TopN tipb.Rows]. unfold stripped. rewrite attached_strip.
      destruct (proto_of_table c (Some (toProto <$> entries)) Hwf Hne Hall)
        as (Hwfq' & Hpw' & Hpad' & Hlen').
      cbv zeta in *.
      rewrite (CMSketchFromProto_codec_spec _ Hwfq')
        by (cbn [tipb.Rows]; destruct (table c); [contradiction|discriminate]).
      cbn [tipb.TopN].
      assert (Hmiss : missingData (toProto <$> entries) = false).
      { unfold missingData. apply not_true_is_false. intros H.
        apply existsb_exists in H as (e & Hin & He).
        apply list_elem_of_In, list_elem_of_fmap in Hin as (v & -> & Hv).
        unfold toProto in He. cbn [tipb.Data] in He.
        apply bool_decide_eq_true in He.
        rewrite Hent in Hv.
        apply list_elem_of_In, in_concat in Hv as (b & Hb & Hvb).
        apply list_elem_of_In in Hb, Hvb.
        apply list_elem_of_fmap in Hb as ([k v'] & -> & Hkv).
        rewrite Hperm in Hkv. apply elem_of_map_to_list in Hkv.
        destruct (Hplain k v' Hkv) as (d & cnt & Hv' & _).
        cbn [fst snd] in Hv', Hvb. subst v'.
        apply list_elem_of_singleton in Hvb. subst v. discriminate. }
      rewrite Hmiss. eexists. split; [reflexivity|]. split; [reflexivity|].
      apply Equal_fields;
        cbn [width depth count defaultValue table topnindex set_topnindex];
        try congruence.
      * now rewrite Hrc.
      * left. rewrite Em, Hent. f_equal.
        now apply fillTopNMap_order.
  - cbn [mbind exec_bind].
    destruct (wire_round_trip
                (tipb.mkCMSketch
                   ((fun row => Some (tipb.mkRow row)) <$> table c) None)
                (Hsome _) ltac:(constructor))
      as (data & Hmar & Hun).
    rewrite Hmar. exists data, [].
    destruct (proto_of_table c None Hwf Hne ltac:(constructor))
      as (Hwfq & Hpw & Hpad & Hlen).
    cbv zeta in *. unfold unmarshalled in Hun.
    cbn [tipb.TopN tipb.Rows] in Hun.
    rewrite (decodeCMSketch_spec data _ _ Hun Hwfq)
      by (cbn [tipb.Rows]; destruct (table c); [contradiction|discriminate]).
    cbn [tipb.TopN tipb.Rows].
    rewrite (CMSketchFromProto_codec_spec _ Hwfq)
      by (cbn [tipb.Rows]; destruct (table c); [contradiction|discriminate]).
    cbn [tipb.TopN]. eexists. split; [reflexivity|]. split; [reflexivity|].
    apply Equal_fields; cbn [width depth count defaultValue table topnindex];
      try congruence.
    + now rewrite Hrc.
    + left. now rewrite Em.
Qed.

End WithWire.

End WithHash.

End TopNCodecProps.

(** * The codec, [Equal] and [Copy] of the revision built around
    [topNHelper] *)

Module SketchCodecProps.
Import Sketch SketchCodec.

(** ** Messages made of a table *)

Lemma CMSketchToProto_rows (c : CMSketch) :
  wf c ->
  CMSketchToProto c
  = Done (tipb.mkCMSketch ((fun row => Some (tipb.mkRow row)) <$> table c)
            None).
Proof.
  intros Hwf. unfold CMSketchToProto.
  pose proof (wf_depth c Hwf) as Hd.
  rewrite make_Done by lia. cbn [mbind exec_bind].
  replace (Z.to_nat (depth c)) with (length (table c)) by lia.
  destruct (table c) as [|row0 tbl] eqn:Et; [reflexivity|].
  pose proof (wf_rows c Hwf) as Hs. rewrite Et in Hs.
  assert (Hw : 0 <= width c).
  { apply Forall_cons in Hs as [H0 _]. simpl in H0. lia. }
  pose proof (TopNCodecProps.protoRows_spec (width c) (row0 :: tbl) Hw Hs
                0%nat [] eq_refl) as H.
  cbn [app] in H. rewrite H. reflexivity.
Qed.

Lemma rows_of_table (w : Z) (tbl : list (list Z)) :
  shaped w tbl -> tbl <> [] ->
  let q := tipb.mkCMSketch ((fun row => Some (tipb.mkRow row)) <$> tbl) None in
  Z.of_nat (protoWidth q) = w /\
  padded (protoWidth q) <$> tipb.Rows q = tbl /\
  Forall (fun r : option tipb.CMSketchRow =>
            exists row, r = Some row /\
              (length (tipb.Counters row) <= protoWidth q)%nat)
    (tipb.Rows q).
Proof.
  intros Hs Hne q.
  assert (Hpw : Z.of_nat (protoWidth q) = w).
  { unfold protoWidth, q. cbn [tipb.Rows].
    destruct tbl as [|row0 tbl]; [contradiction|].
    apply Forall_cons in Hs as [Hrow0 _]. exact Hrow0. }
  assert (Hrows : Forall (fun row : list Z => length row = protoWidth q) tbl).
  { eapply Forall_impl; [exact Hs|]. intros row Hrow. simpl in Hrow. lia. }
  split; [exact Hpw|split].
  - cbn [tipb.Rows q]. rewrite <- list_fmap_compose.
    rewrite <- (list_fmap_id tbl) at 2.
    apply Forall_fmap_ext. eapply Forall_impl; [exact Hrows|].
    intros row Hrow. unfold padded. simpl.
    now rewrite Hrow, Nat.sub_diag, app_nil_r.
  - cbn [tipb.Rows q]. apply Forall_fmap.
    eapply Forall_impl; [exact Hrows|]. intros row Hrow. simpl in Hrow.
    exists (tipb.mkRow row). split; [reflexivity|].
    cbn [tipb.Counters]. rewrite Hrow. reflexivity.
Qed.

Lemma FromProto_of_table (c : CMSketch) (rows0 : list (list Z))
    (lastRow : list Z) :
  wf c -> table c = rows0 ++ [lastRow] ->
  CMSketchFromProto
    (Some (tipb.mkCMSketch ((fun row => Some (tipb.mkRow row)) <$> table c)
             None))
  = Done (Some (mkCMSketch (depth c) (width c) (u64 (sumZ lastRow)) 0
                  (table c) None)).
Proof.
  intros Hwf Htbl.
  assert (Hne : table c <> []).
  { rewrite Htbl. intros H. now apply app_eq_nil in H as [_ H]. }
  destruct (rows_of_table (width c) (table c) (wf_rows c Hwf) Hne)
    as (Hpw & Hpad & Hrows).
  pose proof (wf_depth c Hwf) as Hd.
  pose proof (wf_depth32 c Hwf) as Hd32.
  pose proof (wf_width32 c Hwf) as Hw32.
  rewrite SketchProps.CMSketchFromProto_spec.
  - rewrite Hpad, Hpw. cbn [tipb.Rows]. rewrite length_fmap, Hd.
    do 3 f_equal. rewrite Htbl, fmap_app. cbn [fmap list_fmap].
    now rewrite rowsCount_last.
  - exact Hrows.
  - cbn [tipb.Rows]. rewrite length_fmap. lia.
  - lia.
  - cbn [tipb.Rows]. intros H. apply fmap_nil_inv in H. contradiction.
Qed.

(** Converting a sketch to its message and back keeps the dimensions
    and the table, recomputes the count from the last row, and drops the
    default value and the Top-N index. *)
Theorem CMSketchFromProto_CMSketchToProto (c : CMSketch)
    (rows0 : list (list Z)) (lastRow : list Z) :
  wf c -> table c = rows0 ++ [lastRow] ->
  (p ← CMSketchToProto c; CMSketchFromProto (Some p))
  = Done (Some (mkCMSketch (depth c) (width c) (u64 (sumZ lastRow)) 0
                  (table c) None)).
Proof.
  intros Hwf Htbl. rewrite (CMSketchToProto_rows c Hwf).
  cbn [mbind exec_bind]. exact (FromProto_of_table c rows0 lastRow Hwf Htbl).
Qed.

(** ** [Equal] *)

Lemma equalCells_spec (rtable : list (list Z)) (i : nat) (row : list Z) :
  forall (pre rrow : list Z),
    rtable !! i = Some (pre ++ rrow) -> length row = length rrow ->
    TopNCodec.equalCells row rtable i (length pre)
    = Done (bool_decide (row = rrow)).
Proof.
  induction row as [|x row IH]; intros pre rrow Hi Hlen.
  - destruct rrow; [|discriminate]. reflexivity.
  - destruct rrow as [|y rrow]; [discriminate|].
    cbn [TopNCodec.equalCells].
    rewrite (index_Done rtable i _ Hi). cbn [mbind exec_bind].
    rewrite (index_Done _ _ y)
      by (rewrite lookup_app_r, Nat.sub_diag by lia; reflexivity).
    cbn [mbind exec_bind].
    destruct (Z.eqb_spec x y) as [->|Hxy]; cbn [negb].
    + specialize (IH (pre ++ [y]) rrow).
      rewrite <- app_assoc in IH. cbn [app] in IH.
      rewrite length_app in IH. simpl in IH. rewrite Nat.add_1_r in IH.
      rewrite IH by (assumption || (simpl in Hlen; lia)).
      f_equal. apply bool_decide_ext. split; [congruence|].
      intros H. now injection H.
    + rewrite bool_decide_eq_false_2; [reflexivity|congruence].
Qed.

Lemma equalRows_spec (tbl : list (list Z)) :
  forall (pre rtbl : list (list Z)),
    Forall2 (fun row rrow : list Z => length row = length rrow) tbl rtbl ->
    TopNCodec.equalRows tbl (pre ++ rtbl) (length pre)
    = Done (bool_decide (tbl = rtbl)).
Proof.
  induction tbl as [|row tbl IH]; intros pre rtbl H2.
  - inversion H2. reflexivity.
  - inversion H2 as [|? rrow ? rtbl' Hlen H2' E1 E2]; subst.
    cbn [TopNCodec.equalRows].
    assert (Hi : (pre ++ rrow :: rtbl') !! length pre = Some ([] ++ rrow)).
    { rewrite lookup_app_r, Nat.sub_diag by lia. reflexivity. }
    pose proof (equalCells_spec _ _ row [] rrow Hi Hlen) as Hc.
    cbn [length] in Hc. rewrite Hc. cbn [mbind exec_bind].
    destruct (decide (row = rrow)) as [->|Hne].
    + rewrite bool_decide_eq_true_2 by reflexivity.
      specialize (IH (pre ++ [rrow]) rtbl' H2').
      rewrite <- app_assoc in IH. cbn [app] in IH.
      rewrite length_app in IH. simpl in IH. rewrite Nat.add_1_r in IH.
      rewrite IH. f_equal. apply bool_decide_ext. split; [congruence|].
      intros H. now injection H.
    + rewrite (bool_decide_eq_false_2 _ Hne).
      rewrite bool_decide_eq_false_2; [reflexivity|congruence].
Qed.

Lemma Equal_run (c rc : CMSketch) :
  wf c -> wf rc ->
  Equal (Some c) (Some rc)
  = Done (bool_decide (width c = width rc /\ depth c = depth rc /\
                       count c = count rc /\ table c = table rc)).
Proof.
  intros Hc Hrc. unfold Equal.
  destruct (Z.eqb_spec (width c) (width rc)) as [Hw|Hw]; cbn [negb orb];
    [|rewrite bool_decide_eq_false_2; [reflexivity|tauto]].
  destruct (Z.eqb_spec (depth c) (depth rc)) as [Hd|Hd]; cbn [negb orb];
    [|rewrite bool_decide_eq_false_2; [reflexivity|tauto]].
  destruct (Z.eqb_spec (count c) (count rc)) as [Hn|Hn]; cbn [negb orb];
    [|rewrite bool_decide_eq_false_2; [reflexivity|tauto]].
  pose proof (equalRows_spec (table c) [] (table rc)
                (SketchProps.wf_same_shape c rc Hc Hrc Hd Hw)) as H.
  cbn [app length] in H. rewrite H. f_equal.
  apply bool_decide_ext. tauto.
Qed.

(** [Equal] on two well-formed sketches returns [true] exactly when the
    dimensions, the count and the tables are the same: the default
    value and the Top-N index play no part. *)
Theorem Equal_spec (c rc : CMSketch) :
  wf c -> wf rc ->
  exists b,
    Equal (Some c) (Some rc) = Done b /\
    (b = true <->
     width c = width rc /\ depth c = depth rc /\ count c = count rc /\
     table c = table rc).
Proof.
  intros Hc Hrc. rewrite (Equal_run c rc Hc Hrc).
  eexists. split; [reflexivity|]. apply bool_decide_eq_true.
Qed.

(** ** [Copy] *)

Lemma copy_full (w : nat) (src : list Z) :
  length src = w -> copy (replicate w 0) src = src.
Proof.
  intros H. unfold copy. rewrite length_replicate, <- H.
  rewrite firstn_all, drop_ge by (rewrite length_replicate; lia).
  apply app_nil_r.
Qed.

Lemma copyRows_spec (w : Z) (table : list (list Z)) :
  0 <= w \/ table = [] -> shaped w table ->
  forall (pre rest : list (list Z)) (tbl : list (list Z)),
    table = pre ++ rest -> length tbl = length rest ->
    copyRows w table (length pre) tbl = Done rest.
Proof.
  intros Hw Hs pre rest. revert pre.
  induction rest as [|row rest IH]; intros pre tbl Ht Hlen.
  - destruct tbl; [reflexivity|discriminate].
  - destruct tbl as [|x tbl]; [discriminate|].
    cbn [copyRows].
    assert (Hw0 : 0 <= w).
    { destruct Hw as [?|Hw]; [assumption|].
      rewrite Hw in Ht. now destruct pre. }
    rewrite make_Done by assumption. cbn [mbind exec_bind].
    rewrite (index_Done table _ row)
      by (rewrite Ht, lookup_app_r, Nat.sub_diag by lia; reflexivity).
    cbn [mbind exec_bind].
    specialize (IH (pre ++ [row]) tbl).
    rewrite length_app in IH. simpl in IH. rewrite Nat.add_1_r in IH.
    rewrite IH; [|now rewrite <- app_assoc|simpl in Hlen; lia].
    cbn [mbind exec_bind]. f_equal. f_equal.
    apply copy_full.
    unfold shaped in Hs. rewrite Ht in Hs.
    apply Forall_app in Hs as [_ Hs]. apply Forall_cons in Hs as [Hr _].
    simpl in Hr. lia.
Qed.

Lemma Copy_run (c : CMSketch) :
  wf c ->
  Copy (Some c)
  = Done (Some (mkCMSketch (depth c) (width c) (count c) 0 (table c) None)).
Proof.
  intros Hwf. unfold Copy.
  pose proof (wf_depth c Hwf) as Hd.
  rewrite make_Done by lia. cbn [mbind exec_bind].
  rewrite (copyRows_spec (width c) (table c)) with (pre := []) (rest := table c).
  - reflexivity.
  - destruct (table c) as [|row tbl] eqn:Et; [now right|left].
    pose proof (wf_rows c Hwf) as Hs. rewrite Et in Hs.
    apply Forall_cons in Hs as [H0 _]. simpl in H0. lia.
  - apply (wf_rows c Hwf).
  - reflexivity.
  - rewrite length_replicate. lia.
Qed.

Lemma wf_stripped (c : CMSketch) (n : Z) :
  wf c -> is_u64 n ->
  wf (mkCMSketch (depth c) (width c) n 0 (table c) None).
Proof.
  intros Hwf Hn. constructor; cbn [depth width count defaultValue table topN].
  - apply (wf_depth c Hwf).
  - apply (wf_rows c Hwf).
  - apply (wf_cells c Hwf).
  - exact Hn.
  - unfold is_u64. lia.
  - apply (wf_depth32 c Hwf).
  - apply (wf_width32 c Hwf).
Qed.

(** [Copy] of a well-formed sketch returns a sketch with its dimensions,
    count and table, without its default value and without its Top-N
    index; [Equal] holds between the two all the same. *)
Theorem Copy_spec (c : CMSketch) :
  wf c ->
  exists c',
    Copy (Some c) = Done (Some c') /\
    depth c' = depth c /\ width c' = width c /\ count c' = count c /\
    table c' = table c /\ defaultValue c' = 0 /\ topN c' = None /\
    Equal (Some c) (Some c') = Done true.
Proof.
  intros Hwf. rewrite (Copy_run c Hwf). eexists. split; [reflexivity|].
  cbn [depth width count defaultValue table topN]. repeat split.
  rewrite Equal_run;
    [|assumption|apply wf_stripped; [assumption|apply (wf_count c Hwf)]].
  cbn [depth width count table]. f_equal.
  now apply bool_decide_eq_true_2.
Qed.

(** ** Messages that [CMSketchFromProto] cannot read *)

Lemma store_out {A} (l : list A) (i : Z) (x : A) :
  Z.of_nat (length l) <= i -> store l i x = Crash IndexOutOfRange.
Proof.
  intros H. unfold store.
  destruct (Z.ltb_spec i 0); [reflexivity|].
  destruct (Z.leb_spec (Z.of_nat (length l)) i); [reflexivity|lia].
Qed.

Lemma fromCounters_crash (counters : list Z) (i : nat) :
  forall (j : nat) (tbl : list (list Z)) (cnt : Z) (trow : list Z),
    tbl !! i = Some trow -> (j <= length trow)%nat ->
    (length trow < j + length counters)%nat ->
    fromCounters counters i j (tbl, cnt) = Crash IndexOutOfRange.
Proof.
  induction counters as [|x counters IH]; intros j tbl cnt trow Hi Hj Hlen.
  - simpl in Hlen. lia.
  - cbn [fromCounters length] in *.
    rewrite (index_Done tbl i trow Hi). cbn [mbind exec_bind].
    destruct (decide (j = length trow)) as [->|Hne].
    + now rewrite store_out by lia.
    + rewrite store_Done by lia. cbn [mbind exec_bind].
      rewrite store_Done by (eapply lookup_lt_Some, Hi).
      cbn [mbind exec_bind].
      apply (IH (S j) _ _ (<[j := x]> trow)).
      * apply list_lookup_insert_eq. eapply lookup_lt_Some, Hi.
      * rewrite length_insert. lia.
      * rewrite length_insert. lia.
Qed.

Lemma fromRows_prefix (w : nat) (rows : list (option tipb.CMSketchRow)) :
  forall (i : nat) (pre suf : list (list Z)) (count0 : Z)
         (rest : list (option tipb.CMSketchRow)),
    length pre = i ->
    Forall (fun r : option tipb.CMSketchRow =>
              exists row, r = Some row /\
                (length (tipb.Counters row) <= w)%nat) rows ->
    fromRows (rows ++ rest) i
      (pre ++ replicate (length rows) (replicate w 0) ++ suf, count0)
    = fromRows rest (i + length rows)
        (pre ++ (padded w <$> rows) ++ suf, rowsCount rows count0).
Proof.
  induction rows as [|r rows IH]; intros i pre suf count0 rest Hi Hrows.
  - cbn [app length replicate fmap list_fmap]. now rewrite Nat.add_0_r.
  - apply Forall_cons in Hrows as [(row & -> & Hlen) Hrows].
    cbn [app fromRows]. cbn [deref mbind exec_bind].
    rewrite (fromCounters_spec (tipb.Counters row) i 0 _ 0 (replicate w 0)).
    2:{ rewrite lookup_app_r, Hi, Nat.sub_diag by lia. reflexivity. }
    2:{ rewrite length_replicate. lia. }
    2:{ unfold is_u64. lia. }
    cbn [mbind exec_bind take app]. rewrite Z.add_0_l.
    rewrite drop_replicate. cbn [Nat.add length replicate].
    rewrite <- Hi, insert_app_r_alt, Nat.sub_diag by lia.
    cbn [app insert list_insert].
    pose proof (IH (S (length pre))
                  (pre ++ [tipb.Counters row
                           ++ replicate (w - length (tipb.Counters row)) 0])
                  suf (u64 (sumZ (tipb.Counters row))) rest) as IH'.
    rewrite <- !app_assoc in IH'. cbn [app] in IH'.
    rewrite take_0. cbn [app].
    rewrite IH'; [|rewrite length_app; simpl; lia|assumption].
    rewrite fmap_cons. cbn [app]. f_equal. lia.
Qed.

(** A message without rows, or with a row that has more counters than
    row 0, makes [CMSketchFromProto] panic with an index out of range;
    [DecodeCMSketch] guards the first case only, and
    [buildStatsFromResult] neither. *)
Theorem CMSketchFromProto_out_of_range (p : tipb.CMSketch) :
  (tipb.Rows p = [] -> CMSketchFromProto (Some p) = Crash IndexOutOfRange)
  /\ (forall (pre post : list (option tipb.CMSketchRow))
            (row : tipb.CMSketchRow),
        tipb.Rows p = pre ++ Some row :: post ->
        Forall (fun r : option tipb.CMSketchRow =>
                  exists x, r = Some x /\
                    (length (tipb.Counters x) <= protoWidth p)%nat) pre ->
        (protoWidth p < length (tipb.Counters row))%nat ->
        Z.of_nat (length (tipb.Rows p)) < 2 ^ 31 ->
        Z.of_nat (protoWidth p) < 2 ^ 31 ->
        CMSketchFromProto (Some p) = Crash IndexOutOfRange).
Proof.
  split.
  - intros H. unfold CMSketchFromProto. now rewrite H.
  - intros pre post row Hrows Hpre Hlong Hd Hw.
    unfold CMSketchFromProto.
    destruct pre as [|r0 pre'] eqn:Epre.
    { exfalso. unfold protoWidth in Hlong. rewrite Hrows in Hlong.
      simpl in Hlong. lia. }
    pose proof Hpre as Hpre0.
    apply Forall_cons in Hpre0 as [(row0 & -> & _) _].
    rewrite Hrows. cbn [app].
    pose proof (index_Done (Some row0 :: pre' ++ Some row :: post) 0%nat
                  (Some row0) eq_refl) as H0.
    change (Z.of_nat 0) with 0 in H0. rewrite H0. clear H0.
    cbn [mbind exec_bind deref].
    assert (Hpw : protoWidth p = length (tipb.Counters row0)).
    { unfold protoWidth. now rewrite Hrows. }
    rewrite <- Hpw.
    assert (Hdl : Z.of_nat (length (Some row0 :: pre' ++ Some row :: post))
                  = Z.of_nat (length (tipb.Rows p))) by now rewrite Hrows.
    rewrite !i32_id by lia.
    rewrite SketchProps.NewCMSketch_Done by lia.
    cbn [mbind exec_bind table count]. rewrite !Nat2Z.id.
    set (rows1 := Some row0 :: pre') in *.
    change (Some row0 :: pre' ++ Some row :: post)
      with (rows1 ++ Some row :: post).
    rewrite length_app. cbn [length]. rewrite replicate_add.
    pose proof (fromRows_prefix (protoWidth p) rows1 0 []
                  (replicate (S (length post))
                     (replicate (protoWidth p) 0)) 0
                  (Some row :: post) eq_refl Hpre) as Hpref.
    cbn [app] in Hpref. rewrite Hpref. clear Hpref.
    cbn [fromRows deref mbind exec_bind Nat.add].
    rewrite (fromCounters_crash (tipb.Counters row) (length rows1) 0 _ 0
               (replicate (protoWidth p) 0)).
    + reflexivity.
    + rewrite lookup_app_r by (rewrite length_fmap; lia).
      rewrite length_fmap, Nat.sub_diag. reflexivity.
    + lia.
    + rewrite length_replicate. lia.
Qed.

(** ** Encoding and decoding *)

Section WithWire.

Variable blob : Type.
Variable Marshal : tipb.CMSketch -> option blob * option error.
Variable Unmarshal : blob -> tipb.CMSketch * option error.

(** The wire: marshalling a message of rows gives bytes that unmarshal
    to the same message. *)
Hypothesis wire_rows :
  forall p : tipb.CMSketch,
    Forall (fun r : option tipb.CMSketchRow => is_Some r) (tipb.Rows p) ->
    tipb.TopN p = None ->
    exists data : blob,
      Marshal p = (Some data, None) /\ Unmarshal data = (p, None).

(** Encoding and decoding a well-formed sketch whose count is not 0 and
    is the sum of its last row gives a sketch that [Equal] accepts, with
    the same dimensions, count and table, and without the default value
    and the Top-N index of the original. *)
Theorem DecodeCMSketch_EncodeCMSketch (c : CMSketch)
    (rows0 : list (list Z)) (lastRow : list Z) :
  wf c -> table c = rows0 ++ [lastRow] ->
  count c <> 0 -> count c = u64 (sumZ lastRow) ->
  exists (data : blob) (c' : CMSketch),
    EncodeCMSketch blob Marshal (Some c) = Done (Some data, None) /\
    DecodeCMSketch blob Unmarshal (Some data) = Done (Some c', None) /\
    Equal (Some c) (Some c') = Done true /\
    table c' = table c /\ defaultValue c' = 0 /\ topN c' = None.
Proof.
  intros Hwf Htbl Hc0 Hcount.
  unfold EncodeCMSketch.
  destruct (Z.eqb_spec (count c) 0) as [|_]; [contradiction|].
  rewrite (CMSketchToProto_rows c Hwf). cbn [mbind exec_bind].
  set (p := tipb.mkCMSketch _ None).
  destruct (wire_rows p) as (data & Hm & Hu).
  { subst p. cbn [tipb.Rows]. apply Forall_fmap, Forall_true.
    intros row. simpl. eauto. }
  { reflexivity. }
  rewrite Hm. exists data. eexists. split; [reflexivity|].
  unfold DecodeCMSketch. rewrite Hu.
  assert (Hlen : length (tipb.Rows p) <> 0%nat).
  { subst p. cbn [tipb.Rows]. rewrite length_fmap, Htbl, length_app.
    simpl. lia. }
  destruct (Nat.eqb_spec (length (tipb.Rows p)) 0) as [|_]; [contradiction|].
  subst p. rewrite (FromProto_of_table c rows0 lastRow Hwf Htbl).
  cbn [mbind exec_bind]. split; [reflexivity|].
  cbn [table defaultValue topN]. split; [|repeat split].
  rewrite Equal_run;
    [|assumption|apply wf_stripped; [assumption|apply u64_range]].
  cbn [depth width count table]. f_equal.
  apply bool_decide_eq_true_2. auto.
Qed.

End WithWire.

End SketchCodecProps.

(** * Laws of the Top-N index and of [Copy] *)

Module TopNCodecLaws.
Import TopNCodec TopNCodecCopy.

(** ** Lookups leave the sketch as it was *)

Lemma queryAddLoop_zero (h2 : Z) (d : option string) (cnt : list cmscount.t) :
  Forall (fun e => is_u64 (cmscount.count e)) cnt ->
  forall cnt' v,
    queryAddLoop h2 0 d cnt = Some (cnt', v) -> cnt' = cnt.
Proof.
  induction 1 as [|e cnt He _ IH]; intros cnt' v H; [discriminate|].
  cbn [queryAddLoop] in H. destruct (matches h2 d e).
  - injection H as <- _. f_equal. destruct e as [a b c n]. simpl in *.
    now rewrite Z.add_0_r, u64_id.
  - destruct (queryAddLoop h2 0 d cnt) as [[rest' v']|]; [|discriminate].
    injection H as <- _. f_equal. eapply IH. reflexivity.
Qed.

(** [queryTopN], which goes through [queryAddTopN] with a delta of 0
    and writes the count back, leaves the sketch as it was. *)
Theorem queryTopN_keeps (c : CMSketch) (h1 h2 : Z) (d : option string) :
  counts64 (default ∅ (topnindex c)) ->
  (queryTopN c h1 h2 d).1.1 = c.
Proof.
  intros H64. unfold queryTopN, queryAddTopN.
  destruct (topnindex c) as [m|] eqn:Em; [|reflexivity].
  cbn [default from_option id] in H64.
  destruct (m !! h1) as [cnt|] eqn:Ecnt; [|reflexivity].
  destruct (queryAddLoop h2 0 d cnt) as [[cnt' v]|] eqn:El; [|reflexivity].
  cbn [fst]. apply queryAddLoop_zero in El.
  - subst cnt'. rewrite insert_id by assumption.
    destruct c. unfold set_topnindex. simpl in *. now rewrite Em.
  - apply Forall_forall. intros e He. exact (H64 h1 cnt e Ecnt He).
Qed.

(** ** [Copy] *)

Lemma copyIndex_from (order : list (Z * list cmscount.t)) :
  forall (acc : gmap Z (list cmscount.t)) (k : Z),
    NoDup order.*1 ->
    foldl (fun (ntopn : gmap Z (list cmscount.t))
               (kv : Z * list cmscount.t) =>
             <[kv.1 := copyBucket kv.2]> ntopn) acc order !! k
    = match (list_to_map order : gmap Z (list cmscount.t)) !! k with
      | Some v => Some (copyBucket v)
      | None => acc !! k
      end.
Proof.
  induction order as [|[k0 v0] order IH]; intros acc k Hnd.
  - reflexivity.
  - rewrite fmap_cons in Hnd. apply NoDup_cons in Hnd as [Hk0 Hnd].
    cbn [foldl fst snd list_to_map foldr]. rewrite IH by assumption.
    destruct (decide (k = k0)) as [->|Hne].
    + rewrite lookup_insert_eq.
      rewrite (not_elem_of_list_to_map_1 order k0 Hk0).
      now rewrite lookup_insert_eq.
    + rewrite !lookup_insert_ne by congruence. reflexivity.
Qed.

Lemma copyIndex_fmap (m : gmap Z (list cmscount.t))
    (order : list (Z * list cmscount.t)) :
  order ≡ₚ map_to_list m ->
  copyIndex order = copyBucket <$> m.
Proof.
  intros Hperm. apply map_eq. intros k. unfold copyIndex.
  rewrite copyIndex_from.
  - rewrite lookup_empty, lookup_fmap.
    replace (list_to_map order : gmap Z (list cmscount.t)) with m.
    + now destruct (m !! k).
    + rewrite <- (list_to_map_to_list m).
      symmetry. apply list_to_map_proper; [|exact Hperm].
      rewrite Hperm. apply NoDup_fst_map_to_list.
  - rewrite Hperm. apply NoDup_fst_map_to_list.
Qed.

Lemma hasMatch_copy (e : cmscount.t) (v : list cmscount.t) :
  e ∈ v -> hasMatch e (copyBucket v) = true.
Proof.
  intros He. unfold hasMatch, copyBucket. apply existsb_exists.
  exists (copyEntry e).
  split; [apply list_elem_of_In, list_elem_of_fmap; eauto|].
  unfold copyEntry. cbn [cmscount.h2 cmscount.data cmscount.count].
  rewrite !Z.eqb_refl. unfold bytes_Equal.
  now rewrite bool_decide_eq_true_2.
Qed.

Lemma equalIndex_copy (m : gmap Z (list cmscount.t)) :
  equalIndex m (Some (copyBucket <$> m)) = true.
Proof.
  unfold equalIndex. apply forallb_forall. intros [k v] Hin.
  apply list_elem_of_In, elem_of_map_to_list in Hin.
  cbn [default from_option id fst snd]. rewrite lookup_fmap, Hin.
  cbn [fmap option_fmap option_map]. unfold copyBucket at 1.
  rewrite length_fmap, Nat.eqb_refl.
  cbn [andb]. apply forallb_forall. intros e He.
  apply hasMatch_copy. now apply list_elem_of_In.
Qed.

Lemma Copy_codec_run (order : list (Z * list cmscount.t)) (c : CMSketch) :
  wf c -> order ≡ₚ map_to_list (default ∅ (topnindex c)) ->
  Copy order (Some c)
  = Done (Some (mkCMSketch (depth c) (width c) (count c) 0 (table c)
                  (match topnindex c with
                   | None => None
                   | Some m => Some (copyBucket <$> m)
                   end))).
Proof.
  intros Hwf Hperm. unfold Copy.
  pose proof (wf_depth c Hwf) as Hd.
  rewrite make_Done by lia. cbn [mbind exec_bind].
  rewrite (SketchCodecProps.copyRows_spec (width c) (table c))
    with (pre := []) (rest := table c).
  - cbn [mbind exec_bind]. do 3 f_equal.
    destruct (topnindex c) as [m|]; [|reflexivity].
    cbn [default from_option id] in *.
    f_equal. now apply copyIndex_fmap.
  - destruct (table c) as [|row tbl] eqn:Et; [now right|left].
    pose proof (wf_rows c Hwf) as Hs. rewrite Et in Hs.
    apply Forall_cons in Hs as [H0 _]. simpl in H0. lia.
  - apply (wf_rows c Hwf).
  - reflexivity.
  - rewrite length_replicate. lia.
Qed.

(** [Copy] of a well-formed sketch keeps the dimensions, the count, the
    table and the Top-N entries (with new slices for their bytes) and
    drops the default value, so [Equal] holds between a sketch and its
    copy exactly when the sketch has no default value. *)
Theorem Copy_Equal (order : list (Z * list cmscount.t)) (c : CMSketch) :
  wf c -> order ≡ₚ map_to_list (default ∅ (topnindex c)) ->
  exists c',
    Copy order (Some c) = Done (Some c') /\
    depth c' = depth c /\ width c' = width c /\ count c' = count c /\
    table c' = table c /\ defaultValue c' = 0 /\
    topnindex c' = match topnindex c with
                   | None => None
                   | Some m => Some (copyBucket <$> m)
                   end /\
    Equal (Some c) (Some c') = Done (bool_decide (defaultValue c = 0)).
Proof.
  intros Hwf Hperm. rewrite (Copy_codec_run order c Hwf Hperm).
  eexists. split; [reflexivity|].
  cbn [depth width count defaultValue table topnindex]. repeat split.
  unfold Equal. cbn [depth width count defaultValue table topnindex].
  rewrite !Z.eqb_refl. cbn [negb orb].
  destruct (Z.eqb_spec (defaultValue c) 0) as [Hdv|Hdv]; cbn [negb].
  2:{ now rewrite bool_decide_eq_false_2. }
  rewrite bool_decide_eq_true_2 by assumption.
  pose proof (TopNCodecProps.equalRows_refl (table c) []) as Hr.
  cbn [app length] in Hr. rewrite Hr. cbn [mbind exec_bind negb].
  destruct (topnindex c) as [m|]; [|reflexivity].
  cbn [lenIndex default from_option id].
  rewrite map_size_fmap.
  destruct (0 <? size m)%nat; cbn [orb]; [|reflexivity].
  rewrite Nat.eqb_refl. cbn [negb]. f_equal. apply equalIndex_copy.
Qed.

(** ** [Equal] *)

(** [Equal] holds between a sketch and itself, whatever its table and
    its Top-N index, and between two nil sketches; it fails between a
    sketch and nil. *)
Theorem Equal_reflexive (c : CMSketch) :
  Equal (Some c) (Some c) = Done true /\
  Equal None None = Done true /\
  Equal (Some c) None = Done false /\ Equal None (Some c) = Done false.
Proof.
  split; [|repeat split].
  apply TopNCodecProps.Equal_fields; auto.
Qed.

Section WithHash.

Variable Sum128 : string -> Z * Z.

(** ** Looking up what [buildTopNMap] stored *)

Lemma fillTopNMap_bucket (entries : list cmscount.t) :
  forall (m : gmap Z (list cmscount.t)) (h : Z),
    default [] (fillTopNMap Sum128 entries m !! h)
    = default [] (m !! h)
      ++ (rehashed Sum128
            <$> filter (fun e : cmscount.t =>
                          cmscount.data e <> None /\
                          (Sum128 (contents (cmscount.data e))).1 = h)
                  entries).
Proof.
  induction entries as [|e rest IH]; intros m h.
  - cbn [fillTopNMap]. now rewrite filter_nil, fmap_nil, app_nil_r.
  - cbn [fillTopNMap]. rewrite filter_cons.
    destruct (cmscount.data e) as [d|] eqn:Ed.
    + cbn [contents default] in *.
      destruct (Sum128 d) as [h1 h2] eqn:Eh. rewrite IH.
      destruct (decide (h1 = h)) as [->|Hne].
      * rewrite decide_True
          by (split; [discriminate|unfold id; now rewrite Eh]).
        rewrite lookup_insert_eq.
        cbn [default from_option id].
        rewrite fmap_cons, <- app_assoc. cbn [app]. f_equal. f_equal.
        unfold rehashed. rewrite Ed. simpl. now rewrite Eh.
      * rewrite decide_False.
        2:{ intros [_ H]. unfold id in H. rewrite Eh in H. now apply Hne. }
        now rewrite lookup_insert_ne.
    + rewrite decide_False by (intros [H _]; now apply H).
      apply IH.
Qed.

Lemma buildTopNMap_member (c : CMSketch) (topn : list cmscount.t)
    (key : option string) :
  topNMember Sum128 (buildTopNMap Sum128 c topn) key <->
  exists e, e ∈ topn /\ cmscount.data e <> None /\
            contents (cmscount.data e) = contents key.
Proof.
  unfold topNMember, buildTopNMap, set_topnindex. cbn [topnindex].
  split.
  - intros (m & e & Hm & He & Hh2 & Hdata). injection Hm as <-.
    rewrite fillTopNMap_bucket, lookup_empty in He.
    cbn [default from_option app] in He.
    apply list_elem_of_fmap in He as (e0 & -> & He0).
    apply list_elem_of_filter in He0 as [[Hd _] He0].
    exists e0. unfold rehashed in Hdata. cbn [cmscount.data] in Hdata. auto.
  - intros (e & He & Hd & Hc).
    eexists _, (rehashed Sum128 e). split; [reflexivity|].
    rewrite fillTopNMap_bucket, lookup_empty.
    cbn [default from_option app]. split.
    + apply list_elem_of_fmap. exists e. split; [reflexivity|].
      apply list_elem_of_filter. split; [|assumption].
      split; [assumption|now rewrite Hc].
    + unfold rehashed. cbn [cmscount.h2 cmscount.data]. rewrite Hc. auto.
Qed.

(** After [buildTopNMap], a key is a member of the Top-N index exactly
    when the slice holds an entry with its bytes that is not nil, and
    [QueryBytes] of the bytes of such an entry returns its count,
    provided the entries with these bytes agree on it. *)
Theorem buildTopNMap_lookup (c : CMSketch) (topn : list cmscount.t) :
  (forall key : option string,
      topNMember Sum128 (buildTopNMap Sum128 c topn) key <->
      exists e, e ∈ topn /\ cmscount.data e <> None /\
                contents (cmscount.data e) = contents key)
  /\ (forall (e : cmscount.t) (d : string),
        e ∈ topn -> cmscount.data e = Some d ->
        is_u64 (cmscount.count e) ->
        (forall e', e' ∈ topn -> cmscount.data e' <> None ->
                    contents (cmscount.data e') = d ->
                    cmscount.count e' = cmscount.count e) ->
        QueryBytes Sum128 (buildTopNMap Sum128 c topn) (Some d)
        = Done (cmscount.count e)).
Proof.
  split; [apply buildTopNMap_member|].
  intros e d He Hd H64 Hsame.
  unfold QueryBytes, queryTopN, queryAddTopN, buildTopNMap, set_topnindex.
  cbn [topnindex contents default from_option id].
  destruct (Sum128 d) as [h1 h2] eqn:Eh.
  pose proof (fillTopNMap_bucket topn ∅ h1) as Hb.
  rewrite lookup_empty in Hb. cbn [default from_option app] in Hb.
  assert (Hin : rehashed Sum128 e
                ∈ default [] (fillTopNMap Sum128 topn ∅ !! h1)).
  { rewrite Hb. apply list_elem_of_fmap. exists e. split; [reflexivity|].
    apply list_elem_of_filter. split; [|assumption].
    rewrite Hd. split; [discriminate|]. simpl. unfold id. now rewrite Eh. }
  destruct (fillTopNMap Sum128 topn ∅ !! h1) as [cnt|] eqn:Ecnt;
    [|now apply elem_of_nil in Hin].
  cbn [default from_option id] in Hb, Hin.
  destruct (TopNCodecProps.first_match h2 (Some d) cnt)
    as (pre & e1 & suf & Hcnt & Hpre & He1).
  { exists (rehashed Sum128 e). split; [assumption|].
    apply TopNCodecProps.matches_codec_true. unfold rehashed.
    cbn [cmscount.h2 cmscount.data]. rewrite Hd. simpl. unfold id.
    rewrite Eh. auto. }
  rewrite Hcnt, (TopNCodecProps.queryAddLoop_at h2 0 (Some d) pre suf e1 Hpre He1).
  f_equal. rewrite Z.add_0_r.
  assert (He1in : e1 ∈ cnt).
  { rewrite Hcnt. apply elem_of_app. right. apply list_elem_of_here. }
  rewrite Hb in He1in.
  apply list_elem_of_fmap in He1in as (e0 & -> & He0).
  apply list_elem_of_filter in He0 as [[Hd0 _] He0].
  apply TopNCodecProps.matches_codec_true in He1 as [_ Hc1].
  unfold rehashed in Hc1 |- *. cbn [cmscount.data cmscount.count] in *.
  rewrite (Hsame e0 He0 Hd0 Hc1). now apply u64_id.
Qed.

(** ** Asking for no Top-N entry *)

Lemma collectSorted_outcome (entries : list cmscount.t) :
  forall (seq : Z) (sorted : list Z),
    collectSorted entries seq sorted = Crash IndexOutOfRange \/
    exists sorted', collectSorted entries seq sorted = Done sorted' /\
                    length sorted' = length sorted.
Proof.
  induction entries as [|e entries IH]; intros seq sorted.
  - right. exists sorted. split; reflexivity.
  - cbn [collectSorted]. unfold store.
    destruct ((seq <? 0) || (Z.of_nat (length sorted) <=? seq));
      [now left|].
    cbn [mbind exec_bind].
    destruct (IH (seq + 1) (<[Z.to_nat seq := cmscount.count e]> sorted))
      as [H|(sorted' & H & Hlen)]; [now left|].
    right. exists sorted'. split; [exact H|].
    now rewrite Hlen, length_insert.
Qed.

Lemma countSample_ndv (data : list (option string)) :
  forall st : gmap Z (list cmscount.t) * Z,
    0 <= st.2 < 2 ^ 32 ->
    0 <= (foldl (countSample Sum128) st data).2 < 2 ^ 32.
Proof.
  induction data as [|d data IH]; intros st Hst; [exact Hst|].
  cbn [foldl]. apply IH. unfold countSample.
  destruct st as [counter ndv]. destruct (Sum128 (contents d)) as [h1 h2].
  destruct (countInBucket h2 d (default [] (counter !! h1))) as [sl found].
  destruct found; cbn [snd] in *; [exact Hst|]. apply u32_range.
Qed.

(** With [n = 0] [BuildTopN] reads [sorted[n-1]], the index being the
    largest uint32: on every sample that is not empty
    [NewCMSketchWithTopN] of this revision panics with an index out of
    range. *)
Theorem NewCMSketchWithTopN_no_topn
    (order1 order2 : list (Z * list cmscount.t)) (d w total : Z)
    (data : list (option string)) :
  0 <= d -> 0 <= w -> data <> [] -> Z.of_nat (length data) < 2 ^ 64 ->
  NewCMSketchWithTopN Sum128 order1 order2 d w data 0 total
  = Crash IndexOutOfRange.
Proof.
  intros Hd Hw Hne Hlen. unfold NewCMSketchWithTopN.
  rewrite make_Done by assumption. cbn [mbind exec_bind].
  rewrite makeRows_replicate by assumption. cbn [mbind exec_bind].
  unfold BuildTopN.
  assert (Hsz : u64 (u64 (Z.of_nat (length data))) <> 0).
  { rewrite !(u64_id (Z.of_nat (length data))) by (unfold is_u64; lia).
    destruct data; [contradiction|]. cbn [length]. lia. }
  rewrite (udiv_Done total _ Hsz). cbn [mbind exec_bind].
  pose proof (countSample_ndv data (∅, 0) ltac:(simpl; lia)) as Hndv.
  destruct (foldl (countSample Sum128) (∅, 0) data) as [counter ndv].
  cbn [snd] in Hndv.
  rewrite make_Done by lia. cbn [mbind exec_bind].
  destruct (collectSorted_outcome (concat order1.*2) 0
              (replicate (Z.to_nat ndv) 0))
    as [H|(sorted' & H & Hl)]; rewrite H; [reflexivity|].
  cbn [mbind exec_bind].
  destruct (Z.gtb_spec 0 ndv) as [?|_]; [lia|].
  rewrite index_out; [reflexivity|].
  unfold sort_desc.
  rewrite (Permutation_length (merge_sort_Permutation Z.ge sorted')).
  rewrite Hl, length_replicate. change (u32 (0 - 1)) with 4294967295. lia.
Qed.

(** ** A sample without keys *)

(** [NewCMSketchWithTopN] of this revision divides the size of the
    population by the size of the sample before anything else: on an
    empty sample it panics with a division by zero. *)
Theorem NewCMSketchWithTopN_empty_sample
    (order1 order2 : list (Z * list cmscount.t)) (d w n total : Z) :
  0 <= d -> 0 <= w ->
  NewCMSketchWithTopN Sum128 order1 order2 d w [] n total
  = Crash DivideByZero.
Proof.
  intros Hd Hw. unfold NewCMSketchWithTopN.
  rewrite make_Done by assumption. cbn [mbind exec_bind].
  rewrite makeRows_replicate by assumption. cbn [mbind exec_bind].
  reflexivity.
Qed.

(** ** What [encodeCMSketch] hands to [Marshal] *)

Section WithWire.

Variable blob : Type.
Variable Marshal : tipb.CMSketch -> option blob * option error.

(** A sketch whose count is 0 encodes to no bytes and no payloads,
    whatever its Top-N index holds.  For a well-formed sketch whose
    count is not 0 and whose Top-N index holds one entry per bucket, as
    [buildTopNMap] leaves it when no two keys share their first hash,
    the message given to [Marshal] has the rows of the table and, for
    each Top-N entry in the order the index is visited, its count
    without its bytes; the bytes are returned in the payload list in the
    same order, and the result and the error of [Marshal] are returned
    as they are. *)
Theorem encodeCMSketch_payloads (c : CMSketch)
    (order : list (Z * list cmscount.t)) :
  (count c = 0 ->
   encodeCMSketch blob Marshal order (Some c) = Done (None, [], None))
  /\ (wf c -> 0 <= width c -> count c <> 0 ->
      plainIndex Sum128 (default ∅ (topnindex c)) ->
      order ≡ₚ map_to_list (default ∅ (topnindex c)) ->
      Z.of_nat (lenIndex (topnindex c)) < 2 ^ 32 ->
      let entries := concat order.*2 in
      let q := tipb.mkCMSketch
                 ((fun row => Some (tipb.mkRow row)) <$> table c)
                 (match topnindex c with
                  | None => None
                  | Some _ =>
                      Some ((fun v => Some (tipb.mkTopN None
                                              (cmscount.count v)))
                              <$> entries)
                  end) in
      encodeCMSketch blob Marshal order (Some c)
      = Done ((Marshal q).1,
              match topnindex c with
              | None => []
              | Some _ => cmscount.data <$> entries
              end,
              (Marshal q).2)).
Proof.
  split.
  - intros H. unfold encodeCMSketch. now rewrite H.
  - intros Hwf Hw0 Hc0 Hplain Hperm Hsize entries q.
    unfold encodeCMSketch.
    destruct (Z.eqb_spec (count c) 0) as [|_]; [contradiction|].
    pose proof (wf_depth c Hwf) as Hdepth.
    rewrite (TopNCodecProps.CMSketchToProto_spec Sum128 c order Hwf
               ltac:(lia) Hw0 Hplain Hperm Hsize).
    cbn [mbind exec_bind tipb.TopN tipb.Rows].
    subst q entries. destruct (topnindex c) as [m|].
    + rewrite TopNCodecProps.stripTopN_spec. cbn [mbind exec_bind].
      now destruct (Marshal _).
    + cbn [mbind exec_bind]. now destruct (Marshal _).
Qed.

End WithWire.

End WithHash.

End TopNCodecLaws.

(** * The analyze executor *)

Module AnalyzeProps.
Import Sketch Analyze.

(** ** Sketch messages of the executor's dimensions *)

Lemma rowsCount_range (rows : list (option tipb.CMSketchRow)) (count0 : Z) :
  is_u64 count0 -> is_u64 (rowsCount rows count0).
Proof.
  unfold rowsCount. revert count0.
  induction rows as [|r rows IH]; intros count0 H; [exact H|].
  cbn [foldl]. apply IH, u64_range.
Qed.

Lemma fullMessage_read (p : tipb.CMSketch) :
  fullMessage p ->
  let rc := mkCMSketch defaultCMSketchDepth defaultCMSketchWidth
              (messageCount p) 0
              (padded (protoWidth p) <$> tipb.Rows p) None in
  CMSketchFromProto (Some p) = Done (Some rc) /\ wf rc.
Proof.
  intros [Hrows Hd Hw] rc. unfold defaultCMSketchDepth in Hd.
  unfold defaultCMSketchWidth in Hw.
  split.
  - rewrite SketchProps.CMSketchFromProto_spec.
    + subst rc. unfold messageCount, defaultCMSketchDepth,
        defaultCMSketchWidth. now rewrite Hd, Hw.
    + eapply Forall_impl; [exact Hrows|].
      intros r (row & -> & Hlen & _). eauto.
    + lia.
    + lia.
    + intros H. rewrite H in Hd. simpl in Hd. lia.
  - subst rc. unfold defaultCMSketchDepth, defaultCMSketchWidth.
    constructor; cbn [depth width count defaultValue table topN].
    + rewrite length_fmap. exact Hd.
    + apply Forall_fmap. eapply Forall_impl; [exact Hrows|].
      intros r (row & -> & Hlen & _). unfold padded. simpl.
      rewrite length_app, length_replicate. lia.
    + apply Forall_fmap. eapply Forall_impl; [exact Hrows|].
      intros r (row & -> & _ & H32). unfold padded. simpl.
      apply Forall_app. split; [exact H32|].
      apply Forall_replicate. unfold is_u32. lia.
    + apply rowsCount_range. unfold is_u64. lia.
    + unfold is_u64. lia.
    + lia.
    + lia.
Qed.

Lemma fullMessage_cell (p : tipb.CMSketch) (i j : nat) :
  fullMessage p ->
  Z.of_nat i < defaultCMSketchDepth -> Z.of_nat j < defaultCMSketchWidth ->
  cellAt (padded (protoWidth p) <$> tipb.Rows p) i j
  = Some (messageCell p i j).
Proof.
  intros Hp Hi Hj. destruct (fullMessage_read p Hp) as [_ Hwf].
  unfold messageCell.
  destruct (SketchLaws.cellAt_is_Some _ defaultCMSketchWidth i j
              (wf_rows _ Hwf)) as [v Hv].
  - pose proof (wf_depth _ Hwf) as Hd. cbn [table depth] in *. lia.
  - exact Hj.
  - cbn [table] in Hv. now rewrite Hv.
Qed.

Section WithStatistics.

Variable Histogram : Type.
Variable protoHistogram : Type.
Variable AnalyzeJob : Type.
Variable ColumnInfo : Type.
Variable IndexInfo : Type.
Variable blob : Type.
Variable emptyHistogram : Histogram.
Variable HistogramFromProto : option protoHistogram -> option Histogram.
Variable TotalRowCount : option Histogram -> Z.
Variable MergeHistograms :
  option Histogram -> option Histogram -> Z -> option Histogram * option error.
Variable Update : AnalyzeJob -> Z -> AnalyzeJob.
Variable NullCount : Histogram -> Z.
Variable Len : Histogram -> Z.
Variable BucketCount : Histogram -> Z -> exec Z.
Variable Unmarshal : blob -> AnalyzeIndexResp protoHistogram * option error.

(** A sketch that [buildStatsFromResult] holds between two responses. *)
Local Abbreviation accumulator c :=
  (wf c /\ depth c = defaultCMSketchDepth /\
   width c = defaultCMSketchWidth /\ topN c = None).

Lemma mergeResponse_full (c : CMSketch) (p : tipb.CMSketch) :
  accumulator c -> fullMessage p ->
  exists c',
    mergeResponse (Some c) p = Done (Some c', None) /\
    accumulator c' /\ defaultValue c' = defaultValue c /\
    count c' = u64 (count c + messageCount p) /\
    forall (i j : nat) (v : Z),
      cellAt (table c) i j = Some v ->
      cellAt (table c') i j = Some (u32 (v + messageCell p i j)).
Proof.
  intros (Hwf & Hd & Hw & Ht) Hp.
  destruct (fullMessage_read p Hp) as [Hread Hwfr].
  unfold mergeResponse. rewrite Hread. cbn [mbind exec_bind deref].
  rewrite (SketchLaws.MergeCMSketch_Done c _ Hwf Hwfr Hd Hw Ht eq_refl).
  cbn [mbind exec_bind count table].
  eexists. split; [reflexivity|].
  pose proof (SketchLaws.merged_wf c _ Hwf Hwfr Hd Hw) as Hwf'.
  rewrite Ht in Hwf'. cbn [count table] in Hwf'.
  split; [|split; [reflexivity|split; [reflexivity|]]].
  - split; [exact Hwf'|]. cbn [depth width topN]. auto.
  - intros i j v Hv. cbn [table].
    rewrite SketchLaws.cellAt_zip_with, Hv.
    destruct (SketchLaws.cellAt_Some_lt _ _ i j v (wf_rows c Hwf) Hv)
      as [Hi Hj].
    pose proof (wf_depth c Hwf) as Hdep.
    rewrite (fullMessage_cell p i j Hp) by lia. reflexivity.
Qed.

Lemma buildStatsLoop_merges (maxNumBuckets : Z) (datas : list blob) :
  (forall h h', (MergeHistograms h h' maxNumBuckets).2 = None) ->
  forall (ps : list tipb.CMSketch) (hist : option Histogram)
         (c : CMSketch) (job : AnalyzeJob),
    Forall2 (fun d p => exists h,
                 Unmarshal d = (mkAnalyzeIndexResp protoHistogram h (Some p),
                                None) /\
                 fullMessage p) datas ps ->
    accumulator c ->
    exists hist' c' job',
      buildStatsLoop Histogram protoHistogram AnalyzeJob blob
        HistogramFromProto TotalRowCount MergeHistograms Update Unmarshal
        true maxNumBuckets ((fun d => (Some d, None)) <$> datas)
        hist (Some c) job
      = Done (hist', Some c', None, job') /\
      accumulator c' /\ defaultValue c' = defaultValue c /\
      count c' = u64 (count c + sumZ (messageCount <$> ps)) /\
      forall (i j : nat) (v : Z),
        cellAt (table c) i j = Some v ->
        cellAt (table c') i j
        = Some (u32 (v + sumZ ((fun p => messageCell p i j) <$> ps))).
Proof.
  intros Hmerge. induction datas as [|d datas IH];
    intros ps hist c job H2 Hacc.
  - inversion H2; subst. exists hist, c, job.
    split; [reflexivity|]. split; [assumption|]. split; [reflexivity|].
    cbn [fmap list_fmap sumZ foldr]. split.
    + rewrite Z.add_0_r. symmetry. apply u64_id.
      destruct Hacc as (Hwf & _). apply (wf_count c Hwf).
    + intros i j v Hv. rewrite Z.add_0_r, Hv. f_equal. symmetry.
      apply u32_id. destruct Hacc as (Hwf & _).
      pose proof (wf_cells c Hwf) as Hc. apply SketchLaws.cells32_Forall in Hc.
      exact (Hc _ _ _ Hv).
  - inversion H2 as [|? p ? ps' (h & Hu & Hp) H2' E1 E2]; subst.
    cbn [fmap list_fmap buildStatsLoop]. rewrite Hu. cbn [Hist Cms].
    pose proof (Hmerge hist (HistogramFromProto h)) as Hm.
    destruct (MergeHistograms hist (HistogramFromProto h) maxNumBuckets)
      as [hist1 err1]. cbn [snd] in Hm. subst err1.
    destruct (mergeResponse_full c p Hacc Hp)
      as (c1 & Hrun & Hacc1 & Hdv1 & Hc1 & Hcells1).
    rewrite Hrun. cbn [mbind exec_bind].
    destruct (IH ps' hist1 c1 (Update job (TotalRowCount (HistogramFromProto h)))
                H2' Hacc1)
      as (hist' & c' & job' & Hrun' & Hacc' & Hdv' & Hc' & Hcells').
    exists hist', c', job'. split; [exact Hrun'|]. split; [exact Hacc'|].
    split; [congruence|]. split.
    + rewrite Hc', Hc1. cbn [fmap list_fmap sumZ foldr]. apply u64_add3.
    + intros i j v Hv.
      rewrite (Hcells' i j _ (Hcells1 i j v Hv)).
      cbn [fmap list_fmap sumZ foldr].
      change (foldr Z.add 0 ((fun p0 => messageCell p0 i j) <$> ps'))
        with (sumZ ((fun p0 => messageCell p0 i j) <$> ps')).
      rewrite u32_add_idemp_l. f_equal. f_equal. ring.
Qed.

(** When every response unmarshals, carries a sketch message of 5
    rows, row 0 of 2048 counters and no row longer, and merges into the
    histogram without error,
    [buildStatsFromResult] returns a well-formed sketch of 5 rows and
    2048 columns whose count is the sum of the counts read in the
    messages (uint64) and whose cells are the sums of their cells
    (uint32), a short row counting as zero-extended. *)
Theorem buildStatsFromResult_merges (maxNumBuckets : Z) (job : AnalyzeJob)
    (datas : list blob) (ps : list tipb.CMSketch) :
  (forall h h', (MergeHistograms h h' maxNumBuckets).2 = None) ->
  Forall2 (fun d p => exists h,
               Unmarshal d = (mkAnalyzeIndexResp protoHistogram h (Some p),
                              None) /\
               fullMessage p) datas ps ->
  exists hist c job',
    buildStatsFromResult Histogram protoHistogram AnalyzeJob blob
      emptyHistogram HistogramFromProto TotalRowCount MergeHistograms Update
      Unmarshal maxNumBuckets job ((fun d => (Some d, None)) <$> datas) true
    = Done (hist, Some c, None, job') /\
    wf c /\ depth c = 5 /\ width c = 2048 /\ topN c = None /\
    defaultValue c = 0 /\
    count c = u64 (sumZ (messageCount <$> ps)) /\
    forall i j : nat,
      Z.of_nat i < 5 -> Z.of_nat j < 2048 ->
      cellAt (table c) i j
      = Some (u32 (sumZ ((fun p => messageCell p i j) <$> ps))).
Proof.
  intros Hmerge H2. unfold buildStatsFromResult.
  unfold defaultCMSketchDepth, defaultCMSketchWidth.
  rewrite SketchProps.NewCMSketch_Done by lia. cbn [mbind exec_bind].
  set (c0 := mkCMSketch 5 2048 0 0 _ None).
  assert (Hacc : accumulator c0).
  { split; [|repeat split].
    apply (SketchProps.NewCMSketch_wf 5 2048); [lia|lia|].
    apply SketchProps.NewCMSketch_Done; lia. }
  destruct (buildStatsLoop_merges maxNumBuckets datas Hmerge ps
              (Some emptyHistogram) c0 job H2 Hacc)
    as (hist' & c' & job' & Hrun & (Hwf & Hd & Hw & Ht) & Hdv & Hc & Hcells).
  exists hist', c', job'. split; [exact Hrun|].
  split; [exact Hwf|]. split; [exact Hd|]. split; [exact Hw|].
  split; [exact Ht|]. split; [exact Hdv|]. split.
  - rewrite Hc. subst c0. cbn [count]. now rewrite Z.add_0_l.
  - intros i j Hi Hj. rewrite (Hcells i j 0).
    + now rewrite Z.add_0_l.
    + subst c0. cbn [table]. apply SketchProps.cellAt_replicate; lia.
Qed.

(** ** Fast analyze *)

(** [analyzeFastExec] reads the first histogram of what [buildStats]
    returns, and [buildStats] returns none: the call panics with an
    index out of range on every executor. *)
Theorem analyzeFastExec_panics
    (e : AnalyzeFastExec ColumnInfo IndexInfo) :
  analyzeFastExec Histogram AnalyzeJob ColumnInfo IndexInfo NullCount Len
    BucketCount e
  = Crash IndexOutOfRange.
Proof.
  unfold analyzeFastExec, buildStats. cbn [length indexResults].
  now destruct (Z.of_nat (length (idxsInfo _ _ e)) >? 0).
Qed.

End WithStatistics.

End AnalyzeProps.

(** * The theorems at concrete inputs *)

Lemma wf_plain : Sketch.wf Examples.plain.
Proof.
  constructor; simpl; repeat constructor; unfold is_u32, is_u64; lia.
Defined.

Lemma wf_plain' : Sketch.wf Examples.plain'.
Proof.
  constructor; simpl; repeat constructor; unfold is_u32, is_u64; lia.
Defined.

Lemma wf_plainC : TopNCodec.wf Examples.plainC.
Proof.
  constructor; simpl; repeat constructor; unfold is_u32, is_u64; lia.
Defined.

Lemma wf_plainC' : TopNCodec.wf Examples.plainC'.
Proof.
  constructor; simpl; repeat constructor; unfold is_u32, is_u64; lia.
Defined.

Lemma wf_indexed : TopNCodec.wf Examples.indexed.
Proof.
  constructor; simpl; repeat constructor; unfold is_u32, is_u64; lia.
Defined.

Lemma hack_Slice_keeps_bytes (s : string) :
  contents (Examples.hack_Slice s) = s.
Proof. reflexivity. Defined.

(** C1 at the key "a" of [Examples.plain]: both rows read 5, the noise
    is [(7 - 5) / 3 = 0] and the estimate is 5. *)
Lemma QueryBytes_table_estimate_witness :
  Sketch.wf Examples.plain /\
  Sketch.QueryBytes Examples.Sum128 Examples.plain (Some "a"%string)
  = Done 5.
Proof.
  split; [exact wf_plain|].
  rewrite (SketchProps.QueryBytes_table_estimate Examples.Sum128
             Examples.plain (Some "a"%string) wf_plain).
  - reflexivity.
  - simpl; lia.
  - simpl; lia.
  - intros (m & e & Hm & _). discriminate.
Defined.

(** C2: on the first revision the insertion of the member "a" leaves its
    stored count at 5; on the codec revision it becomes 6. *)
Lemma InsertBytes_member_revisions :
  let key := Some "a"%string in
  let c := Sketch.mkCMSketch 1 2 0 0 [[0; 0]]
             (Some {[ 97 := [Sketch.dataCount.mk 97 3 key 5] ]}) in
  let c2 := TopNCodec.mkCMSketch 1 2 0 0 [[0; 0]]
              (Some {[ 97 := [TopNCodec.cmscount.mk 97 3 key 5] ]}) in
  (c' ← Sketch.InsertBytes Examples.Sum128 c key;
   Sketch.QueryBytes Examples.Sum128 c' key) = Done 5 /\
  (c' ← TopNCodec.InsertBytes Examples.Sum128 c2 key;
   TopNCodec.QueryBytes Examples.Sum128 c' key) = Done 6.
Proof. split; reflexivity. Qed.

(** C3 at the frequencies 10, 9, 7, 7, 6, 1 with [numTop = 2]: the loop
    takes the positions 0 to 3. *)
Lemma topNLoop_extension_witness :
  Z.of_nat (length [10; 9; 7; 7; 6; 1]) < 2 ^ 31 /\
  Sketch.topNLoop [10; 9; 7; 7; 6; 1] 6 2 6 0 0 0 = Done (7, 33).
Proof.
  split; [simpl; lia|].
  exact (SketchProps.topNLoop_extension [10; 9; 7; 7; 6; 1] 2
           ltac:(simpl; lia) ltac:(lia)).
Defined.

(** C3 as stated fails on two keys sampled three times each with
    [numTop = 1]: position 1 ties with position 0, the stated guard stops
    there with [sumTopN = 3], the loop takes it and ends with
    [sumTopN = 6]. *)
Lemma topNLoop_ties_counterexample :
  let sorted := [3; 3] in
  (exists helper, Sketch.newTopNHelper Examples.ties 1 = Done helper /\
                  Sketch.sorted helper = sorted /\
                  Sketch.sumTopN helper = 6) /\
  Sketch.topNLoop sorted 2 1 2 0 0 0 = Done (3, 6) /\
  Sketch.spec_cutoff
    (Sketch.spec_positions (Sketch.spec_extends sorted 1) sorted 1) sorted
  = (3, 3) /\
  Sketch.topNLoop sorted 2 1 2 0 0 0
  <> Done (Sketch.spec_cutoff
             (Sketch.spec_positions (Sketch.spec_extends sorted 1) sorted 1)
             sorted).
Proof.
  cbv zeta. split; [|split; [|split]].
  - eexists. split; [vm_compute; reflexivity|]. split; reflexivity.
  - reflexivity.
  - reflexivity.
  - vm_compute. discriminate.
Qed.

(** C4 at [Examples.sample] with [numTop = 1] and ratio 2: "a" is the
    heavy hitter, with exact count 12, and the other keys add 12 to the
    count of the table. *)
Lemma buildCMSWithTopN_routes_witness :
  exists c helper',
    Sketch.buildCMSWithTopN Examples.Sum128 Examples.hack_Slice
      (map_to_list (Sketch.counter Examples.helper)) Examples.helper 2 4 2
    = Done (c, helper') /\
    Sketch.count c = 12 /\
    Sketch.queryTopN c 97 3 (Some "a"%string) = (12, true).
Proof.
  destruct (SketchProps.buildCMSWithTopN_routes Examples.Sum128
              Examples.hack_Slice hack_Slice_keeps_bytes
              (map_to_list (Sketch.counter Examples.helper)) Examples.helper
              2 4 2 (reflexivity _) ltac:(lia) ltac:(lia))
    as (c & helper' & Hrun & _ & _ & _ & _ & Hcount & _ & Htop & _).
  exists c, helper'. split; [exact Hrun|]. split.
  - rewrite Hcount. vm_compute. reflexivity.
  - apply (Htop "a"%string 6); [vm_compute; reflexivity|reflexivity
                               |discriminate].
Defined.

(** C4 as stated fails on a sample in which the empty key is the heavy
    hitter, [hack.Slice] giving a nil slice for it: with [numTop = 1]
    and ratio 2, [enableTopN] holds and the empty key has
    [cnt = 6 >= lastVal], yet it is no Top-N entry (the index is empty),
    and the table holds the mass 12 of the other keys only. *)
Lemma buildCMSWithTopN_routes_counterexample :
  (forall s, contents (Examples.hack_Slice_nil s) = s) /\
  exists helper c helper',
    Sketch.newTopNHelper Examples.emptyHeavy 1 = Done helper /\
    Sketch.buildCMSWithTopN Examples.Sum128 Examples.hack_Slice_nil
      (map_to_list (Sketch.counter helper)) helper 2 4 2
    = Done (c, helper') /\
    Sketch.spec_enableTopN helper = true /\
    Sketch.counter helper !! EmptyString = Some 6 /\
    Sketch.lastVal helper = 6 /\
    Sketch.topN c = Some ∅ /\
    Sketch.queryTopN c (Examples.Sum128 EmptyString).1 (Examples.Sum128 EmptyString).2
      (Some EmptyString)
    = (0, false) /\
    Sketch.queryTopN c (Examples.Sum128 EmptyString).1 (Examples.Sum128 EmptyString).2
      (Some EmptyString)
    <> (6 * 2, true) /\
    Sketch.count c = 12 /\
    Sketch.table c = [[2; 0; 8; 2]; [0; 6; 2; 4]].
Proof.
  split; [intros []; reflexivity|].
  eexists _, _, _.
  split; [vm_compute; reflexivity|].
  split; [vm_compute; reflexivity|].
  repeat split; try (vm_compute; reflexivity).
  vm_compute. discriminate.
Qed.

(** C5 at [Examples.sample] with [numTop = 1] and 48 rows: the ratio is
    4, the heavy hitter weighs 24, and the default value is
    [(48 - (12 - 3) * 4) / (10 - 5 + 3) = 1]. *)
Lemma NewCMSketchWithTopN_defaultValue_witness :
  exists c,
    Sketch.NewCMSketchWithTopN Examples.Sum128 Examples.hack_Slice
      Examples.calculateEstimateNDV
      (map_to_list (Sketch.countSamples Examples.sample)) 2 4
      Examples.sample 1 48
    = Done c /\
    Sketch.defaultValue c = 1.
Proof.
  destruct (SketchProps.NewCMSketchWithTopN_defaultValue Examples.Sum128
              Examples.hack_Slice Examples.calculateEstimateNDV
              hack_Slice_keeps_bytes
              (map_to_list (Sketch.countSamples Examples.sample)) 2 4
              Examples.sample 1 48
              ltac:(vm_compute; reflexivity) ltac:(lia) (reflexivity _)
              ltac:(lia) ltac:(lia))
    as (helper & c & Hnew & Hrun & Hdv).
  exists c. split; [exact Hrun|].
  rewrite Hdv. vm_compute in Hnew. injection Hnew as <-.
  vm_compute. reflexivity.
Defined.

(** C6 at two plain sketches of 2 rows of 4 cells: the counts add up to
    14 and the cell holding the largest uint32 wraps to 0. *)
Lemma MergeCMSketch_contract_witness :
  Sketch.wf Examples.plain /\ Sketch.wf Examples.plain' /\
  Sketch.MergeCMSketch Examples.plain Examples.plain'
  = Done (Sketch.mkCMSketch 2 4 14 0 [[8; 5; 1; 0]; [5; 0; 8; 1]] None, None).
Proof.
  split; [exact wf_plain|]. split; [exact wf_plain'|].
  destruct (SketchProps.MergeCMSketch_contract Examples.plain Examples.plain'
              wf_plain wf_plain') as (_ & _ & H & _).
  rewrite H by reflexivity. reflexivity.
Defined.

Lemma wire_keeps_message (p : tipb.CMSketch) :
  Forall (fun r : option tipb.CMSketchRow => is_Some r) (tipb.Rows p) ->
  Forall (fun e : option tipb.CMSketchTopN => is_Some e)
    (default [] (tipb.TopN p)) ->
  exists data : tipb.CMSketch,
    Examples.Marshal p = (Some data, None) /\
    Examples.Unmarshal data = (TopNCodec.unmarshalled p, None).
Proof. intros _ _. eexists. split; reflexivity. Defined.

Lemma plainIndex_indexed :
  TopNCodec.plainIndex Examples.Sum128
    (default ∅ (TopNCodec.topnindex Examples.indexed)).
Proof.
  intros k v H. apply elem_of_map_to_list in H.
  vm_compute in H.
  apply elem_of_cons in H as [H|H].
  { injection H as -> ->. exists "a"%string, 12. split; reflexivity. }
  apply elem_of_cons in H as [H|H].
  { injection H as -> ->. exists "bb"%string, 7. split; reflexivity. }
  now apply elem_of_nil in H.
Defined.

(** C7 at [Examples.indexed], a sketch of count 5 with two Top-N
    entries, over a wire that keeps the message. *)
Lemma codec_round_trip_witness :
  exists (data : tipb.CMSketch) (topn : list (option string))
         (c' : TopNCodec.CMSketch),
    TopNCodec.encodeCMSketch tipb.CMSketch Examples.Marshal
      (map_to_list (default ∅ (TopNCodec.topnindex Examples.indexed)))
      (Some Examples.indexed)
    = Done (Some data, topn, None) /\
    TopNCodec.decodeCMSketch Examples.Sum128 tipb.CMSketch Examples.Unmarshal
      (Some data) topn
    = Done (Some c', None) /\
    TopNCodec.Equal (Some Examples.indexed) (Some c') = Done true.
Proof.
  apply (TopNCodecProps.codec_round_trip Examples.Sum128 tipb.CMSketch
           Examples.Marshal Examples.Unmarshal wire_keeps_message
           Examples.indexed
           (map_to_list (default ∅ (TopNCodec.topnindex Examples.indexed)))
           [[1; 4; 0]] [2; 0; 3] wf_indexed).
  - reflexivity.
  - simpl. lia.
  - reflexivity.
  - reflexivity.
  - exact plainIndex_indexed.
  - reflexivity.
  - vm_compute. reflexivity.
Defined.

(** C7 as stated fails on the empty sketch, which encodes to no bytes
    and decodes to no sketch, and on the sketch that
    [NewCMSketchWithTopN] builds from [Examples.skewed], whose default
    value 1 the message does not carry. *)
Lemma codec_round_trip_counterexample :
  (exists c,
      TopNCodec.NewCMSketch 2 3 = Done c /\
      TopNCodec.encodeCMSketch tipb.CMSketch Examples.Marshal [] (Some c)
      = Done (None, [], None) /\
      TopNCodec.decodeCMSketch Examples.Sum128 tipb.CMSketch
        Examples.Unmarshal None []
      = Done (None, None) /\
      TopNCodec.Equal (Some c) None = Done false) /\
  (exists c data topn c',
      TopNCodec.NewCMSketchWithTopN Examples.Sum128
        (Examples.visit Examples.skewed) (Examples.visit Examples.skewed)
        1 4 Examples.skewed 1 14 = Done c /\
      TopNCodec.encodeCMSketch tipb.CMSketch Examples.Marshal
        (map_to_list (default ∅ (TopNCodec.topnindex c))) (Some c)
      = Done (Some data, topn, None) /\
      TopNCodec.decodeCMSketch Examples.Sum128 tipb.CMSketch
        Examples.Unmarshal (Some data) topn
      = Done (Some c', None) /\
      TopNCodec.defaultValue c = 1 /\ TopNCodec.defaultValue c' = 0 /\
      TopNCodec.Equal (Some c) (Some c') = Done false) /\
  (exists data c',
      TopNCodec.encodeCMSketch tipb.CMSketch Examples.Marshal []
        (Some Examples.defaulted)
      = Done (Some data, [], None) /\
      TopNCodec.decodeCMSketch Examples.Sum128 tipb.CMSketch
        Examples.Unmarshal (Some data) []
      = Done (Some c', None) /\
      TopNCodec.Equal (Some Examples.defaulted) (Some c') = Done false).
Proof.
  split; [|split].
  - eexists. split; [reflexivity|]. repeat split.
  - eexists _, _, _, _. split; [vm_compute; reflexivity|].
    split; [vm_compute; reflexivity|]. split; [vm_compute; reflexivity|].
    split; [reflexivity|]. split; reflexivity.
  - eexists _, _. split; [reflexivity|]. split; reflexivity.
Qed.

Lemma wfProto_stripped : TopNCodec.wfProto Examples.stripped.
Proof.
  constructor.
  - repeat constructor; eexists; (split; [reflexivity|vm_compute; lia]).
  - repeat constructor. simpl. eauto.
  - simpl. lia.
  - vm_compute. reflexivity.
Defined.

Lemma wfProto_unevenRows : TopNCodec.wfProto Examples.unevenRows.
Proof.
  constructor.
  - repeat constructor; eexists; (split; [reflexivity|vm_compute; lia]).
  - constructor.
  - simpl. lia.
  - vm_compute. reflexivity.
Defined.

(** C8 at [Examples.stripped], whose Top-N entry has no data, with no
    payload supplied, and at [Examples.noRows], which has no row. *)
Lemma decodeCMSketch_broken_witness :
  TopNCodec.missingData
    (TopNCodec.attached [Some (tipb.mkTopN None 9)] []) = true /\
  TopNCodec.decodeCMSketch Examples.Sum128 tipb.CMSketch Examples.Unmarshal
    (Some Examples.stripped) []
  = Done (None, Some ErrBrokenData) /\
  TopNCodec.decodeCMSketch Examples.Sum128 tipb.CMSketch Examples.Unmarshal
    (Some Examples.noRows) []
  = Done (None, None).
Proof.
  split; [reflexivity|]. split.
  - apply (proj1 (TopNCodecProps.decodeCMSketch_broken Examples.Sum128
                    tipb.CMSketch Examples.Unmarshal Examples.stripped
                    Examples.stripped [] eq_refl)
             [Some (tipb.mkTopN None 9)] wfProto_stripped).
    + discriminate.
    + reflexivity.
    + reflexivity.
  - apply (proj2 (TopNCodecProps.decodeCMSketch_broken Examples.Sum128
                    tipb.CMSketch Examples.Unmarshal Examples.noRows
                    Examples.noRows [] eq_refl)).
    reflexivity.
Defined.

(** C8 as stated fails on [Examples.noRows]: the message declares a
    Top-N entry without data, and [decodeCMSketch] returns no sketch and
    no error, the message having no row. *)
Lemma decodeCMSketch_broken_counterexample :
  tipb.TopN Examples.noRows = Some [Some (tipb.mkTopN None 1)] /\
  TopNCodec.missingData
    (TopNCodec.attached [Some (tipb.mkTopN None 1)] []) = true /\
  TopNCodec.decodeCMSketch Examples.Sum128 tipb.CMSketch Examples.Unmarshal
    (Some Examples.noRows) []
  = Done (None, None) /\
  TopNCodec.decodeCMSketch Examples.Sum128 tipb.CMSketch Examples.Unmarshal
    (Some Examples.noRows) []
  <> Done (None, Some ErrBrokenData).
Proof. repeat split. discriminate. Qed.

(** C9 at [Examples.unevenRows], whose last row sums to 2. *)
Lemma CMSketchFromProto_count_witness :
  (exists c,
      Sketch.CMSketchFromProto (Some Examples.unevenRows) = Done (Some c) /\
      Sketch.count c = 2) /\
  (exists c,
      TopNCodec.CMSketchFromProto Examples.Sum128 (Some Examples.unevenRows)
      = Done (Some c, None) /\
      TopNCodec.count c = 2).
Proof.
  destruct (TopNCodecProps.CMSketchFromProto_count Examples.Sum128
              Examples.unevenRows [Some (tipb.mkRow [1; 0])]
              (tipb.mkRow [0; 2]) wfProto_unevenRows eq_refl)
    as [(c & Hc & Hn) H2].
  split.
  - exists c. split; [exact Hc|exact Hn].
  - destruct (H2 eq_refl) as (c2 & Hc2 & Hn2).
    exists c2. split; [exact Hc2|exact Hn2].
Defined.

(** C9 as stated fails on [Examples.unevenRows]: row 0 sums to 1 and the
    rebuilt count is 2, the sum of the last row. *)
Lemma CMSketchFromProto_count_counterexample :
  exists row0 c c2,
    tipb.Rows Examples.unevenRows !! 0%nat = Some (Some row0) /\
    u64 (sumZ (tipb.Counters row0)) = 1 /\
    Sketch.CMSketchFromProto (Some Examples.unevenRows) = Done (Some c) /\
    Sketch.count c = 2 /\
    TopNCodec.CMSketchFromProto Examples.Sum128 (Some Examples.unevenRows)
    = Done (Some c2, None) /\
    TopNCodec.count c2 = 2.
Proof.
  eexists _, _, _. split; [reflexivity|]. split; [reflexivity|].
  split; [reflexivity|]. split; [reflexivity|]. split; reflexivity.
Qed.

(** C10 at [Examples.plain], of width 4, and at [NewCMSketch(5, 1)]. *)
Lemma QueryBytes_noise_divisor_witness :
  (exists v,
      Sketch.QueryBytes Examples.Sum128 Examples.plain (Some "a"%string)
      = Done v) /\
  (exists c,
      Sketch.NewCMSketch 5 1 = Done c /\
      Sketch.QueryBytes Examples.Sum128 c (Some "a"%string)
      = Crash DivideByZero).
Proof.
  destruct (SketchProps.QueryBytes_noise_divisor Examples.Sum128) as [H1 H2].
  split.
  - exact (proj2 (H1 Examples.plain (Some "a"%string) wf_plain
                    ltac:(simpl; lia) ltac:(simpl; lia))).
  - destruct (H2 5 (Some "a"%string) ltac:(lia)) as (c & Hc & _ & _ & Hq).
    exists c. split; [exact Hc|exact Hq].
Defined.

(** The insertion of a member on the codec revision, at the key "a" of
    [Examples.indexed]. *)
Lemma InsertBytesN_member_witness :
  exists c' stored,
    TopNCodec.InsertBytesN Examples.Sum128 Examples.indexed
      (Some "a"%string) 3 = Done c' /\
    TopNCodec.table c' = TopNCodec.table Examples.indexed /\
    TopNCodec.count c' = TopNCodec.count Examples.indexed /\
    TopNCodec.QueryBytes Examples.Sum128 Examples.indexed (Some "a"%string)
    = Done (u64 stored) /\
    TopNCodec.QueryBytes Examples.Sum128 c' (Some "a"%string)
    = Done (u64 (stored + 3)).
Proof.
  destruct (TopNCodecProps.InsertBytesN_member Examples.Sum128
              Examples.indexed (Some "a"%string) 3)
    as (c' & stored & Hrun & Ht & Hc & _ & _ & _ & Hq & Hq').
  - eexists _, (TopNCodec.cmscount.mk 97 3 (Some "a"%string) 12).
    split; [reflexivity|]. split; [|split; reflexivity].
    vm_compute. apply list_elem_of_here.
  - exists c', stored. auto.
Defined.

(** The merge of the codec revision at the two plain sketches. *)
Lemma MergeCMSketch_contract_codec_witness :
  TopNCodec.MergeCMSketch Examples.plainC Examples.plainC'
  = Done (TopNCodec.mkCMSketch 2 4 14 0 [[8; 5; 1; 0]; [5; 0; 8; 1]] None,
          None).
Proof.
  destruct (TopNCodecProps.MergeCMSketch_contract_codec Examples.plainC
              Examples.plainC' wf_plainC wf_plainC') as (_ & _ & H).
  rewrite H by reflexivity. reflexivity.
Defined.

(** The table query of the codec revision at [Examples.plainC]. *)
Lemma queryHashValue_total_witness :
  exists v, TopNCodec.queryHashValue Examples.plainC 97 3 = Done v.
Proof.
  exact (TopNCodecProps.queryHashValue_total Examples.plainC 97 3 wf_plainC
           ltac:(simpl; lia) ltac:(simpl; lia)).
Defined.

(** ** [BuildTopN], the builder of the codec revision *)

(** The cutoff of [BuildTopN] extends the candidates while
    [sorted[i]*2 >= sorted[n-1]], without a guard on ties: on the
    frequencies 4, 2, 1 with [n = 1] it lowers the threshold to 2, where
    the loop of [newTopNHelper] stops at position 1 (2*3 < 4*2). *)
Lemma BuildTopN_cutoff_half :
  TopNCodec.extendLoop [4; 2; 1] 3 1 4 3 1 4 1 = Done (2, 1) /\
  Sketch.topNLoop [4; 2; 1] 3 1 3 0 0 0 = Done (4, 4).
Proof. split; reflexivity. Qed.

(** When the heavy hitters weigh less than a tenth of the sample,
    [BuildTopN] inserts them into the table with a count that it has
    already scaled: on twenty keys sampled once each, with a population
    of 40 rows (ratio 2), the key kept back is inserted with 4 and the
    count of the sketch is 42, not 40. *)
Lemma BuildTopN_fallback_scales_twice :
  exists c,
    TopNCodec.NewCMSketchWithTopN Examples.Sum128
      (Examples.visit Examples.singles) (Examples.visit Examples.singles)
      1 4 Examples.singles 1 40 = Done c /\
    TopNCodec.topnindex c = None /\
    TopNCodec.count c = 42 /\
    TopNCodec.table c = [[10; 10; 10; 12]].
Proof. eexists. split; [vm_compute; reflexivity|]. repeat split. Qed.

(** [BuildTopN] keeps at most [realTopN] entries, the first ones it
    visits: on "a" four times, "b" twice and "c" once with [n = 1] the
    threshold is lowered to 2 and [realTopN] stays 1, so "b" goes to the
    table although its frequency reaches the threshold. *)
Lemma BuildTopN_capped :
  exists c,
    TopNCodec.NewCMSketchWithTopN Examples.Sum128
      (Examples.visit Examples.skewed) (Examples.visit Examples.skewed)
      1 4 Examples.skewed 1 14 = Done c /\
    TopNCodec.QueryBytes Examples.Sum128 c (Some "a"%string) = Done 8 /\
    ~ TopNCodec.topNMember Examples.Sum128 c (Some "b"%string) /\
    TopNCodec.count c = 6 /\
    TopNCodec.defaultValue c = 1.
Proof.
  eexists. split; [vm_compute; reflexivity|].
  split; [vm_compute; reflexivity|]. split; [|split; reflexivity].
  intros (m & e & Hm & He & _). injection Hm as <-.
  vm_compute in He. inversion He.
Qed.

(** * The laws at concrete inputs *)

Lemma plain_no_member (c : Sketch.CMSketch) (key : option string) :
  Sketch.topN c = None -> ~ Sketch.topNMember Examples.Sum128 c key.
Proof. intros H (m & e & Hm & _). congruence. Defined.

(** Inserting "a" with 3 into [Examples.plain]: the count becomes 10. *)
Lemma updateBytesWithDelta_miss_witness :
  exists c',
    Sketch.updateBytesWithDelta Examples.Sum128 Examples.plain
      (Some "a"%string) 3 = Done c' /\
    Sketch.count c' = 10 /\
    cellAt (Sketch.table c') 0 1 = Some 8.
Proof.
  destruct (SketchLaws.updateBytesWithDelta_miss Examples.Sum128
              Examples.plain (Some "a"%string) 3 wf_plain
              ltac:(simpl; lia)
              (plain_no_member Examples.plain (Some "a"%string) eq_refl))
    as (c' & Hrun & _ & _ & _ & _ & _ & Hcount & Hcells).
  exists c'. split; [exact Hrun|]. split; [exact Hcount|].
  exact (Hcells 0%nat 1%nat 5 eq_refl).
Defined.

(** The estimate of "a" in [Examples.plain] is at most the 5 of row 0. *)
Lemma QueryBytes_capped_witness :
  exists r,
    Sketch.QueryBytes Examples.Sum128 Examples.plain (Some "a"%string)
    = Done r /\ 0 <= r <= 5.
Proof.
  destruct (SketchLaws.QueryBytes_capped Examples.Sum128 Examples.plain
              (Some "a"%string) wf_plain ltac:(simpl; lia) ltac:(simpl; lia)
              (plain_no_member Examples.plain (Some "a"%string) eq_refl))
    as (r & Hrun & H0 & [Hr|Hr]).
  - exists r. split; [exact Hrun|]. rewrite Hr. simpl. lia.
  - exists r. split; [exact Hrun|]. split; [exact H0|].
    exact (Hr 0%nat 5 eq_refl).
Defined.

(** A key inserted with 7 into a new sketch of 5 rows and 2048 columns,
    the dimensions [buildStatsFromResult] uses. *)
Lemma QueryBytes_first_insert_witness :
  (c0 ← Sketch.NewCMSketch 5 2048;
   c1 ← Sketch.updateBytesWithDelta Examples.Sum128 c0 (Some "a"%string) 7;
   Sketch.QueryBytes Examples.Sum128 c1 (Some "a"%string)) = Done 7.
Proof.
  exact (SketchLaws.QueryBytes_first_insert Examples.Sum128 5 2048 7
           (Some "a"%string) ltac:(lia) ltac:(lia) ltac:(lia)).
Defined.

(** "a" and "bb" inserted into [Examples.plain] in either order. *)
Lemma updateBytesWithDelta_comm_witness :
  exists c',
    (c1 ← Sketch.updateBytesWithDelta Examples.Sum128 Examples.plain
            (Some "a"%string) 1;
     Sketch.updateBytesWithDelta Examples.Sum128 c1 (Some "bb"%string) 2)
    = Done c' /\
    (c1 ← Sketch.updateBytesWithDelta Examples.Sum128 Examples.plain
            (Some "bb"%string) 2;
     Sketch.updateBytesWithDelta Examples.Sum128 c1 (Some "a"%string) 1)
    = Done c'.
Proof.
  exact (SketchLaws.updateBytesWithDelta_comm Examples.Sum128 Examples.plain
           (Some "a"%string) (Some "bb"%string) 1 2 wf_plain
           ltac:(simpl; lia)
           (plain_no_member Examples.plain (Some "a"%string) eq_refl)
           (plain_no_member Examples.plain (Some "bb"%string) eq_refl)).
Defined.

(** [Examples.plain] and [Examples.plain'] merged either way. *)
Lemma MergeCMSketch_comm_witness :
  exists c1 c2,
    Sketch.MergeCMSketch Examples.plain Examples.plain' = Done (c1, None) /\
    Sketch.MergeCMSketch Examples.plain' Examples.plain = Done (c2, None) /\
    Sketch.count c1 = Sketch.count c2 /\ Sketch.table c1 = Sketch.table c2.
Proof.
  destruct (SketchLaws.MergeCMSketch_comm Examples.plain Examples.plain'
              wf_plain wf_plain' eq_refl eq_refl eq_refl eq_refl)
    as (c1 & c2 & H1 & H2 & Hc & Ht & _).
  exists c1, c2. auto.
Defined.

(** [Examples.plain] merged into a new sketch of 2 rows of 4 cells. *)
Lemma MergeCMSketch_into_new_witness :
  exists c,
    (c0 ← Sketch.NewCMSketch 2 4; Sketch.MergeCMSketch c0 Examples.plain)
    = Done (c, None) /\
    Sketch.count c = 7 /\ Sketch.table c = [[1; 5; 1; 0]; [5; 1; 0; 1]].
Proof.
  destruct (SketchLaws.MergeCMSketch_into_new Examples.plain wf_plain
              ltac:(simpl; lia) ltac:(simpl; lia) eq_refl)
    as (c & Hrun & _ & _ & Hc & Ht & _).
  exists c. split; [exact Hrun|]. split; [exact Hc|exact Ht].
Defined.

(** "a" inserted into [Examples.plain] before or after the merge with
    [Examples.plain']. *)
Lemma MergeCMSketch_updateBytesWithDelta_witness :
  exists c',
    (c1 ← Sketch.updateBytesWithDelta Examples.Sum128 Examples.plain
            (Some "a"%string) 1;
     Sketch.MergeCMSketch c1 Examples.plain') = Done (c', None) /\
    ('(c2, _) ← Sketch.MergeCMSketch Examples.plain Examples.plain';
     Sketch.updateBytesWithDelta Examples.Sum128 c2 (Some "a"%string) 1)
    = Done c'.
Proof.
  exact (SketchLaws.MergeCMSketch_updateBytesWithDelta Examples.Sum128
           Examples.plain Examples.plain' (Some "a"%string) 1
           wf_plain wf_plain' eq_refl eq_refl ltac:(simpl; lia)
           eq_refl eq_refl).
Defined.

(** [Examples.plain] to its message and back: the count is recomputed
    from the last row. *)
Lemma CMSketchFromProto_CMSketchToProto_witness :
  (p ← SketchCodec.CMSketchToProto Examples.plain;
   Sketch.CMSketchFromProto (Some p))
  = Done (Some (Sketch.mkCMSketch 2 4 7 0 [[1; 5; 1; 0]; [5; 1; 0; 1]] None)).
Proof.
  exact (SketchCodecProps.CMSketchFromProto_CMSketchToProto Examples.plain
           [[1; 5; 1; 0]] [5; 1; 0; 1] wf_plain eq_refl).
Defined.

(** [Equal] between [Examples.plain] and [Examples.plain'], whose tables
    differ. *)
Lemma Equal_spec_witness :
  SketchCodec.Equal (Some Examples.plain) (Some Examples.plain') = Done false.
Proof.
  destruct (SketchCodecProps.Equal_spec Examples.plain Examples.plain'
              wf_plain wf_plain') as (b & Hrun & Hb).
  rewrite Hrun. destruct b; [|reflexivity].
  destruct Hb as [Hb _]. destruct (Hb eq_refl) as (_ & _ & _ & Ht).
  discriminate Ht.
Defined.

(** [Copy] of [Examples.plain]. *)
Lemma Copy_spec_witness :
  exists c',
    SketchCodec.Copy (Some Examples.plain) = Done (Some c') /\
    Sketch.table c' = [[1; 5; 1; 0]; [5; 1; 0; 1]] /\
    SketchCodec.Equal (Some Examples.plain) (Some c') = Done true.
Proof.
  destruct (SketchCodecProps.Copy_spec Examples.plain wf_plain)
    as (c' & Hrun & _ & _ & _ & Ht & _ & _ & He).
  exists c'. split; [exact Hrun|]. split; [exact Ht|exact He].
Defined.

(** A message whose second row has one counter more than the first. *)
Lemma CMSketchFromProto_out_of_range_witness :
  Sketch.CMSketchFromProto (Some (tipb.mkCMSketch [] None))
  = Crash IndexOutOfRange /\
  Sketch.CMSketchFromProto
    (Some (tipb.mkCMSketch
             [Some (tipb.mkRow [1; 0]); Some (tipb.mkRow [0; 2; 5])] None))
  = Crash IndexOutOfRange.
Proof.
  split.
  - exact (proj1 (SketchCodecProps.CMSketchFromProto_out_of_range
                    (tipb.mkCMSketch [] None)) eq_refl).
  - apply (proj2 (SketchCodecProps.CMSketchFromProto_out_of_range
                    (tipb.mkCMSketch
                       [Some (tipb.mkRow [1; 0]);
                        Some (tipb.mkRow [0; 2; 5])] None))
             [Some (tipb.mkRow [1; 0])] [] (tipb.mkRow [0; 2; 5]) eq_refl).
    + repeat constructor. eexists. split; [reflexivity|].
      vm_compute. lia.
    + vm_compute. lia.
    + vm_compute. reflexivity.
    + vm_compute. reflexivity.
Defined.

Lemma wire_keeps_rows (p : tipb.CMSketch) :
  Forall (fun r : option tipb.CMSketchRow => is_Some r) (tipb.Rows p) ->
  tipb.TopN p = None ->
  exists data : tipb.CMSketch,
    Examples.Marshal p = (Some data, None) /\
    Examples.Unmarshal data = (p, None).
Proof.
  intros _ H. exists p. unfold Examples.Marshal, Examples.Unmarshal.
  destruct p as [rows topn]. simpl in H. subst topn.
  split; reflexivity.
Defined.

(** [Examples.plain], of count 7 and last row 5, 1, 0, 1, through the
    codec over a wire that keeps the message. *)
Lemma DecodeCMSketch_EncodeCMSketch_witness :
  exists (data : tipb.CMSketch) (c' : Sketch.CMSketch),
    SketchCodec.EncodeCMSketch tipb.CMSketch Examples.Marshal
      (Some Examples.plain) = Done (Some data, None) /\
    SketchCodec.DecodeCMSketch tipb.CMSketch Examples.Unmarshal (Some data)
    = Done (Some c', None) /\
    SketchCodec.Equal (Some Examples.plain) (Some c') = Done true.
Proof.
  destruct (SketchCodecProps.DecodeCMSketch_EncodeCMSketch tipb.CMSketch
              Examples.Marshal Examples.Unmarshal wire_keeps_rows
              Examples.plain [[1; 5; 1; 0]] [5; 1; 0; 1] wf_plain eq_refl
              ltac:(simpl; lia) eq_refl)
    as (data & c' & He & Hd & Heq & _).
  exists data, c'. auto.
Defined.

Lemma counts64_indexed :
  TopNCodecCopy.counts64 (default ∅ (TopNCodec.topnindex Examples.indexed)).
Proof.
  intros k v e Hk He. apply elem_of_map_to_list in Hk.
  vm_compute in Hk.
  apply elem_of_cons in Hk as [Hk|Hk].
  { injection Hk as -> ->. apply list_elem_of_singleton in He as ->.
    vm_compute. split; [discriminate|reflexivity]. }
  apply elem_of_cons in Hk as [Hk|Hk].
  { injection Hk as -> ->. apply list_elem_of_singleton in He as ->.
    vm_compute. split; [discriminate|reflexivity]. }
  now apply elem_of_nil in Hk.
Defined.

(** A lookup of "a" in [Examples.indexed]. *)
Lemma queryTopN_keeps_witness :
  (TopNCodec.queryTopN Examples.indexed 97 3 (Some "a"%string)).1.1
  = Examples.indexed.
Proof.
  exact (TopNCodecLaws.queryTopN_keeps Examples.indexed 97 3
           (Some "a"%string) counts64_indexed).
Defined.

(** [Copy] of [Examples.indexed], which has no default value, and of
    [Examples.defaulted], which has one. *)
Lemma Copy_Equal_witness :
  (exists c',
      TopNCodecCopy.Copy
        (map_to_list (default ∅ (TopNCodec.topnindex Examples.indexed)))
        (Some Examples.indexed) = Done (Some c') /\
      TopNCodec.Equal (Some Examples.indexed) (Some c') = Done true) /\
  (exists c',
      TopNCodecCopy.Copy [] (Some Examples.defaulted) = Done (Some c') /\
      TopNCodec.Equal (Some Examples.defaulted) (Some c') = Done false).
Proof.
  split.
  - destruct (TopNCodecLaws.Copy_Equal
                (map_to_list (default ∅ (TopNCodec.topnindex Examples.indexed)))
                Examples.indexed wf_indexed (reflexivity _))
      as (c' & Hrun & _ & _ & _ & _ & _ & _ & He).
    exists c'. split; [exact Hrun|exact He].
  - assert (Hwf : TopNCodec.wf Examples.defaulted).
    { constructor; simpl; repeat constructor; unfold is_u32, is_u64; lia. }
    destruct (TopNCodecLaws.Copy_Equal [] Examples.defaulted Hwf
                (reflexivity _))
      as (c' & Hrun & _ & _ & _ & _ & _ & _ & He).
    exists c'. split; [exact Hrun|exact He].
Defined.

(** [buildTopNMap] on "a" with count 12 and an entry without bytes. *)
Lemma buildTopNMap_lookup_witness :
  let topn := [TopNCodec.cmscount.mk 0 0 (Some "a"%string) 12;
               TopNCodec.cmscount.mk 0 0 None 7] in
  TopNCodec.QueryBytes Examples.Sum128
    (TopNCodec.buildTopNMap Examples.Sum128 Examples.plainC topn)
    (Some "a"%string) = Done 12.
Proof.
  intros topn.
  apply (proj2 (TopNCodecLaws.buildTopNMap_lookup Examples.Sum128
                  Examples.plainC topn)
           (TopNCodec.cmscount.mk 0 0 (Some "a"%string) 12) "a"%string).
  - apply list_elem_of_here.
  - reflexivity.
  - vm_compute. split; [discriminate|reflexivity].
  - intros e' He' Hd' _. subst topn.
    apply elem_of_cons in He' as [->|He']; [reflexivity|].
    apply list_elem_of_singleton in He' as ->. now contradiction Hd'.
Defined.

(** An empty sample for a sketch of 5 rows and 2048 columns. *)
Lemma NewCMSketchWithTopN_empty_sample_witness :
  TopNCodec.NewCMSketchWithTopN Examples.Sum128 [] [] 5 2048 [] 20 1000
  = Crash DivideByZero.
Proof.
  exact (TopNCodecLaws.NewCMSketchWithTopN_empty_sample Examples.Sum128
           [] [] 5 2048 20 1000 ltac:(lia) ltac:(lia)).
Defined.

(** A new sketch of the executor's dimensions. *)
Lemma NewCMSketch_spec_witness :
  Sketch.NewCMSketch 5 2048
  = Done (Sketch.mkCMSketch 5 2048 0 0
            (replicate 5 (replicate 2048 0)) None) /\
  Sketch.NewCMSketch (-1) 2048 = Crash LenOutOfRange /\
  Sketch.NewCMSketch 5 (-1) = Crash LenOutOfRange.
Proof.
  pose proof (SketchLaws.NewCMSketch_spec 5 2048) as (H & _ & _).
  pose proof (SketchLaws.NewCMSketch_spec (-1) 2048) as (_ & Hd & _).
  pose proof (SketchLaws.NewCMSketch_spec 5 (-1)) as (_ & _ & Hw).
  split; [exact (proj1 (H ltac:(lia) ltac:(left; lia)))|].
  split; [exact (Hd ltac:(lia))|exact (Hw ltac:(lia) ltac:(lia))].
Defined.

(** The skewed sample with no Top-N entry asked for. *)
Lemma NewCMSketchWithTopN_no_topn_witness :
  TopNCodec.NewCMSketchWithTopN Examples.Sum128
    (Examples.visit Examples.skewed) (Examples.visit Examples.skewed)
    5 2048 Examples.skewed 0 1000
  = Crash IndexOutOfRange.
Proof.
  apply (TopNCodecLaws.NewCMSketchWithTopN_no_topn Examples.Sum128
           (Examples.visit Examples.skewed) (Examples.visit Examples.skewed)
           5 2048 1000 Examples.skewed);
    [lia|lia|discriminate|vm_compute; reflexivity].
Defined.

(** [Examples.indexed] encoded: the payloads are the bytes of its two
    entries. *)
Lemma encodeCMSketch_payloads_witness :
  exists r,
    TopNCodec.encodeCMSketch tipb.CMSketch Examples.Marshal
      (map_to_list (default ∅ (TopNCodec.topnindex Examples.indexed)))
      (Some Examples.indexed)
    = Done (r, [Some "a"%string; Some "bb"%string], None).
Proof.
  eexists.
  rewrite (proj2 (TopNCodecLaws.encodeCMSketch_payloads Examples.Sum128
                    tipb.CMSketch Examples.Marshal Examples.indexed
                    (map_to_list
                       (default ∅ (TopNCodec.topnindex Examples.indexed))))
             wf_indexed ltac:(simpl; lia) ltac:(simpl; lia)
             plainIndex_indexed (reflexivity _)
             ltac:(vm_compute; reflexivity)).
  vm_compute. reflexivity.
Defined.

(** [newTopNHelper] on [Examples.sample]: twelve samples, five distinct
    keys, three of them sampled once. *)
Lemma newTopNHelper_invariants_witness :
  exists helper,
    Sketch.newTopNHelper Examples.sample 1 = Done helper /\
    Sketch.sampleSize helper = 12 /\
    sumZ (Sketch.sorted helper) = 12 /\
    0 <= Sketch.sumTopN helper <= 12.
Proof.
  destruct (BuilderLaws.newTopNHelper_invariants Examples.sample 1
              ltac:(vm_compute; reflexivity) ltac:(lia))
    as (helper & Hrun & Hs & _ & _ & _ & _ & Hsum & _ & _ & _ & Hle).
  exists helper. split; [exact Hrun|].
  rewrite Hs in Hsum, Hle. split; [exact Hs|]. split; [exact Hsum|exact Hle].
Defined.


Lemma fullMessage_ones : Analyze.fullMessage Examples.ones.
Proof.
  constructor.
  - unfold Examples.ones. cbn [tipb.Rows]. apply Forall_replicate.
    eexists. split; [reflexivity|]. cbn [tipb.Counters]. split.
    + unfold protoWidth. simpl. lia.
    + apply Forall_replicate. unfold is_u32. lia.
  - reflexivity.
  - vm_compute. reflexivity.
Defined.

(** Two responses carrying [Examples.ones]: the count is twice 2048 and
    every cell is 2. *)
Lemma buildStatsFromResult_merges_witness :
  exists hist c job',
    Analyze.buildStatsFromResult unit unit Z tipb.CMSketch tt
      (fun _ => None) (fun _ => 0) (fun _ _ _ => (Some tt, None)) Z.add
      Examples.respUnmarshal 256 0
      [(Some Examples.ones, None); (Some Examples.ones, None)] true
    = Done (hist, Some c, None, job') /\
    Sketch.count c = 4096 /\
    cellAt (Sketch.table c) 0 0 = Some 2.
Proof.
  destruct (AnalyzeProps.buildStatsFromResult_merges unit unit Z
              tipb.CMSketch tt (fun _ => None) (fun _ => 0)
              (fun _ _ _ => (Some tt, None)) Z.add Examples.respUnmarshal
              256 0 [Examples.ones; Examples.ones]
              [Examples.ones; Examples.ones])
    as (hist & c & job' & Hrun & _ & _ & _ & _ & _ & Hcount & Hcells).
  - reflexivity.
  - repeat constructor; exists None; (split; [reflexivity|]);
      exact fullMessage_ones.
  - exists hist, c, job'. split; [exact Hrun|]. split.
    + rewrite Hcount. vm_compute. reflexivity.
    + rewrite (Hcells 0%nat 0%nat) by lia. vm_compute. reflexivity.
Defined.
